(** * Sokoban (sokoban.go): level decoder and game-state transitions

    A shallow embedding of [decompressLevel], [handleMove], [nBoxesLeft]
    and of the command blocks of [Game.Update], followed by the properties
    of the decoder and of the move / undo / win logic.

    Conventions.
    - A Go [byte] or [int] is a [Z]; a [[]byte] is a [list Z]; the grid
      [[][]byte] is a list of columns, [grid[x][y]]. No [int] of the program
      leaves the range of a 64-bit integer (coordinates stay within the grid,
      counters within [255*255]), so no wrap-around is written.
    - A slice access out of range is a run-time panic: every function that
      indexes returns a [result], with [Panic] for that case.
    - The decode loop is the only unbounded loop; it is written with fuel and
      proved to need no more than the number of bits plus one.
    - [float64] is Rocq's primitive binary64 float; the display transform is
      carried along but nothing is proved about its value (a Go compiler may
      fuse the multiplication and subtraction in it).
    - The globals are threaded as a [Session]; [prevUpdateTime], the images
      and the drawing code are left out. *)

From Stdlib Require Import ZArith List Lia Bool Floats.
From stdpp Require Import base list.
Import ListNotations.

Local Open Scope Z_scope.

(** ** Results of partial code *)

Inductive result (A : Type) : Type :=
| Ok (a : A)
| Panic
| OutOfFuel.

Arguments Ok {A} a.
Arguments Panic {A}.
Arguments OutOfFuel {A}.

#[global] Instance result_ret : MRet result := fun A a => Ok a.

#[global] Instance result_bind : MBind result := fun A B k c =>
  match c with
  | Ok a => k a
  | Panic => Panic
  | OutOfFuel => OutOfFuel
  end.

(** A [for] loop that builds a slice, one fallible element at a time. *)
Fixpoint mapR {A B : Type} (f : A -> result B) (l : list A) : result (list B) :=
  match l with
  | [] => Ok []
  | a :: l' => b ← f a; bs ← mapR f l'; Ok (b :: bs)
  end.

(** The values [0, 1, ..., n-1] of a loop variable [for i:=0; i<n; i++]. *)
Definition upto (n : Z) : list Z := map Z.of_nat (seq 0 (Z.to_nat n)).

(** [s[i]] for a slice [s] and an [int] index. *)
Definition index {A : Type} (s : list A) (i : Z) : result A :=
  if i <? 0 then Panic
  else match s !! Z.to_nat i with
       | Some a => Ok a
       | None => Panic
       end.

(** [s[i]] for an index that is a natural number by construction. *)
Definition at_ {A : Type} (s : list A) (i : nat) : result A :=
  match s !! i with
  | Some a => Ok a
  | None => Panic
  end.

(** ** Constants *)

Definition screenWidth : Z := 1900.
Definition screenHeight : Z := 1000.
Definition LEVEL_MAX : Z := 62.

Definition EMPTY : Z := 89.
Definition WALL : Z := 98.
Definition BOX : Z := 6.
Definition PLACED_BOX : Z := 9.
Definition GOAL : Z := 102.

Definition PLAYERUP : Z := 55.
Definition PLAYERDN : Z := 52.
Definition PLAYERRI : Z := 78.
Definition PLAYERLE : Z := 81.

(** [UP byte = iota] is the thirteenth constant of its block. *)
Definition UP : Z := 12.
Definition RIGHT : Z := 13.
Definition DOWN : Z := 14.
Definition LEFT : Z := 15.

(** ** Data *)

Record Level : Type := mkLevel {
  w : Z;
  h : Z;
  px : Z;
  py : Z;
  psprite : Z;
  zfactor : float;
  sx : float;
  sy : float;
  grid : list (list Z)
}.

Record screenZone : Type := mkZone {
  nHorizontalSectors : Z;
  nVerticalSectors : Z;
  hSector : Z;
  vSector : Z
}.

(** The globals [moves], [currentLevelNumber] and [curLev]. *)
Record Session : Type := mkSession {
  moves : list Z;
  currentLevelNumber : Z;
  curLev : Level
}.

(** ** decompressLevel *)

(** The inner loop [for j:=7; j>=0; j--] over one byte. *)
Definition byteBits (b : Z) : list bool :=
  map (fun j => 0 <? Z.land b (Z.shiftl 1 j)) [7; 6; 5; 4; 3; 2; 1; 0].

(** [level[2 : length-2]], the bytes visited by [for i:=2; i<length-2; i++]. *)
Definition body (level : list Z) : list Z :=
  take (length level - 2 - 2)%nat (drop 2 level).

Definition levelBits (level : list Z) : list bool :=
  flat_map byteBits (body level).

(** "extract counter": the run length and the index after it. *)
Definition readCounter (bits : list bool) (i : nat) : result (nat * nat) :=
  b0 ← at_ bits i;
  if negb b0 then Ok (1%nat, S i)
  else
    d3 ← at_ bits (i + 1)%nat;
    d2 ← at_ bits (i + 2)%nat;
    d1 ← at_ bits (i + 3)%nat;
    Ok ((2 + (if (d3 : bool) then 4 else 0) + (if (d2 : bool) then 2 else 0)
           + (if (d1 : bool) then 1 else 0))%nat, (i + 4)%nat).

(** "extract object": the tile and the index after it. *)
Definition readObject (bits : list bool) (i : nat) : result (Z * nat) :=
  b0 ← at_ bits i;
  if negb b0 then
    b1 ← at_ bits (i + 1)%nat;
    Ok (if negb b1 then EMPTY else WALL, (i + 2)%nat)
  else
    b1 ← at_ bits (i + 1)%nat;
    if negb b1 then Ok (BOX, (i + 2)%nat)
    else
      b2 ← at_ bits (i + 2)%nat;
      Ok (if (b2 : bool) then PLACED_BOX else GOAL, (i + 3)%nat).

(** [for len(grid) != int(l.w) * int(l.h) { ... }]; [n] is [w*h], [i] the
    bit index and [flat] the slice [grid] filled so far. *)
Fixpoint decodeLoop (fuel : nat) (bits : list bool) (n : Z) (i : nat)
    (flat : list Z) : result (list Z) :=
  if Z.of_nat (length flat) =? n then Ok flat
  else
    match fuel with
    | O => OutOfFuel
    | S fuel' =>
        '(counter, i1) ← readCounter bits i;
        '(object, i2) ← readObject bits i1;
        decodeLoop fuel' bits n i2 (flat ++ replicate counter object)
    end.

(** "convert to a 2d array": [grid2[x][y] = grid[y*int(l.w)+x]]. *)
Definition gridColumn (flat : list Z) (lw lh : Z) (x : Z) : result (list Z) :=
  mapR (fun y => index flat (y * lw + x)) (upto lh).

Definition toGrid2 (flat : list Z) (lw lh : Z) : result (list (list Z)) :=
  mapR (gridColumn flat lw lh) (upto lw).

(** "Compute screen specifics". *)
Definition float64 (z : Z) : float := PrimFloat.of_uint63 (Uint63.of_Z z).

Definition screenSpecifics (lw lh : Z) : float * float * float :=
  let width := (float64 64 * float64 lw)%float in
  let height := (float64 64 * float64 lh)%float in
  let factorW := (float64 screenWidth / width)%float in
  let factorH := (float64 screenHeight / height)%float in
  if PrimFloat.ltb factorH factorW then
    (factorH, ((float64 screenWidth - factorH * width) / float64 2)%float,
     float64 0)
  else
    (factorW, float64 0,
     ((float64 screenHeight - factorW * height) / float64 2)%float).

Definition decompressLevelFuel (fuel : nat) (level : list Z) : result Level :=
  let length_ := Z.of_nat (length level) in
  lw ← index level 0;
  lh ← index level 1;
  lpx ← index level (length_ - 2);
  lpy ← index level (length_ - 1);
  let bits := levelBits level in
  flat ← decodeLoop fuel bits (lw * lh) 0 [];
  grid2 ← toGrid2 flat lw lh;
  let '(factor, startX, startY) := screenSpecifics lw lh in
  Ok (mkLevel lw lh lpx lpy PLAYERUP factor startX startY grid2).

(** One iteration consumes at least three bits and panics when none is
    left, so the loop runs at most once per bit, plus the final test. *)
Definition decompressLevel (level : list Z) : result Level :=
  decompressLevelFuel (S (length (levelBits level))) level.

(** ** handleMove *)

(** [curLev.grid[x][y]] read. *)
Definition cell (g : list (list Z)) (x y : Z) : result Z :=
  col ← index g x; index col y.

(** [curLev.grid[x][y] = v]. *)
Definition setCell (g : list (list Z)) (x y v : Z) : result (list (list Z)) :=
  col ← index g x;
  _ ← index col y;
  Ok (<[Z.to_nat x := <[Z.to_nat y := v]> col]> g).

Definition setPlayer (l : Level) (x y : Z) : Level :=
  mkLevel (w l) (h l) x y (psprite l) (zfactor l) (sx l) (sy l) (grid l).

Definition setGrid (l : Level) (g : list (list Z)) : Level :=
  mkLevel (w l) (h l) (px l) (py l) (psprite l) (zfactor l) (sx l) (sy l) g.

Definition setSprite (l : Level) (s : Z) : Level :=
  mkLevel (w l) (h l) (px l) (py l) s (zfactor l) (sx l) (sy l) (grid l).

Definition handleMove (dx dy : Z) (l : Level) : result Level :=
  moveOnce ← cell (grid l) (px l + dx) (py l + dy);
  if (moveOnce =? EMPTY) || (moveOnce =? GOAL) then
    Ok (setPlayer l (px l + dx) (py l + dy))
  else if (moveOnce =? BOX) || (moveOnce =? PLACED_BOX) then
    moveTwice ← cell (grid l) (px l + 2 * dx) (py l + 2 * dy);
    let saveTile := if moveOnce =? PLACED_BOX then GOAL else EMPTY in
    if moveTwice =? EMPTY then
      g1 ← setCell (grid l) (px l + dx) (py l + dy) saveTile;
      g2 ← setCell g1 (px l + 2 * dx) (py l + 2 * dy) BOX;
      Ok (setPlayer (setGrid l g2) (px l + dx) (py l + dy))
    else if moveTwice =? GOAL then
      g1 ← setCell (grid l) (px l + dx) (py l + dy) saveTile;
      g2 ← setCell g1 (px l + 2 * dx) (py l + 2 * dy) PLACED_BOX;
      Ok (setPlayer (setGrid l g2) (px l + dx) (py l + dy))
    else Ok l
  else Ok l.

(** ** nBoxesLeft *)

(** A counting [for] loop over the indices [0 .. n-1], left to right. *)
Fixpoint foldR {A B : Type} (f : B -> A -> result B) (l : list A) (b : B)
  : result B :=
  match l with
  | [] => Ok b
  | a :: l' => b' ← f b a; foldR f l' b'
  end.

Definition nBoxesLeft (l : Level) : result Z :=
  foldR (fun boxesLeft i =>
    foldR (fun boxesLeft j =>
      c ← cell (grid l) i j;
      Ok (if c =? BOX then boxesLeft + 1 else boxesLeft))
      (upto (h l)) boxesLeft)
    (upto (w l)) 0.

(** ** Screen zones *)

Definition rightScreenZone := mkZone 20 10 20 9.
Definition leftScreenZone := mkZone 20 10 18 9.
Definition upScreenZone := mkZone 20 10 19 8.
Definition downScreenZone := mkZone 20 10 19 10.
Definition undoScreenZone := mkZone 20 10 1 1.
Definition nextScreenZone := mkZone 20 10 20 1.
Definition previousScreenZone := mkZone 20 10 19 1.

Definition screenZoneCoords (z : screenZone) : Z * Z * Z * Z :=
  let sectorWidth := Z.quot screenWidth (nHorizontalSectors z) in
  let sectorHeight := Z.quot screenHeight (nVerticalSectors z) in
  (sectorWidth * (hSector z - 1), sectorHeight * (vSector z - 1),
   sectorWidth * hSector z, sectorHeight * vSector z).

Definition inScreenZone (z : screenZone) (xEvent yEvent : Z) : bool :=
  let '(xMin, yMin, xMax, yMax) := screenZoneCoords z in
  (xMin <? xEvent) && (xEvent <? xMax) && (yMin <? yEvent) && (yEvent <? yMax).

(** ** Update *)

(** What one tick reads from the input library: the cursor, whether the left
    button was just pressed, the position of the first touch just pressed
    (if any), and which keys were just pressed. *)
Record Input : Type := mkInput {
  cursorPosition : Z * Z;
  pressedLeft : bool;
  touchPosition : option (Z * Z);
  keyPageUp : bool;
  keyPageDown : bool;
  keyBackspace : bool;
  keyArrowRight : bool;
  keyArrowLeft : bool;
  keyArrowUp : bool;
  keyArrowDown : bool
}.

Section Game.

(** The table [levels] of compressed levels is declared in another file of
    the package; it is a parameter here. *)
Variable levels : list (list Z).

(** [l := decompressLevel(levels[currentLevelNumber]); moves = nil;
    curLev = l] after [currentLevelNumber] was set to [n]. *)
Definition loadLevel (n : Z) : result Session :=
  buf ← index levels n;
  l ← decompressLevel buf;
  Ok (mkSession [] n l).

(** [init]: level 0, no moves. *)
Definition init : result Session := loadLevel 0.

(** The PageUp / next-zone block. *)
Definition nextLevel (s : Session) : result Session :=
  let n := currentLevelNumber s + 1 in
  loadLevel (if LEVEL_MAX <? n then LEVEL_MAX else n).

(** The PageDown / previous-zone block. *)
Definition previousLevel (s : Session) : result Session :=
  let n := currentLevelNumber s - 1 in
  loadLevel (if n <? 0 then 0 else n).

(** One iteration of the replay loop of the undo block. *)
Definition replayMove (l : Level) (m : Z) : result Level :=
  if m =? RIGHT then handleMove 1 0 (setSprite l PLAYERRI)
  else if m =? LEFT then handleMove (-1) 0 (setSprite l PLAYERLE)
  else if m =? UP then handleMove 0 (-1) (setSprite l PLAYERUP)
  else if m =? DOWN then handleMove 0 1 (setSprite l PLAYERDN)
  else Ok l.

(** The Backspace / undo-zone block. *)
Definition undo (s : Session) : result Session :=
  if (0 <? length (moves s))%nat then
    buf ← index levels (currentLevelNumber s);
    l ← decompressLevel buf;
    l' ← foldR replayMove (take (length (moves s) - 1)%nat (moves s)) l;
    Ok (mkSession (take (length (moves s) - 1)%nat (moves s))
                  (currentLevelNumber s) l')
  else Ok s.

(** An arrow block: [curLev.psprite = sprite; moves = append(moves, dir);
    handleMove(dx, dy)]. *)
Definition arrow (sprite dir dx dy : Z) (s : Session) : result Session :=
  l ← handleMove dx dy (setSprite (curLev s) sprite);
  Ok (mkSession (moves s ++ [dir]) (currentLevelNumber s) l).

Definition moveRight := arrow PLAYERRI RIGHT 1 0.
Definition moveLeft := arrow PLAYERLE LEFT (-1) 0.
Definition moveUp := arrow PLAYERUP UP 0 (-1).
Definition moveDown := arrow PLAYERDN DOWN 0 1.

(** The closing block: [if nBoxesLeft() == 0 { ... }]. *)
Definition advanceIfSolved (s : Session) : result Session :=
  n ← nBoxesLeft (curLev s);
  if n =? 0 then
    let k := currentLevelNumber s + 1 in
    loadLevel (if LEVEL_MAX <? k then LEVEL_MAX else k)
  else Ok s.

Definition when (c : bool) (f : Session -> result Session) (s : Session)
  : result Session :=
  if c then f s else Ok s.

(** The command blocks of [Update], before the closing block. *)
Definition commands (inp : Input) (s : Session) : result Session :=
  let '(xm, ym) := cursorPosition inp in
  let '(mouseOrTouch, eventX, eventY) :=
    match touchPosition inp with
    | Some (xt, yt) => (true, xt, yt)
    | None => if pressedLeft inp then (true, xm, ym) else (false, 0, 0)
    end in
  let hit z := mouseOrTouch && inScreenZone z eventX eventY in
  s ← when (keyPageUp inp || hit nextScreenZone) nextLevel s;
  s ← when (keyPageDown inp || hit previousScreenZone) previousLevel s;
  s ← when (keyBackspace inp || hit undoScreenZone) undo s;
  s ← when (keyArrowRight inp || hit rightScreenZone) moveRight s;
  s ← when (keyArrowLeft inp || hit leftScreenZone) moveLeft s;
  s ← when (keyArrowUp inp || hit upScreenZone) moveUp s;
  when (keyArrowDown inp || hit downScreenZone) moveDown s.

Definition Update (inp : Input) (s : Session) : result Session :=
  s' ← commands inp s;
  advanceIfSolved s'.

End Game.

(** ** Specification vocabulary *)

(** The number of cells of the grid that hold tile [t]. *)
Definition countTile (t : Z) (g : list (list Z)) : nat :=
  count_occ Z.eq_dec (concat g) t.

Definition oneIf (t v : Z) : nat := if Z.eq_dec v t then 1%nat else 0%nat.

(** The grid has [w] columns of [h] cells each. *)
Definition wellShaped (l : Level) : Prop :=
  0 <= w l /\ 0 <= h l /\
  length (grid l) = Z.to_nat (w l) /\
  Forall (fun col => length col = Z.to_nat (h l)) (grid l).

(** [(x, y)] lies in [[0,w) x [0,h)]. *)
Definition inGrid (l : Level) (x y : Z) : Prop :=
  0 <= x < w l /\ 0 <= y < h l.

Definition isBox (t : Z) : Prop := t = BOX \/ t = PLACED_BOX.
Definition isFree (t : Z) : Prop := t = EMPTY \/ t = GOAL.

(** What a pushed box leaves behind, and what it becomes on arrival. *)
Definition leftBehind (t : Z) : Z := if t =? PLACED_BOX then GOAL else EMPTY.
Definition arrived (b : Z) : Z := if b =? GOAL then PLACED_BOX else BOX.

(** The three ways [handleMove] can return. *)
Inductive moved (dx dy : Z) (l : Level) : Level -> Prop :=
| moved_stay : moved dx dy l l
| moved_step :
    moved dx dy l (setPlayer l (px l + dx) (py l + dy))
| moved_push (t b : Z) (g1 g2 : list (list Z)) :
    cell (grid l) (px l + dx) (py l + dy) = Ok t -> isBox t ->
    cell (grid l) (px l + 2 * dx) (py l + 2 * dy) = Ok b -> isFree b ->
    setCell (grid l) (px l + dx) (py l + dy) (leftBehind t) = Ok g1 ->
    setCell g1 (px l + 2 * dx) (py l + 2 * dy) (arrived b) = Ok g2 ->
    moved dx dy l (setPlayer (setGrid l g2) (px l + dx) (py l + dy)).

(** The number of boxes on the board, placed or not. *)
Definition boxes (g : list (list Z)) : nat :=
  (countTile BOX g + countTile PLACED_BOX g)%nat.

(** A small level: player at (2,2), a box at (3,2) with an empty cell at
    (4,2) behind it, a goal at (3,1), inside a wall border. Columns, left to
    right. *)
Definition demoGrid : list (list Z) :=
  [ [WALL; WALL; WALL; WALL];
    [WALL; EMPTY; EMPTY; WALL];
    [WALL; EMPTY; EMPTY; WALL];
    [WALL; GOAL; BOX; WALL];
    [WALL; EMPTY; EMPTY; WALL];
    [WALL; WALL; WALL; WALL] ].

Definition demoLevel : Level :=
  let '(factor, startX, startY) := screenSpecifics 6 4 in
  mkLevel 6 4 2 2 PLAYERUP factor startX startY demoGrid.

(** [handleMove 1 0 demoLevel]: the box has moved from (3,2) to (4,2). *)
Definition demoPushed : Level :=
  setPlayer (setGrid demoLevel
    [ [WALL; WALL; WALL; WALL];
      [WALL; EMPTY; EMPTY; WALL];
      [WALL; EMPTY; EMPTY; WALL];
      [WALL; GOAL; EMPTY; WALL];
      [WALL; EMPTY; BOX; WALL];
      [WALL; WALL; WALL; WALL] ]) 3 2.

(** A level with no wall border: one empty cell, the player on it. Its
    buffer is width 1, height 1, the bits 0 00 (one Empty) and player (0,0). *)
Definition edgeBuffer : list Z := [1; 1; 0; 0; 0].

Definition edgeLevel : Level :=
  let '(factor, startX, startY) := screenSpecifics 1 1 in
  mkLevel 1 1 0 0 PLAYERUP factor startX startY [[EMPTY]].

(** The state an arrow block leaves when its move is rejected. *)
Definition rejected (sprite dir : Z) (s : Session) : Session :=
  mkSession (moves s ++ [dir]) (currentLevelNumber s)
            (setSprite (curLev s) sprite).

(** ** The bitstream grammar, as the format description words it

    A run is a header followed by a tile symbol. The header is the bit [0]
    (run length 1) or the bit [1] followed by three bits [d3 d2 d1] (run
    length [2 + d3*4 + d2*2 + d1]). The tile symbols are [00] Empty, [01]
    Wall, [10] Box, [110] Goal and [111] PlacedBox. *)

Inductive header : Type :=
| Single
| Multi (d3 d2 d1 : bool).

Inductive tile : Type := Empty | Wall | Box | Goal | PlacedBox.

Definition headerBits (hd : header) : list bool :=
  match hd with
  | Single => [false]
  | Multi d3 d2 d1 => [true; d3; d2; d1]
  end.

Definition runLength (hd : header) : nat :=
  match hd with
  | Single => 1
  | Multi d3 d2 d1 => 2 + Nat.b2n d3 * 4 + Nat.b2n d2 * 2 + Nat.b2n d1
  end.

Definition tileBits (t : tile) : list bool :=
  match t with
  | Empty => [false; false]
  | Wall => [false; true]
  | Box => [true; false]
  | Goal => [true; true; false]
  | PlacedBox => [true; true; true]
  end.

Definition tileByte (t : tile) : Z :=
  match t with
  | Empty => EMPTY
  | Wall => WALL
  | Box => BOX
  | Goal => GOAL
  | PlacedBox => PLACED_BOX
  end.

Definition run : Type := header * tile.

Definition runBits (r : run) : list bool := headerBits (fst r) ++ tileBits (snd r).

Definition runsBits (rs : list run) : list bool := flat_map runBits rs.

(** Each symbol emitted [runLength] times. *)
Definition emit (r : run) : list Z := replicate (runLength (fst r)) (tileByte (snd r)).

Definition emitAll (rs : list run) : list Z := flat_map emit rs.

(** The number of tiles a list of runs stands for. *)
Definition total (rs : list run) : nat := length (emitAll rs).

(** The 2d array that the conversion builds from [w*h] tiles. *)
Definition grid2Of (flat : list Z) (lw lh : Z) : list (list Z) :=
  map (fun x => map (fun y => nth (Z.to_nat (y * lw + x)) flat 0) (upto lh))
      (upto lw).

(** ** Well-formed level buffers *)

Definition isByte (b : Z) : Prop := 0 <= b < 256.

(** [level] is the encoding of the runs [rs]: width and height, then a
    bitstream that starts with the codes of [rs], which stand for exactly
    [w*h] tiles, then a player position inside the grid. *)
Definition encodes (level : list Z) (rs : list run) : Prop :=
  (4 <= length level)%nat /\
  Forall isByte level /\
  (exists rest, levelBits level = runsBits rs ++ rest) /\
  Z.of_nat (total rs) = nth 0 level 0 * nth 1 level 0 /\
  nth (length level - 2) level 0 < nth 0 level 0 /\
  nth (length level - 1) level 0 < nth 1 level 0.

Definition wellFormedLevel (level : list Z) : Prop := exists rs, encodes level rs.

(** A 2x2 level, Wall Empty / Empty Wall, player (1,1).
    Bits: 0 01, 0 00, 0 00, 0 01 then padding: 0010 0000 | 0001 0000. *)
Definition level2x2 : list Z := [2; 2; 32; 16; 1; 1].

Definition runs2x2 : list run :=
  [(Single, Wall); (Single, Empty); (Single, Empty); (Single, Wall)].

(** A buffer whose first run overshoots: width 1, height 1, and the bits
    1 000 00 (two Empty) followed by 00. *)
Definition overshootBuffer : list Z := [1; 1; 128; 0; 0].

(** A buffer whose bits end too early: width 2, height 2, and the bits
    0 110, 0 110 (two Goals) where four tiles are due. *)
Definition truncatedBuffer : list Z := [2; 2; 102; 1; 1].

(** The loop runs for ever on [bits]: no amount of fuel is enough. *)
Definition diverges (bits : list bool) (n : Z) : Prop :=
  forall fuel, decodeLoop fuel bits n 0 [] = OutOfFuel.

(** The level that [decompressLevel] builds from width, height, player
    position and [w*h] decoded tiles. *)
Definition levelOf (lw lh lpx lpy : Z) (flat : list Z) : Level :=
  let '(factor, startX, startY) := screenSpecifics lw lh in
  mkLevel lw lh lpx lpy PLAYERUP factor startX startY (grid2Of flat lw lh).

(** The sum of the weights of the elements of a slice. *)
Definition weigh {A : Type} (weight : A -> Z) (l : list A) : Z :=
  fold_right (fun x s => weight x + s) 0 l.

(** The player stands inside a grid of [w] columns of [h] cells. *)
Definition levelOk (l : Level) : Prop :=
  wellShaped l /\ inGrid l (px l) (py l).

(** [f] keeps the player of the current level inside its grid. *)
Definition preserves (f : Session -> result Session) : Prop :=
  forall s s', levelOk (curLev s) -> f s = Ok s' -> levelOk (curLev s').

(** ** Histories of attempted moves *)

Definition isDir (m : Z) : Prop := m = UP \/ m = RIGHT \/ m = DOWN \/ m = LEFT.

(** The arrow block of [Update] that records direction [m]. *)
Definition press (s : Session) (m : Z) : result Session :=
  if m =? RIGHT then moveRight s
  else if m =? LEFT then moveLeft s
  else if m =? UP then moveUp s
  else if m =? DOWN then moveDown s
  else Ok s.

(** The arrow blocks for the directions of [hist], one after the other. *)
Definition attempts (hist : list Z) (s : Session) : result Session :=
  foldR press hist s.

(** The buffer of [demoLevel]: 6 by 4, the runs Wall x7, Empty x2, Goal,
    Empty, Wall x2, Empty x2, Box, Empty, Wall x7, player (2,2). *)
Definition demoBuffer : list Z := [6; 4; 214; 6; 16; 192; 134; 160; 2; 2].

(** A tick in which only the given key was just pressed. *)
Definition noInput : Input :=
  mkInput (0, 0) false None false false false false false false false.

Definition backspaceInput : Input :=
  mkInput (0, 0) false None false false true false false false false.

(** ** Several moves in one tick *)

(** A tick in which only arrow keys were just pressed. *)
Definition arrowKeys (r l u d : bool) : Input :=
  mkInput (0, 0) false None false false false r l u d.

(** A level that is solved between two moves: the player at (1,3) with a
    Box at (2,3) and a Goal at (3,3) to the right, and a PlacedBox at (2,2)
    with an Empty cell at (2,1) above it. Columns, left to right. *)
Definition twoMoveGrid : list (list Z) :=
  [ [WALL; WALL; WALL; WALL; WALL];
    [WALL; EMPTY; EMPTY; EMPTY; WALL];
    [WALL; EMPTY; PLACED_BOX; BOX; WALL];
    [WALL; EMPTY; EMPTY; GOAL; WALL];
    [WALL; WALL; WALL; WALL; WALL] ].

Definition twoMoveLevel : Level :=
  let '(factor, startX, startY) := screenSpecifics 5 5 in
  mkLevel 5 5 1 3 PLAYERUP factor startX startY twoMoveGrid.

(** Its buffer: 5 by 5, the runs Wall x6, Empty x3, Wall x2, Empty,
    PlacedBox, Empty, Wall x2, Empty, Box, Goal, Wall x6, player (1,3). *)
Definition twoMoveBuffer : list Z :=
  [5; 5; 198; 72; 67; 136; 66; 108; 64; 1; 3].

Definition twoMoveTable : list (list Z) := [twoMoveBuffer; demoBuffer].

(** [twoMoveLevel] after Right: the Box stands on the Goal, no Box is left. *)
Definition twoMoveAfterRight : Level :=
  setSprite (setPlayer (setGrid twoMoveLevel
    [ [WALL; WALL; WALL; WALL; WALL];
      [WALL; EMPTY; EMPTY; EMPTY; WALL];
      [WALL; EMPTY; PLACED_BOX; EMPTY; WALL];
      [WALL; EMPTY; EMPTY; PLACED_BOX; WALL];
      [WALL; WALL; WALL; WALL; WALL] ]) 2 3) PLAYERRI.

(** ... and after Up in the same tick: the PlacedBox at (2,2) was pushed off
    its goal, one Box is left. *)
Definition twoMoveAfterUp : Level :=
  setSprite (setPlayer (setGrid twoMoveLevel
    [ [WALL; WALL; WALL; WALL; WALL];
      [WALL; EMPTY; EMPTY; EMPTY; WALL];
      [WALL; BOX; GOAL; EMPTY; WALL];
      [WALL; EMPTY; EMPTY; PLACED_BOX; WALL];
      [WALL; WALL; WALL; WALL; WALL] ]) 2 2) PLAYERUP.

(** ** Terrain and safety vocabulary *)

(** The closed set of tile values. *)
Definition isTile (t : Z) : Prop :=
  t = EMPTY \/ t = WALL \/ t = BOX \/ t = PLACED_BOX \/ t = GOAL.

Definition tilesOnly (g : list (list Z)) : Prop := Forall (Forall isTile) g.

(** What lies under a tile: a box stands on plain floor, a placed box on a
    goal; the other tiles are their own floor. *)
Definition floor (t : Z) : Z :=
  if t =? BOX then EMPTY else if t =? PLACED_BOX then GOAL else t.

(** The four directions that [Update] passes to [handleMove]. *)
Definition unitStep (dx dy : Z) : Prop :=
  (dx, dy) = (1, 0) \/ (dx, dy) = (-1, 0) \/ (dx, dy) = (0, -1) \/ (dx, dy) = (0, 1).

(** Every cell on the rim of the grid is a Wall. *)
Definition walled (l : Level) : Prop :=
  forall x y,
    inGrid l x y -> x = 0 \/ x = w l - 1 \/ y = 0 \/ y = h l - 1 ->
    cell (grid l) x y = Ok WALL.

(** A level the move logic can run on without leaving the grid: [w] columns
    of [h] cells, a wall rim, and the player on a cell that is not a Wall. *)
Definition safeLevel (l : Level) : Prop :=
  wellShaped l /\ walled l /\
  exists t, cell (grid l) (px l) (py l) = Ok t /\ t <> WALL.

(** A table of levels the game can run on: at least [LEVEL_MAX + 1] buffers,
    each of which decodes to a safe level. *)
Definition safeTable (levels : list (list Z)) : Prop :=
  LEVEL_MAX < Z.of_nat (length levels) /\
  forall buf, buf ∈ levels -> exists l, decompressLevel buf = Ok l /\ safeLevel l.

Definition safeSession (s : Session) : Prop :=
  0 <= currentLevelNumber s <= LEVEL_MAX /\
  safeLevel (curLev s) /\
  Forall isDir (moves s).

(** [f] returns on every safe session, with a safe session. *)
Definition runsSafely (f : Session -> result Session) : Prop :=
  forall s, safeSession s -> exists s', f s = Ok s' /\ safeSession s'.

(** A table of [LEVEL_MAX + 1] copies of the small level. *)
Definition demoTable : list (list Z) := replicate 63 demoBuffer.

(** ** An encoder for the level format

    The program only decodes; this encoder is the inverse used to state the
    round trip. *)

(** The byte whose bits, most significant first, are [bs]. *)
Definition bitsByte (bs : list bool) : Z :=
  fold_left (fun acc (b : bool) => 2 * acc + (if b then 1 else 0)) bs 0.

(** Bits packed eight to a byte, the last byte padded with zero bits. *)
Fixpoint packBits (fuel : nat) (bits : list bool) : list Z :=
  match fuel with
  | O => []
  | S fuel' =>
      match bits with
      | [] => []
      | _ => bitsByte (take 8 (bits ++ replicate 7 false))
             :: packBits fuel' (drop 8 bits)
      end
  end.

(** Width, height, the packed codes of the runs, player position. *)
Definition compressRuns (lw lh lpx lpy : Z) (rs : list run) : list Z :=
  [lw; lh] ++ packBits (length (runsBits rs)) (runsBits rs) ++ [lpx; lpy].

(** ** Pointer events and sessions reached by play *)

Definition noKeys (inp : Input) : Prop :=
  keyPageUp inp = false /\ keyPageDown inp = false /\ keyBackspace inp = false /\
  keyArrowRight inp = false /\ keyArrowLeft inp = false /\
  keyArrowUp inp = false /\ keyArrowDown inp = false.

(** The point a tick reacts to: the touch if there is one, else the cursor
    if the left button was just pressed. *)
Definition eventPoint (inp : Input) : option (Z * Z) :=
  match touchPosition inp with
  | Some p => Some p
  | None => if pressedLeft inp then Some (cursorPosition inp) else None
  end.

(** The command block of the zone that holds [(x, y)], if any. *)
Definition zoneCommand (levels : list (list Z)) (x y : Z)
  : Session -> result Session :=
  if inScreenZone nextScreenZone x y then nextLevel levels
  else if inScreenZone previousScreenZone x y then previousLevel levels
  else if inScreenZone undoScreenZone x y then undo levels
  else if inScreenZone rightScreenZone x y then moveRight
  else if inScreenZone leftScreenZone x y then moveLeft
  else if inScreenZone upScreenZone x y then moveUp
  else if inScreenZone downScreenZone x y then moveDown
  else Ok.

(** The session is what play from the loaded level makes it: the index is
    in range, the history holds directions, and the current level is the
    level of that index with the history replayed on it. *)
Definition consistent (levels : list (list Z)) (s : Session) : Prop :=
  0 <= currentLevelNumber s <= LEVEL_MAX /\
  Forall isDir (moves s) /\
  exists buf l0,
    index levels (currentLevelNumber s) = Ok buf /\
    decompressLevel buf = Ok l0 /\
    foldR replayMove (moves s) l0 = Ok (curLev s).

(** A tick in which only the arrow key of direction [d] was just pressed. *)
Definition arrowKey (d : Z) : Input :=
  arrowKeys (d =? RIGHT) (d =? LEFT) (d =? UP) (d =? DOWN).

(** [n] ticks of [Update] in each of which only Backspace was just
    pressed. *)
Fixpoint undoTicks (levels : list (list Z)) (n : nat) (s : Session)
  : result Session :=
  match n with
  | O => Ok s
  | S n' => s' ← Update levels backspaceInput s; undoTicks levels n' s'
  end.

(** [f] keeps sessions consistent. *)
Definition keepsConsistent (levels : list (list Z))
    (f : Session -> result Session) : Prop :=
  forall s s', consistent levels s -> f s = Ok s' -> consistent levels s'.

(** ** Drawing

    [Draw] only calls the graphics library; it is modelled by the list of
    the calls it makes on the screen, in order. *)

Inductive sheetName : Type := tileSheet | iconsSheet.

(** One [screen.DrawImage(sheet.SubImage(image.Rect(...)), op)]: the sheet,
    the rectangle cut from it, and the scale and translation of [op.GeoM]. *)
Record imageDraw : Type := mkDraw {
  sheet : sheetName;
  subImage : Z * Z * Z * Z;
  scale : float * float;
  translate : float * float
}.

Inductive screenCall : Type :=
| DrawImage (d : imageDraw)
| DebugPrint (levelNumber : Z).

(** The rectangle of sprite [num] on the tile sheet, 13 sprites per row. *)
Definition spriteRect (num spriteW spriteH : Z) : Z * Z * Z * Z :=
  let i := Z.rem num 13 in
  let j := Z.quot num 13 in
  (i * spriteW, j * spriteH, (i + 1) * spriteW, (j + 1) * spriteH).

Definition drawSprite (x y num : Z) (startX startY factor : float)
    (spriteW spriteH : Z) : screenCall :=
  DrawImage (mkDraw tileSheet (spriteRect num spriteW spriteH)
    (factor, factor)
    ((startX + float64 x * float64 spriteW * factor)%float,
     (startY + float64 y * float64 spriteH * factor)%float)).

(** The rectangle of icon [iconNumber] on the icon sheet, 20 icons per
    column. *)
Definition iconRect (iconNumber : Z) : Z * Z * Z * Z :=
  let yIcon := Z.rem iconNumber 20 in
  let xIcon := Z.quot iconNumber 20 in
  (xIcon * 100, yIcon * 100, (1 + xIcon) * 100, (1 + yIcon) * 100).

Definition drawIcon (iconNumber : Z) (z : screenZone) : screenCall :=
  let '(xMin, yMin, xMax, yMax) := screenZoneCoords z in
  DrawImage (mkDraw iconsSheet (iconRect iconNumber)
    ((float64 (xMax - xMin) / float64 100)%float,
     (float64 (yMax - yMin) / float64 100)%float)
    (float64 xMin, float64 yMin)).

(** The body of the two nested loops of [Draw] for cell [(i, j)]. *)
Definition drawCell (l : Level) (i j : Z) : result (list screenCall) :=
  c ← cell (grid l) i j;
  Ok [drawSprite i j EMPTY (sx l) (sy l) (zfactor l) 64 64;
      drawSprite i j c (sx l) (sy l) (zfactor l) 64 64].

(** A [for] loop that appends what each iteration draws. *)
Fixpoint drawAll {A : Type} (f : A -> result (list screenCall)) (l : list A)
  : result (list screenCall) :=
  match l with
  | [] => Ok []
  | a :: l' => cs ← f a; rest ← drawAll f l'; Ok (cs ++ rest)
  end.

Definition drawIcons : list screenCall :=
  [drawIcon 45 undoScreenZone; drawIcon 9 upScreenZone;
   drawIcon 10 rightScreenZone; drawIcon 11 leftScreenZone;
   drawIcon 12 downScreenZone; drawIcon 83 nextScreenZone;
   drawIcon 44 previousScreenZone].

Definition Draw (s : Session) : result (list screenCall) :=
  let l := curLev s in
  tiles ← drawAll (fun i => drawAll (fun j => drawCell l i j) (upto (h l)))
                  (upto (w l));
  Ok (tiles
      ++ [drawSprite (px l) (py l) (psprite l) (sx l) (sy l) (zfactor l) 64 64;
          DebugPrint (currentLevelNumber s)]
      ++ drawIcons).

(** What [Draw] paints for the cells of a grid, column by column: under
    every tile the plain floor. *)
Definition paintedCells (l : Level) : list screenCall :=
  flat_map (fun i =>
    flat_map (fun j =>
      [drawSprite i j EMPTY (sx l) (sy l) (zfactor l) 64 64;
       drawSprite i j (nth (Z.to_nat j) (nth (Z.to_nat i) (grid l) []) 0)
                  (sx l) (sy l) (zfactor l) 64 64])
      (upto (h l)))
    (upto (w l)).

(** Two rectangles [(x0, y0, x1, y1)] share no point of their interiors. *)
Definition rectsDisjoint (r1 r2 : Z * Z * Z * Z) : Prop :=
  let '(a0, b0, a1, b1) := r1 in
  let '(c0, d0, c1, d1) := r2 in
  a1 <= c0 \/ c1 <= a0 \/ b1 <= d0 \/ d1 <= b0.

(** The tile symbol of a tile value. *)
Definition tileOf (t : Z) : tile :=
  if t =? WALL then Wall
  else if t =? BOX then Box
  else if t =? GOAL then Goal
  else if t =? PLACED_BOX then PlacedBox
  else Empty.

(** The tiles of a level in stream order: position [p] holds
    [grid[p mod w][p div w]]. *)
Definition flatOf (l : Level) : list Z :=
  map (fun p => nth (Z.to_nat (p / w l))
                    (nth (Z.to_nat (p mod w l)) (grid l) []) 0)
      (upto (w l * h l)).

(** A buffer for a level: every tile as a run of length one. *)
Definition compressLevel (l : Level) : list Z :=
  compressRuns (w l) (h l) (px l) (py l)
               (map (fun t => (Single, tileOf t)) (flatOf l)).

(** * Properties *)

(** ** Slices and cells *)

Lemma index_Ok {A : Type} (s : list A) (i : Z) (a : A) :
  index s i = Ok a <-> 0 <= i /\ s !! Z.to_nat i = Some a.
Proof.
  unfold index. destruct (Z.ltb_spec i 0).
  - split; [discriminate | lia].
  - destruct (s !! Z.to_nat i) eqn:E; split; intros H1.
    + injection H1 as ->. auto.
    + destruct H1 as [_ H1]. congruence.
    + discriminate.
    + destruct H1 as [_ H1]. discriminate.
Qed.

Lemma index_not_OutOfFuel {A : Type} (s : list A) (i : Z) :
  index s i <> OutOfFuel.
Proof.
  unfold index. destruct (i <? 0); [discriminate|].
  destruct (s !! Z.to_nat i); discriminate.
Qed.

Lemma index_Panic {A : Type} (s : list A) (i : Z) :
  index s i = Panic <-> ~ (0 <= i < Z.of_nat (length s)).
Proof.
  unfold index. destruct (Z.ltb_spec i 0).
  - split; [lia | reflexivity].
  - destruct (s !! Z.to_nat i) eqn:E.
    + apply lookup_lt_Some in E. split; [discriminate | lia].
    + apply lookup_ge_None in E. split; [lia | reflexivity].
Qed.

Lemma cell_Ok (g : list (list Z)) (x y v : Z) :
  cell g x y = Ok v <->
  0 <= x /\ 0 <= y /\
  exists col, g !! Z.to_nat x = Some col /\ col !! Z.to_nat y = Some v.
Proof.
  unfold cell. split.
  - destruct (index g x) as [col| |] eqn:E; simpl; try discriminate.
    intros H1. apply index_Ok in E. apply index_Ok in H1.
    destruct E, H1. eauto 6.
  - intros (Hx & Hy & col & Hc & Hv).
    assert (E : index g x = Ok col) by (apply index_Ok; auto).
    rewrite E. simpl. apply index_Ok. auto.
Qed.

Lemma cell_not_OutOfFuel (g : list (list Z)) (x y : Z) :
  cell g x y <> OutOfFuel.
Proof.
  unfold cell. destruct (index g x) eqn:E; simpl.
  - apply index_not_OutOfFuel.
  - discriminate.
  - exfalso. exact (index_not_OutOfFuel _ _ E).
Qed.

Lemma setCell_Ok (g : list (list Z)) (x y old v : Z) :
  cell g x y = Ok old ->
  exists col,
    g !! Z.to_nat x = Some col /\ col !! Z.to_nat y = Some old /\
    setCell g x y v = Ok (<[Z.to_nat x := <[Z.to_nat y := v]> col]> g).
Proof.
  intros H1. apply cell_Ok in H1. destruct H1 as (Hx & Hy & col & Hc & Hv).
  exists col. split; [assumption|]. split; [assumption|].
  unfold setCell.
  assert (E : index g x = Ok col) by (apply index_Ok; auto).
  assert (E' : index col y = Ok old) by (apply index_Ok; auto).
  rewrite E. simpl. rewrite E'. reflexivity.
Qed.

(** A write changes the cell written and no other. *)
Lemma cell_insert_eq (g : list (list Z)) (x y v : Z) (col : list Z) (old : Z) :
  0 <= x -> 0 <= y ->
  g !! Z.to_nat x = Some col -> col !! Z.to_nat y = Some old ->
  cell (<[Z.to_nat x := <[Z.to_nat y := v]> col]> g) x y = Ok v.
Proof.
  intros Hx Hy Hc Hv. apply cell_Ok. split; [assumption|]. split; [assumption|].
  exists (<[Z.to_nat y := v]> col). split.
  - apply list_lookup_insert_eq. eapply lookup_lt_Some; eassumption.
  - apply list_lookup_insert_eq. eapply lookup_lt_Some; eassumption.
Qed.

Lemma cell_insert_ne (g : list (list Z)) (x y v x' y' : Z) (col : list Z) :
  0 <= x -> 0 <= y ->
  g !! Z.to_nat x = Some col ->
  (x', y') <> (x, y) ->
  cell (<[Z.to_nat x := <[Z.to_nat y := v]> col]> g) x' y' = cell g x' y'.
Proof.
  intros Hx Hy Hc Hne. unfold cell, index.
  destruct (Z.ltb_spec x' 0); [reflexivity|].
  destruct (decide (Z.to_nat x = Z.to_nat x')) as [Heq|Hneq].
  - assert (x' = x) by lia. subst x'.
    rewrite list_lookup_insert_eq by (eapply lookup_lt_Some; eassumption).
    rewrite Hc. simpl.
    destruct (Z.ltb_spec y' 0); [reflexivity|].
    rewrite list_lookup_insert_ne; [reflexivity|].
    intros Hy'. apply Hne. f_equal. lia.
  - rewrite list_lookup_insert_ne by assumption. reflexivity.
Qed.

(** ** Counting tiles *)

Lemma count_insert (t : Z) (l : list Z) (i : nat) (old v : Z) :
  l !! i = Some old ->
  (count_occ Z.eq_dec (<[i := v]> l) t + oneIf t old
   = count_occ Z.eq_dec l t + oneIf t v)%nat.
Proof.
  revert i. induction l as [|a l IH]; intros [|i] H1; try discriminate.
  - injection H1 as ->. unfold oneIf. simpl.
    destruct (Z.eq_dec v t), (Z.eq_dec old t); lia.
  - simpl in H1. specialize (IH i H1). simpl.
    change (list_insert i v l) with (<[i := v]> l).
    destruct (Z.eq_dec a t); lia.
Qed.

Lemma countTile_insert (t : Z) (g : list (list Z)) (i : nat) (col col' : list Z) :
  g !! i = Some col ->
  (countTile t (<[i := col']> g) + count_occ Z.eq_dec col t
   = countTile t g + count_occ Z.eq_dec col' t)%nat.
Proof.
  unfold countTile. revert i.
  induction g as [|c g IH]; intros [|i] H1; try discriminate.
  - injection H1 as ->. simpl. rewrite !count_occ_app. lia.
  - simpl in H1. specialize (IH i H1). simpl.
    change (list_insert i col' g) with (<[i := col']> g).
    rewrite !count_occ_app. lia.
Qed.

Lemma countTile_setCell (t : Z) (g g' : list (list Z)) (x y old v : Z) :
  cell g x y = Ok old -> setCell g x y v = Ok g' ->
  (countTile t g' + oneIf t old = countTile t g + oneIf t v)%nat.
Proof.
  intros H1 H2. destruct (setCell_Ok g x y old v H1) as (col & Hc & Hv & E).
  rewrite E in H2. injection H2 as <-.
  pose proof (countTile_insert t g _ col (<[Z.to_nat y := v]> col) Hc).
  pose proof (count_insert t col _ old v Hv). lia.
Qed.

(** ** handleMove, case by case *)

Lemma cell_inGrid (l : Level) (x y : Z) :
  wellShaped l -> (inGrid l x y <-> exists v, cell (grid l) x y = Ok v).
Proof.
  intros (Hw & Hh & Hlen & Hcols). unfold inGrid. split.
  - intros [Hx Hy].
    destruct (lookup_lt_is_Some_2 (grid l) (Z.to_nat x)) as [col Hc]; [lia|].
    assert (Hl : length col = Z.to_nat (h l)).
    { rewrite Forall_forall in Hcols. apply Hcols.
      eapply list_elem_of_lookup_2. eassumption. }
    destruct (lookup_lt_is_Some_2 col (Z.to_nat y)) as [v Hv]; [lia|].
    exists v. apply cell_Ok. split; [lia|]. split; [lia|]. eauto.
  - intros [v Hv]. apply cell_Ok in Hv.
    destruct Hv as (Hx & Hy & col & Hc & Hv).
    assert (Hl : length col = Z.to_nat (h l)).
    { rewrite Forall_forall in Hcols. apply Hcols.
      eapply list_elem_of_lookup_2. eassumption. }
    apply lookup_lt_Some in Hc. apply lookup_lt_Some in Hv. lia.
Qed.

Lemma cell_outside (l : Level) (x y : Z) :
  wellShaped l -> ~ inGrid l x y -> cell (grid l) x y = Panic.
Proof.
  intros Hs Hout. destruct (cell (grid l) x y) as [v| |] eqn:E.
  - exfalso. apply Hout. apply cell_inGrid; eauto.
  - reflexivity.
  - exfalso. exact (cell_not_OutOfFuel _ _ _ E).
Qed.

Lemma handleMove_inv (dx dy : Z) (l l' : Level) :
  handleMove dx dy l = Ok l' ->
  moved dx dy l l' /\
  exists t, cell (grid l) (px l + dx) (py l + dy) = Ok t /\
            (l' = l \/ isFree t \/ isBox t).
Proof.
  unfold handleMove.
  destruct (cell (grid l) (px l + dx) (py l + dy)) as [t| |] eqn:Et;
    simpl; try discriminate.
  destruct (Z.eqb_spec t EMPTY) as [->|HnE]; simpl.
  { intros H1. injection H1 as <-. split; [constructor|].
    exists EMPTY. split; [reflexivity|]. right. left. left. reflexivity. }
  destruct (Z.eqb_spec t GOAL) as [->|HnG]; simpl.
  { intros H1. injection H1 as <-. split; [constructor|].
    exists GOAL. split; [reflexivity|]. right. left. right. reflexivity. }
  assert (Hstay : Ok l = Ok l' ->
    moved dx dy l l' /\ exists t0, Ok t = Ok t0 /\ (l' = l \/ isFree t0 \/ isBox t0)).
  { intros H1. injection H1 as <-. split; [constructor|]. eauto. }
  destruct ((t =? BOX) || (t =? PLACED_BOX)) eqn:Eb; [|exact Hstay].
  assert (Hb : isBox t).
  { apply orb_true_iff in Eb. destruct Eb as [Eb|Eb]; apply Z.eqb_eq in Eb;
      [left|right]; assumption. }
  destruct (cell (grid l) (px l + 2 * dx) (py l + 2 * dy)) as [b| |] eqn:Eb2;
    simpl; try discriminate.
  fold (leftBehind t).
  destruct (Z.eqb_spec b EMPTY) as [->|HbE].
  { destruct (setCell (grid l) (px l + dx) (py l + dy) (leftBehind t))
      as [g1| |] eqn:E1; simpl; try discriminate.
    destruct (setCell g1 (px l + 2 * dx) (py l + 2 * dy) BOX)
      as [g2| |] eqn:E2; simpl; try discriminate.
    intros H1. injection H1 as <-. split; [|eauto].
    eapply (moved_push dx dy l t EMPTY g1 g2); eauto. left. reflexivity. }
  destruct (Z.eqb_spec b GOAL) as [->|HbG]; [|exact Hstay].
  destruct (setCell (grid l) (px l + dx) (py l + dy) (leftBehind t))
    as [g1| |] eqn:E1; simpl; try discriminate.
  destruct (setCell g1 (px l + 2 * dx) (py l + 2 * dy) PLACED_BOX)
    as [g2| |] eqn:E2; simpl; try discriminate.
  intros H1. injection H1 as <-. split; [|eauto].
  eapply (moved_push dx dy l t GOAL g1 g2); eauto. right. reflexivity.
Qed.

Lemma map_length_insert (g : list (list Z)) (i : nat) (col col' : list Z) :
  g !! i = Some col -> length col' = length col ->
  map length (<[i := col']> g) = map length g.
Proof.
  revert i. induction g as [|c g IH]; intros [|i] H1 H2; try discriminate.
  - injection H1 as ->. simpl. congruence.
  - simpl in *. f_equal. apply IH; assumption.
Qed.

Lemma setCell_spec (g : list (list Z)) (x y old v : Z) :
  cell g x y = Ok old ->
  exists g',
    setCell g x y v = Ok g' /\
    cell g' x y = Ok v /\
    (forall x' y', (x', y') <> (x, y) -> cell g' x' y' = cell g x' y') /\
    map length g' = map length g.
Proof.
  intros H1. destruct (setCell_Ok g x y old v H1) as (col & Hc & Hv & E).
  apply cell_Ok in H1. destruct H1 as (Hx & Hy & _).
  eexists. split; [exact E|]. split; [|split].
  - apply (cell_insert_eq g x y v col old); assumption.
  - intros x' y' Hne. apply cell_insert_ne; assumption.
  - apply (map_length_insert g _ col); [assumption|]. apply length_insert.
Qed.

Lemma isBox_not_isFree (t : Z) : isBox t -> isFree t -> False.
Proof. unfold isBox, isFree, BOX, PLACED_BOX, EMPTY, GOAL. lia. Qed.

Lemma isBox_tests (t : Z) :
  isBox t ->
  (t =? EMPTY) || (t =? GOAL) = false /\ (t =? BOX) || (t =? PLACED_BOX) = true.
Proof. intros [->| ->]; split; reflexivity. Qed.

(** The push, computed. *)
Lemma handleMove_push (l : Level) (dx dy t b : Z) :
  cell (grid l) (px l + dx) (py l + dy) = Ok t -> isBox t ->
  cell (grid l) (px l + 2 * dx) (py l + 2 * dy) = Ok b -> isFree b ->
  exists g1 g2,
    setCell (grid l) (px l + dx) (py l + dy) (leftBehind t) = Ok g1 /\
    setCell g1 (px l + 2 * dx) (py l + 2 * dy) (arrived b) = Ok g2 /\
    handleMove dx dy l = Ok (setPlayer (setGrid l g2) (px l + dx) (py l + dy)) /\
    cell g2 (px l + dx) (py l + dy) = Ok (leftBehind t) /\
    cell g2 (px l + 2 * dx) (py l + 2 * dy) = Ok (arrived b) /\
    (forall x y,
        (x, y) <> (px l + dx, py l + dy) ->
        (x, y) <> (px l + 2 * dx, py l + 2 * dy) ->
        cell g2 x y = cell (grid l) x y) /\
    map length g2 = map length (grid l).
Proof.
  intros Ht Hbox Hb Hfree.
  assert (Hne : (px l + 2 * dx, py l + 2 * dy) <> (px l + dx, py l + dy)).
  { intros Heq. injection Heq as E1 E2. rewrite E1, E2 in Hb.
    rewrite Ht in Hb. injection Hb as <-.
    exact (isBox_not_isFree t Hbox Hfree). }
  destruct (setCell_spec _ _ _ t (leftBehind t) Ht) as (g1 & E1 & C1 & F1 & L1).
  assert (Hb1 : cell g1 (px l + 2 * dx) (py l + 2 * dy) = Ok b).
  { rewrite F1; assumption. }
  destruct (setCell_spec _ _ _ b (arrived b) Hb1) as (g2 & E2 & C2 & F2 & L2).
  exists g1, g2. split; [exact E1|]. split; [exact E2|].
  split; [|split; [|split; [|split]]].
  - unfold handleMove. rewrite Ht. simpl.
    destruct (isBox_tests t Hbox) as [T1 T2]. rewrite T1, T2.
    rewrite Hb. simpl. fold (leftBehind t). rewrite E1. simpl.
    destruct Hfree as [->| ->]; simpl; unfold arrived in E2; simpl in E2;
      rewrite E2; reflexivity.
  - rewrite F2; [exact C1|]. intros Heq. apply Hne. congruence.
  - exact C2.
  - intros x y N1 N2. rewrite F2 by assumption. apply F1. assumption.
  - congruence.
Qed.

(** C3. When the cell next to the player in the move direction holds a Box
    or PlacedBox and the cell two steps away is Empty or Goal, [handleMove]
    returns a level in which the pushed-from cell is Empty (Goal if it held
    PlacedBox), the cell two steps away is Box (PlacedBox if it was Goal),
    the player has advanced by [(dx, dy)], and no other cell has changed. *)
Theorem push_moves_box (l : Level) (dx dy t b : Z) :
  cell (grid l) (px l + dx) (py l + dy) = Ok t -> isBox t ->
  cell (grid l) (px l + 2 * dx) (py l + 2 * dy) = Ok b -> isFree b ->
  exists l',
    handleMove dx dy l = Ok l' /\
    cell (grid l') (px l + dx) (py l + dy)
      = Ok (if t =? PLACED_BOX then GOAL else EMPTY) /\
    cell (grid l') (px l + 2 * dx) (py l + 2 * dy)
      = Ok (if b =? GOAL then PLACED_BOX else BOX) /\
    px l' = px l + dx /\ py l' = py l + dy /\
    forall x y,
      (x, y) <> (px l + dx, py l + dy) ->
      (x, y) <> (px l + 2 * dx, py l + 2 * dy) ->
      cell (grid l') x y = cell (grid l) x y.
Proof.
  intros Ht Hbox Hb Hfree.
  destruct (handleMove_push l dx dy t b Ht Hbox Hb Hfree)
    as (g1 & g2 & _ & _ & Hm & C1 & C2 & F & _).
  eexists. split; [exact Hm|]. simpl. auto.
Qed.

Lemma push_moves_box_witness :
  exists l',
    handleMove 1 0 demoLevel = Ok l' /\
    cell (grid l') 3 2 = Ok EMPTY /\
    cell (grid l') 4 2 = Ok BOX /\
    px l' = 3 /\ py l' = 2 /\
    forall x y, (x, y) <> (3, 2) -> (x, y) <> (4, 2) ->
      cell (grid l') x y = cell (grid demoLevel) x y.
Proof.
  apply (push_moves_box demoLevel 1 0 BOX EMPTY).
  - reflexivity.
  - left. reflexivity.
  - reflexivity.
  - left. reflexivity.
Defined.

(** A move attempt keeps the dimensions of the level and of its grid. *)
Lemma handleMove_shape (dx dy : Z) (l l' : Level) :
  handleMove dx dy l = Ok l' ->
  map length (grid l') = map length (grid l) /\ w l' = w l /\ h l' = h l.
Proof.
  intros H1. apply handleMove_inv in H1. destruct H1 as [Hm _].
  destruct Hm as [| |t b g1 g2 Ht Hbox Hb Hfree E1 E2]; simpl; auto.
  destruct (handleMove_push l dx dy t b Ht Hbox Hb Hfree)
    as (g1' & g2' & E1' & E2' & _ & _ & _ & _ & L).
  rewrite E1 in E1'. injection E1' as <-.
  rewrite E2 in E2'. injection E2' as <-. auto.
Qed.

(** C10. A move attempt from [(px, py)] in direction [(dx, dy)] leaves every
    cell other than [(px+dx, py+dy)] and [(px+2dx, py+2dy)] as it was, keeps
    the shape of the grid, moves the player by [(dx, dy)] or not at all (so by
    at most one cell for a unit direction), and leaves the width, height,
    zoom factor and screen offsets unchanged. *)
Theorem handleMove_frame (dx dy : Z) (l l' : Level) :
  handleMove dx dy l = Ok l' ->
  (forall x y,
      (x, y) <> (px l + dx, py l + dy) ->
      (x, y) <> (px l + 2 * dx, py l + 2 * dy) ->
      cell (grid l') x y = cell (grid l) x y) /\
  map length (grid l') = map length (grid l) /\
  ((px l', py l') = (px l, py l) \/ (px l', py l') = (px l + dx, py l + dy)) /\
  Z.abs (px l' - px l) + Z.abs (py l' - py l) <= Z.abs dx + Z.abs dy /\
  w l' = w l /\ h l' = h l /\
  zfactor l' = zfactor l /\ sx l' = sx l /\ sy l' = sy l.
Proof.
  intros H1. apply handleMove_inv in H1. destruct H1 as [Hm _].
  destruct Hm as [| |t b g1 g2 Ht Hbox Hb Hfree E1 E2]; simpl.
  - repeat split; auto; lia.
  - repeat split; auto; lia.
  - destruct (handleMove_push l dx dy t b Ht Hbox Hb Hfree)
      as (g1' & g2' & E1' & E2' & _ & _ & _ & F & L).
    rewrite E1 in E1'. injection E1' as <-.
    rewrite E2 in E2'. injection E2' as <-.
    repeat split; auto; lia.
Qed.

Lemma demo_push : handleMove 1 0 demoLevel = Ok demoPushed.
Proof. reflexivity. Qed.

Lemma handleMove_frame_witness :
  (forall x y, (x, y) <> (3, 2) -> (x, y) <> (4, 2) ->
     cell (grid demoPushed) x y = cell (grid demoLevel) x y) /\
  map length (grid demoPushed) = map length (grid demoLevel) /\
  ((px demoPushed, py demoPushed) = (2, 2) \/
   (px demoPushed, py demoPushed) = (3, 2)) /\
  Z.abs (px demoPushed - 2) + Z.abs (py demoPushed - 2) <= 1 /\
  w demoPushed = 6 /\ h demoPushed = 4 /\
  zfactor demoPushed = zfactor demoLevel /\
  sx demoPushed = sx demoLevel /\ sy demoPushed = sy demoLevel.
Proof. exact (handleMove_frame 1 0 demoLevel demoPushed demo_push). Defined.

(** C9. A move attempt keeps the number of boxes: the count of Box cells
    plus the count of PlacedBox cells is the same before and after
    [handleMove], whether it steps, pushes or rejects. *)
Theorem handleMove_preserves_boxes (dx dy : Z) (l l' : Level) :
  handleMove dx dy l = Ok l' -> boxes (grid l') = boxes (grid l).
Proof.
  intros H1. apply handleMove_inv in H1. destruct H1 as [Hm _].
  destruct Hm as [| |t b g1 g2 Ht Hbox Hb Hfree E1 E2]; simpl;
    [reflexivity..|].
  assert (Hb1 : cell g1 (px l + 2 * dx) (py l + 2 * dy) = Ok b).
  { destruct (setCell_spec _ _ _ t (leftBehind t) Ht) as (g & E & _ & F & _).
    rewrite E1 in E. injection E as <-. rewrite F; [assumption|].
    intros Heq. injection Heq as Q1 Q2. rewrite Q1, Q2 in Hb.
    rewrite Ht in Hb. injection Hb as <-.
    exact (isBox_not_isFree t Hbox Hfree). }
  pose proof (countTile_setCell BOX _ _ _ _ _ _ Ht E1) as A1.
  pose proof (countTile_setCell PLACED_BOX _ _ _ _ _ _ Ht E1) as A2.
  pose proof (countTile_setCell BOX _ _ _ _ _ _ Hb1 E2) as A3.
  pose proof (countTile_setCell PLACED_BOX _ _ _ _ _ _ Hb1 E2) as A4.
  unfold boxes.
  destruct Hbox as [->| ->], Hfree as [->| ->];
    vm_compute oneIf in A1, A2, A3, A4; lia.
Qed.

Lemma handleMove_preserves_boxes_witness :
  boxes (grid demoPushed) = boxes (grid demoLevel).
Proof. exact (handleMove_preserves_boxes 1 0 demoLevel demoPushed demo_push). Defined.

(** ** Rejected moves *)

Lemma handleMove_wall (l : Level) (dx dy : Z) :
  cell (grid l) (px l + dx) (py l + dy) = Ok WALL -> handleMove dx dy l = Ok l.
Proof. intros H1. unfold handleMove. rewrite H1. reflexivity. Qed.

Lemma handleMove_blocked (l : Level) (dx dy t b : Z) :
  cell (grid l) (px l + dx) (py l + dy) = Ok t -> isBox t ->
  cell (grid l) (px l + 2 * dx) (py l + 2 * dy) = Ok b ->
  b = WALL \/ isBox b ->
  handleMove dx dy l = Ok l.
Proof.
  intros Ht Hbox Hb Hblock. unfold handleMove. rewrite Ht. simpl.
  destruct (isBox_tests t Hbox) as [T1 T2]. rewrite T1, T2.
  rewrite Hb. simpl.
  destruct Hblock as [->|[->| ->]]; reflexivity.
Qed.

Lemma handleMove_target_outside (l : Level) (dx dy : Z) :
  cell (grid l) (px l + dx) (py l + dy) = Panic -> handleMove dx dy l = Panic.
Proof. intros H1. unfold handleMove. rewrite H1. reflexivity. Qed.

Lemma handleMove_beyond_outside (l : Level) (dx dy t : Z) :
  cell (grid l) (px l + dx) (py l + dy) = Ok t -> isBox t ->
  cell (grid l) (px l + 2 * dx) (py l + 2 * dy) = Panic ->
  handleMove dx dy l = Panic.
Proof.
  intros Ht Hbox Hb. unfold handleMove. rewrite Ht. simpl.
  destruct (isBox_tests t Hbox) as [T1 T2]. rewrite T1, T2.
  rewrite Hb. reflexivity.
Qed.

(** C4, as the code has it. In a level whose grid has [w] columns of [h]
    cells: when the target cell is a Wall, or holds a Box or PlacedBox while
    the cell beyond it is inside the grid and holds a Wall, Box or PlacedBox,
    the arrow block leaves grid and player position as they were, appends the
    direction to the history and sets the facing; when the target cell lies
    outside the grid, or holds a box while the cell beyond lies outside, the
    block panics on the slice access. *)
Theorem arrow_rejected (sprite dir dx dy : Z) (s : Session) :
  wellShaped (curLev s) ->
  let l := curLev s in
  let tx := px l + dx in let ty := py l + dy in
  let bx := px l + 2 * dx in let by_ := py l + 2 * dy in
  ((cell (grid l) tx ty = Ok WALL \/
    (exists t b, cell (grid l) tx ty = Ok t /\ isBox t /\
                 cell (grid l) bx by_ = Ok b /\ (b = WALL \/ isBox b))) ->
   arrow sprite dir dx dy s = Ok (rejected sprite dir s)) /\
  ((~ inGrid l tx ty \/
    (exists t, cell (grid l) tx ty = Ok t /\ isBox t /\ ~ inGrid l bx by_)) ->
   arrow sprite dir dx dy s = Panic).
Proof.
  intros Hs l tx ty bx by_. unfold arrow, rejected. fold l.
  assert (Hs' : wellShaped (setSprite l sprite)) by exact Hs.
  split.
  - intros [Hw|(t & b & Ht & Hbox & Hb & Hblock)].
    + rewrite (handleMove_wall (setSprite l sprite) dx dy Hw). reflexivity.
    + rewrite (handleMove_blocked (setSprite l sprite) dx dy t b);
        auto.
  - intros [Hout|(t & Ht & Hbox & Hout)].
    + rewrite (handleMove_target_outside (setSprite l sprite) dx dy);
        [reflexivity|].
      apply (cell_outside (setSprite l sprite)); assumption.
    + rewrite (handleMove_beyond_outside (setSprite l sprite) dx dy t);
        auto.
      apply (cell_outside (setSprite l sprite)); assumption.
Qed.

Lemma demoLevel_wellShaped : wellShaped demoLevel.
Proof.
  split; [vm_compute; discriminate|]. split; [vm_compute; discriminate|].
  split; [reflexivity|]. repeat constructor.
Qed.

Lemma edgeLevel_wellShaped : wellShaped edgeLevel.
Proof.
  split; [vm_compute; discriminate|]. split; [vm_compute; discriminate|].
  split; [reflexivity|]. repeat constructor.
Qed.

Lemma edgeLevel_decoded : decompressLevel edgeBuffer = Ok edgeLevel.
Proof. reflexivity. Qed.

Lemma arrow_rejected_witness :
  (moveDown (mkSession [RIGHT] 0 demoLevel)
   = Ok (mkSession [RIGHT; DOWN] 0 (setSprite demoLevel PLAYERDN))) /\
  moveRight (mkSession [] 0 edgeLevel) = Panic.
Proof.
  split.
  - apply (arrow_rejected PLAYERDN DOWN 0 1 (mkSession [RIGHT] 0 demoLevel)
             demoLevel_wellShaped).
    left. reflexivity.
  - apply (arrow_rejected PLAYERRI RIGHT 1 0 (mkSession [] 0 edgeLevel)
             edgeLevel_wellShaped).
    left. unfold inGrid. vm_compute. intros [[_ H1] _]. discriminate.
Defined.

(** C4 as stated fails where the target lies outside the grid: on the
    one-cell level the player stands at (0,0), the cell to the right is
    outside, and the arrow block panics instead of returning the rejected
    state. *)
Lemma out_of_bounds_move_panics :
  decompressLevel edgeBuffer = Ok edgeLevel /\
  ~ inGrid edgeLevel (px edgeLevel + 1) (py edgeLevel + 0) /\
  moveRight (mkSession [] 0 edgeLevel) = Panic /\
  moveRight (mkSession [] 0 edgeLevel)
    <> Ok (rejected PLAYERRI RIGHT (mkSession [] 0 edgeLevel)).
Proof.
  split; [reflexivity|]. split; [|split; [reflexivity|discriminate]].
  unfold inGrid. vm_compute. intros [[_ H1] _]. discriminate.
Qed.

(** ** Reading one run *)

Lemma at_app {A : Type} (pre s : list A) (k : nat) :
  at_ (pre ++ s) (length pre + k) = at_ s k.
Proof.
  unfold at_. rewrite lookup_app_r by lia.
  replace (length pre + k - length pre)%nat with k by lia. reflexivity.
Qed.

Lemma at_app0 {A : Type} (pre s : list A) :
  at_ (pre ++ s) (length pre) = at_ s 0.
Proof. rewrite <- (at_app pre s 0). f_equal. lia. Qed.

Lemma at_Ok {A : Type} (s : list A) (i : nat) (a : A) :
  at_ s i = Ok a -> (i < length s)%nat.
Proof.
  unfold at_. destruct (s !! i) eqn:E; [|discriminate].
  intros _. eapply lookup_lt_Some. eassumption.
Qed.

Lemma at_not_OutOfFuel {A : Type} (s : list A) (i : nat) : at_ s i <> OutOfFuel.
Proof. unfold at_. destruct (s !! i); discriminate. Qed.

Lemma readCounter_header (pre rest : list bool) (hd : header) :
  readCounter (pre ++ headerBits hd ++ rest) (length pre)
  = Ok (runLength hd, (length pre + length (headerBits hd))%nat).
Proof.
  unfold readCounter.
  rewrite at_app0, ?at_app.
  destruct hd as [|[] [] []]; simpl; repeat f_equal; lia.
Qed.

Lemma readObject_tile (pre rest : list bool) (t : tile) :
  readObject (pre ++ tileBits t ++ rest) (length pre)
  = Ok (tileByte t, (length pre + length (tileBits t))%nat).
Proof.
  unfold readObject.
  rewrite at_app0, ?at_app.
  destruct t; simpl; repeat f_equal; lia.
Qed.

Lemma runLength_range (hd : header) : (1 <= runLength hd <= 9)%nat.
Proof. destruct hd as [|[] [] []]; simpl; lia. Qed.

Lemma runLength_Multi_range (d3 d2 d1 : bool) :
  (2 <= runLength (Multi d3 d2 d1) <= 9)%nat.
Proof. destruct d3, d2, d1; simpl; lia. Qed.

(** A successful read consumes bits that exist. *)
Lemma readCounter_Ok (bits : list bool) (i c i1 : nat) :
  readCounter bits i = Ok (c, i1) ->
  (i < i1 <= length bits /\ 1 <= c <= 9)%nat.
Proof.
  unfold readCounter.
  destruct (at_ bits i) as [b0| |] eqn:E0; simpl; try discriminate.
  apply at_Ok in E0. destruct b0; simpl.
  - destruct (at_ bits (i + 1)) as [d3| |] eqn:E1; simpl; try discriminate.
    destruct (at_ bits (i + 2)) as [d2| |] eqn:E2; simpl; try discriminate.
    destruct (at_ bits (i + 3)) as [d1| |] eqn:E3; simpl; try discriminate.
    apply at_Ok in E3. intros H1. injection H1 as <- <-.
    destruct d3, d2, d1; simpl; lia.
  - intros H1. injection H1 as <- <-. lia.
Qed.

Lemma readObject_Ok (bits : list bool) (i i2 : nat) (t : Z) :
  readObject bits i = Ok (t, i2) -> (i + 2 <= i2 <= length bits)%nat.
Proof.
  unfold readObject.
  destruct (at_ bits i) as [b0| |] eqn:E0; simpl; try discriminate.
  destruct b0; simpl.
  - destruct (at_ bits (i + 1)) as [b1| |] eqn:E1; simpl; try discriminate.
    apply at_Ok in E1. destruct b1; simpl.
    + destruct (at_ bits (i + 2)) as [b2| |] eqn:E2; simpl; try discriminate.
      apply at_Ok in E2. intros H1. injection H1 as <- <-. lia.
    + intros H1. injection H1 as <- <-. lia.
  - destruct (at_ bits (i + 1)) as [b1| |] eqn:E1; simpl; try discriminate.
    apply at_Ok in E1. intros H1. injection H1 as <- <-. lia.
Qed.

Lemma readCounter_not_OutOfFuel (bits : list bool) (i : nat) :
  readCounter bits i <> OutOfFuel.
Proof.
  unfold readCounter.
  destruct (at_ bits i) as [b0| |] eqn:E0; simpl; try discriminate.
  - destruct b0; simpl; [|discriminate].
    destruct (at_ bits (i + 1)) as [d3| |] eqn:E1; simpl; try discriminate.
    + destruct (at_ bits (i + 2)) as [d2| |] eqn:E2; simpl; try discriminate.
      * destruct (at_ bits (i + 3)) as [d1| |] eqn:E3; simpl; try discriminate.
        exfalso. exact (at_not_OutOfFuel _ _ E3).
      * exfalso. exact (at_not_OutOfFuel _ _ E2).
    + exfalso. exact (at_not_OutOfFuel _ _ E1).
  - exfalso. exact (at_not_OutOfFuel _ _ E0).
Qed.

Lemma readObject_not_OutOfFuel (bits : list bool) (i : nat) :
  readObject bits i <> OutOfFuel.
Proof.
  unfold readObject.
  destruct (at_ bits i) as [b0| |] eqn:E0; simpl; try discriminate;
    [|exfalso; exact (at_not_OutOfFuel _ _ E0)].
  destruct (at_ bits (i + 1)) as [b1| |] eqn:E1;
    [| |exfalso; exact (at_not_OutOfFuel _ _ E1)].
  - destruct b0, b1; simpl; try discriminate.
    destruct (at_ bits (i + 2)) as [b2| |] eqn:E2; simpl; try discriminate.
    exfalso. exact (at_not_OutOfFuel _ _ E2).
  - destruct b0; simpl; discriminate.
Qed.

(** ** The decode loop *)

Lemma total_cons (r : run) (rs : list run) :
  total (r :: rs) = (runLength (fst r) + total rs)%nat.
Proof.
  unfold total, emitAll. simpl. rewrite length_app. unfold emit.
  rewrite length_replicate. reflexivity.
Qed.

Lemma total_app (rs1 rs2 : list run) :
  total (rs1 ++ rs2) = (total rs1 + total rs2)%nat.
Proof.
  induction rs1 as [|r rs1 IH]; [reflexivity|].
  simpl. rewrite !total_cons, IH. lia.
Qed.

Lemma total_pos (rs : list run) : rs <> [] -> (0 < total rs)%nat.
Proof.
  destruct rs as [|r rs]; [congruence|]. intros _. rewrite total_cons.
  pose proof (runLength_range (fst r)). lia.
Qed.

(** While no proper prefix of the runs reaches [n] tiles, the loop reads the
    runs one per iteration. *)
Lemma decodeLoop_steps (rs : list run) :
  forall (pre rest : list bool) (flat : list Z) (fuel : nat) (n : Z),
    (forall rs1 rs2, rs = rs1 ++ rs2 -> rs2 <> [] ->
       Z.of_nat (length flat + total rs1) <> n) ->
    decodeLoop (length rs + fuel) (pre ++ runsBits rs ++ rest) n (length pre) flat
    = decodeLoop fuel (pre ++ runsBits rs ++ rest) n
        (length pre + length (runsBits rs)) (flat ++ emitAll rs).
Proof.
  induction rs as [|[hd t] rs IH]; intros pre rest flat fuel n Hpre.
  - simpl. rewrite Nat.add_0_r, app_nil_r. reflexivity.
  - assert (Hflat : Z.of_nat (length flat) <> n).
    { specialize (Hpre [] ((hd, t) :: rs) eq_refl).
      unfold total in Hpre. simpl in Hpre. rewrite Nat.add_0_r in Hpre.
      apply Hpre. discriminate. }
    change (length ((hd, t) :: rs) + fuel)%nat with (S (length rs + fuel)).
    cbn [decodeLoop]. apply Z.eqb_neq in Hflat. rewrite Hflat.
    assert (Ebits : forall tl : list bool,
      pre ++ runsBits ((hd, t) :: rs) ++ tl
      = (pre ++ headerBits hd) ++ tileBits t ++ runsBits rs ++ tl).
    { intros tl. unfold runsBits. simpl. unfold runBits. simpl.
      rewrite <- !app_assoc. reflexivity. }
    rewrite Ebits at 1.
    rewrite <- (app_assoc pre (headerBits hd)) at 1.
    rewrite readCounter_header. simpl.
    rewrite Ebits at 1.
    replace (length pre + length (headerBits hd))%nat
      with (length (pre ++ headerBits hd)) by (rewrite length_app; reflexivity).
    rewrite readObject_tile. simpl.
    rewrite Ebits.
    replace ((pre ++ headerBits hd) ++ tileBits t ++ runsBits rs ++ rest)
      with ((pre ++ runBits (hd, t)) ++ runsBits rs ++ rest)
      by (unfold runBits; simpl; rewrite <- !app_assoc; reflexivity).
    replace (length (pre ++ headerBits hd) + length (tileBits t))%nat
      with (length (pre ++ runBits (hd, t)))
      by (unfold runBits; simpl; rewrite !length_app; lia).
    rewrite (IH (pre ++ runBits (hd, t)) rest
               (flat ++ replicate (runLength hd) (tileByte t)) fuel n).
    + f_equal.
      * unfold runsBits. simpl. rewrite !length_app. lia.
      * unfold emitAll. simpl. unfold emit. simpl.
        rewrite <- app_assoc. reflexivity.
    + intros rs1 rs2 E Hne.
      specialize (Hpre ((hd, t) :: rs1) rs2).
      rewrite total_cons in Hpre. simpl in Hpre.
      rewrite length_app, length_replicate.
      replace (length flat + runLength hd + total rs1)%nat
        with (length flat + (runLength hd + total rs1))%nat by lia.
      apply Hpre; [rewrite E; reflexivity | assumption].
Qed.

(** When the loop returns, it returns the tiles emitted so far followed by
    more tiles, [n] in all: the count test is the only exit. *)
Lemma decodeLoop_exit (fuel : nat) :
  forall (bits : list bool) (n : Z) (i : nat) (flat g : list Z),
    decodeLoop fuel bits n i flat = Ok g ->
    Z.of_nat (length g) = n /\ exists more, g = flat ++ more.
Proof.
  induction fuel as [|fuel IH]; intros bits n i flat g; cbn [decodeLoop];
    destruct (Z.eqb_spec (Z.of_nat (length flat)) n) as [E|E].
  - intros H1. injection H1 as <-. split; [assumption|].
    exists []. rewrite app_nil_r. reflexivity.
  - discriminate.
  - intros H1. injection H1 as <-. split; [assumption|].
    exists []. rewrite app_nil_r. reflexivity.
  - destruct (readCounter bits i) as [[c i1]| |]; simpl; try discriminate.
    destruct (readObject bits i1) as [[t i2]| |]; simpl; try discriminate.
    intros H1. apply IH in H1. destruct H1 as [H1 [more ->]].
    split; [assumption|]. rewrite <- app_assoc. eauto.
Qed.

(** The loop cannot run for ever: every iteration reads bits that exist and
    moves the index forward. *)
Lemma decodeLoop_total (fuel : nat) :
  forall (bits : list bool) (n : Z) (i : nat) (flat : list Z),
    (i <= length bits)%nat -> (length bits - i < fuel)%nat ->
    decodeLoop fuel bits n i flat <> OutOfFuel.
Proof.
  induction fuel as [|fuel IH]; intros bits n i flat Hi Hfuel; [lia|].
  cbn [decodeLoop].
  destruct (Z.of_nat (length flat) =? n); [discriminate|].
  destruct (readCounter bits i) as [[c i1]| |] eqn:E1; simpl;
    [|discriminate|exfalso; exact (readCounter_not_OutOfFuel _ _ E1)].
  destruct (readObject bits i1) as [[t i2]| |] eqn:E2; simpl;
    [|discriminate|exfalso; exact (readObject_not_OutOfFuel _ _ E2)].
  apply readCounter_Ok in E1. apply readObject_Ok in E2.
  apply IH; lia.
Qed.

(** More fuel does not change a result. *)
Lemma decodeLoop_fuel (fuel : nat) :
  forall (extra : nat) (bits : list bool) (n : Z) (i : nat) (flat : list Z),
    decodeLoop fuel bits n i flat <> OutOfFuel ->
    decodeLoop (fuel + extra) bits n i flat = decodeLoop fuel bits n i flat.
Proof.
  induction fuel as [|fuel IH]; intros extra bits n i flat.
  - cbn [decodeLoop]. destruct extra as [|extra]; [reflexivity|].
    simpl. destruct (Z.of_nat (length flat) =? n); congruence.
  - simpl. destruct (Z.of_nat (length flat) =? n); [reflexivity|].
    destruct (readCounter bits i) as [[c i1]| |]; simpl; try reflexivity.
    destruct (readObject bits i1) as [[t i2]| |]; simpl; try reflexivity.
    apply IH.
Qed.

(** Once more than [n] tiles are emitted the loop never returns a grid. *)
Lemma decodeLoop_overshoot (fuel : nat) (bits : list bool) (n : Z) (i : nat)
    (flat : list Z) :
  n < Z.of_nat (length flat) ->
  forall g, decodeLoop fuel bits n i flat <> Ok g.
Proof.
  intros Hover g H1. apply decodeLoop_exit in H1.
  destruct H1 as [H1 [more ->]]. rewrite length_app in H1. lia.
Qed.

Example decompress_level2x2 :
  (l ← decompressLevel level2x2; Ok (w l, h l, px l, py l, grid l))
  = Ok (2, 2, 1, 1, [[WALL; EMPTY]; [EMPTY; WALL]]).
Proof. vm_compute. reflexivity. Qed.

Lemma decodeLoop_done (fuel : nat) (bits : list bool) (n : Z) (i : nat)
    (flat : list Z) :
  Z.of_nat (length flat) = n -> decodeLoop fuel bits n i flat = Ok flat.
Proof.
  intros E. apply Z.eqb_eq in E. destruct fuel; cbn [decodeLoop]; rewrite E;
    reflexivity.
Qed.

Lemma runsBits_length (rs : list run) : (length rs <= length (runsBits rs))%nat.
Proof.
  induction rs as [|[hd t] rs IH]; [reflexivity|].
  unfold runsBits in *. simpl. rewrite !length_app.
  destruct hd; simpl; lia.
Qed.

Lemma proper_prefix_total (rs rs1 rs2 : list run) :
  rs = rs1 ++ rs2 -> rs2 <> [] -> (total rs1 < total rs)%nat.
Proof.
  intros -> Hne. rewrite total_app. pose proof (total_pos rs2 Hne). lia.
Qed.

(** Runs that stand for exactly [n] tiles are read to the end, whatever
    follows them in the stream. *)
Lemma decodeLoop_exact (rs : list run) (rest : list bool) (n : Z) (fuel : nat) :
  Z.of_nat (total rs) = n -> (length rs <= fuel)%nat ->
  decodeLoop fuel (runsBits rs ++ rest) n 0 [] = Ok (emitAll rs).
Proof.
  intros Hn Hfuel.
  replace fuel with (length rs + (fuel - length rs))%nat by lia.
  pose proof (decodeLoop_steps rs [] rest [] (fuel - length rs) n) as Hsteps.
  cbn [app length Nat.add] in Hsteps. rewrite Hsteps.
  - apply decodeLoop_done. exact Hn.
  - intros rs1 rs2 E Hne. pose proof (proper_prefix_total rs rs1 rs2 E Hne).
    simpl. lia.
Qed.

(** Runs of which the last one steps over [n] tiles leave the loop reading
    until the bits run out. *)
Lemma decodeLoop_overshoot_panics (rs : list run) (r : run) (rest : list bool)
    (n : Z) (fuel : nat) :
  Z.of_nat (total rs) < n < Z.of_nat (total (rs ++ [r])) ->
  let bits := runsBits (rs ++ [r]) ++ rest in
  (length bits < fuel)%nat ->
  decodeLoop fuel bits n 0 [] = Panic.
Proof.
  intros Hn bits Hfuel.
  destruct (decodeLoop fuel bits n 0 []) as [g| |] eqn:E.
  - exfalso.
    pose proof (runsBits_length (rs ++ [r])) as Hlen.
    assert (Hb : (length (runsBits (rs ++ [r])) <= length bits)%nat).
    { unfold bits. rewrite length_app. lia. }
    replace fuel with (length (rs ++ [r]) + (fuel - length (rs ++ [r])))%nat
      in E by lia.
    unfold bits in E.
    pose proof (decodeLoop_steps (rs ++ [r]) [] rest []
                  (fuel - length (rs ++ [r])) n) as Hsteps.
    cbn [app length Nat.add] in Hsteps. rewrite Hsteps in E.
    + revert E. apply decodeLoop_overshoot. simpl. fold (total (rs ++ [r])). lia.
    + intros rs1 rs2 E' Hne. simpl.
      assert (Hlt : (total rs1 <= total rs)%nat).
      { destruct rs2 as [|r2 rs2 _] using rev_ind; [congruence|].
        rewrite app_assoc in E'. apply app_inj_tail in E'. destruct E' as [-> _].
        rewrite total_app. lia. }
      lia.
  - reflexivity.
  - exfalso. revert E. apply decodeLoop_total; lia.
Qed.



(** ** The bitstream of a buffer *)

Lemma land_pow2_testbit (b j : Z) :
  0 <= j -> (0 <? Z.land b (Z.shiftl 1 j)) = Z.testbit b j.
Proof.
  intros Hj. rewrite Z.shiftl_1_l.
  destruct (Z.testbit b j) eqn:E.
  - assert (H1 : Z.land b (2 ^ j) = 2 ^ j).
    { apply Z.bits_inj'. intros k Hk. rewrite Z.land_spec.
      rewrite Z.pow2_bits_eqb by assumption.
      destruct (Z.eqb_spec j k) as [->|Hne].
      - rewrite E. reflexivity.
      - apply andb_false_r. }
    rewrite H1. apply Z.ltb_lt. apply Z.pow_pos_nonneg; lia.
  - assert (H1 : Z.land b (2 ^ j) = 0).
    { apply Z.bits_inj'. intros k Hk. rewrite Z.land_spec, Z.bits_0.
      rewrite Z.pow2_bits_eqb by assumption.
      destruct (Z.eqb_spec j k) as [->|Hne].
      - rewrite E. reflexivity.
      - apply andb_false_r. }
    rewrite H1. reflexivity.
Qed.

(** Most significant bit first. *)
Lemma byteBits_testbit (b : Z) :
  byteBits b = map (Z.testbit b) [7; 6; 5; 4; 3; 2; 1; 0].
Proof.
  unfold byteBits. cbn [map]. rewrite !land_pow2_testbit by lia. reflexivity.
Qed.

Lemma byteBits_lookup (b : Z) (j : nat) :
  (j < 8)%nat -> byteBits b !! j = Some (Z.testbit b (7 - Z.of_nat j)).
Proof.
  intros Hj. rewrite byteBits_testbit.
  do 8 (destruct j as [|j]; [reflexivity|]). lia.
Qed.

Lemma byteBits_length (b : Z) : length (byteBits b) = 8%nat.
Proof. reflexivity. Qed.

Lemma flat_map_byteBits_length (bs : list Z) :
  length (flat_map byteBits bs) = (8 * length bs)%nat.
Proof.
  induction bs as [|b bs IH]; [reflexivity|].
  cbn [flat_map]. rewrite length_app, byteBits_length, IH. simpl. lia.
Qed.

Lemma flat_map_byteBits_lookup (bs : list Z) :
  forall (m j : nat) (b : Z),
    bs !! m = Some b -> (j < 8)%nat ->
    flat_map byteBits bs !! (8 * m + j)%nat
    = Some (Z.testbit b (7 - Z.of_nat j)).
Proof.
  induction bs as [|b0 bs IH]; intros m j b Hm Hj; [discriminate|].
  cbn [flat_map]. destruct m as [|m].
  - injection Hm as ->. rewrite lookup_app_l by (rewrite byteBits_length; lia).
    replace (8 * 0 + j)%nat with j by lia. apply byteBits_lookup. assumption.
  - simpl in Hm. rewrite lookup_app_r by (rewrite byteBits_length; lia).
    rewrite byteBits_length.
    replace (8 * S m + j - 8)%nat with (8 * m + j)%nat by lia.
    apply IH; assumption.
Qed.

Lemma body_lookup (level : list Z) (m : nat) :
  (m + 4 <= length level - 1)%nat ->
  body level !! m = level !! (2 + m)%nat.
Proof.
  intros Hm. unfold body. rewrite lookup_take_lt by lia.
  rewrite lookup_drop. reflexivity.
Qed.

Lemma body_length (level : list Z) :
  length (body level) = (length level - 4)%nat.
Proof. unfold body. rewrite length_take, length_drop. lia. Qed.

(** ** The conversion to a 2d array *)

Lemma mapR_map {A B : Type} (f : A -> result B) (g : A -> B) (l : list A) :
  (forall a, a ∈ l -> f a = Ok (g a)) -> mapR f l = Ok (map g l).
Proof.
  induction l as [|a l IH]; intros Hf; [reflexivity|].
  cbn [mapR map]. rewrite (Hf a) by (left). simpl.
  rewrite IH; [reflexivity|]. intros a' Ha'. apply Hf. right. assumption.
Qed.

Lemma elem_of_upto (n a : Z) : a ∈ upto n -> 0 <= a < n.
Proof.
  unfold upto. intros H1. apply list_elem_of_In in H1.
  apply in_map_iff in H1. destruct H1 as (k & <- & Hk).
  apply in_seq in Hk. lia.
Qed.

Lemma upto_lookup (n a : Z) :
  0 <= a < n -> upto n !! Z.to_nat a = Some a.
Proof.
  intros Ha. unfold upto.
  change (map Z.of_nat (seq 0 (Z.to_nat n))) with (Z.of_nat <$> seq 0 (Z.to_nat n)).
  rewrite list_lookup_fmap, lookup_seq_lt by lia. simpl. f_equal. lia.
Qed.

Lemma upto_length (n : Z) : length (upto n) = Z.to_nat n.
Proof. unfold upto. rewrite length_map, length_seq. reflexivity. Qed.

Lemma index_nth (s : list Z) (i : Z) :
  0 <= i < Z.of_nat (length s) -> index s i = Ok (nth (Z.to_nat i) s 0).
Proof.
  intros Hi. apply index_Ok. split; [lia|].
  destruct (s !! Z.to_nat i) as [a|] eqn:E.
  - rewrite (nth_lookup_Some s (Z.to_nat i) 0 a E). reflexivity.
  - apply lookup_ge_None in E. lia.
Qed.

Lemma toGrid2_Ok (flat : list Z) (lw lh : Z) :
  Z.of_nat (length flat) = lw * lh ->
  toGrid2 flat lw lh = Ok (grid2Of flat lw lh).
Proof.
  intros Hlen. unfold toGrid2, grid2Of. apply mapR_map.
  intros x Hx. apply elem_of_upto in Hx.
  unfold gridColumn. apply mapR_map.
  intros y Hy. apply elem_of_upto in Hy.
  apply index_nth. nia.
Qed.

Lemma grid2Of_cell (flat : list Z) (lw lh x y : Z) :
  Z.of_nat (length flat) = lw * lh ->
  0 <= x < lw -> 0 <= y < lh ->
  cell (grid2Of flat lw lh) x y = index flat (y * lw + x).
Proof.
  intros Hlen Hx Hy. rewrite index_nth by nia.
  apply cell_Ok. split; [lia|]. split; [lia|].
  eexists. split.
  - unfold grid2Of.
    change (map ?f (upto lw)) with (f <$> upto lw).
    rewrite list_lookup_fmap, upto_lookup by assumption. reflexivity.
  - simpl. change (map ?f (upto lh)) with (f <$> upto lh).
    rewrite list_lookup_fmap, upto_lookup by assumption. reflexivity.
Qed.

Lemma grid2Of_shape (flat : list Z) (lw lh : Z) :
  length (grid2Of flat lw lh) = Z.to_nat lw /\
  Forall (fun col => length col = Z.to_nat lh) (grid2Of flat lw lh).
Proof.
  unfold grid2Of. split.
  - rewrite length_map. apply upto_length.
  - apply Forall_forall. intros col Hcol. apply list_elem_of_In in Hcol.
    apply in_map_iff in Hcol. destruct Hcol as (x & <- & _).
    rewrite length_map. apply upto_length.
Qed.

(** ** decompressLevel *)

Arguments decodeLoop : simpl never.

Lemma mapR_not_OutOfFuel {A B : Type} (f : A -> result B) (l : list A) :
  (forall a, f a <> OutOfFuel) -> mapR f l <> OutOfFuel.
Proof.
  intros Hf. induction l as [|a l IH]; [discriminate|].
  cbn [mapR]. destruct (f a) as [b| |] eqn:E; simpl;
    [|discriminate|exfalso; exact (Hf a E)].
  destruct (mapR f l); simpl; [discriminate..|congruence].
Qed.

Lemma toGrid2_not_OutOfFuel (flat : list Z) (lw lh : Z) :
  toGrid2 flat lw lh <> OutOfFuel.
Proof.
  apply mapR_not_OutOfFuel. intros x. apply mapR_not_OutOfFuel.
  intros y. apply index_not_OutOfFuel.
Qed.

(** What a returned level is made of. *)
Lemma decompressLevelFuel_inv (fuel : nat) (level : list Z) (l : Level) :
  decompressLevelFuel fuel level = Ok l ->
  exists flat,
    index level 0 = Ok (w l) /\ index level 1 = Ok (h l) /\
    index level (Z.of_nat (length level) - 2) = Ok (px l) /\
    index level (Z.of_nat (length level) - 1) = Ok (py l) /\
    decodeLoop fuel (levelBits level) (w l * h l) 0 [] = Ok flat /\
    Z.of_nat (length flat) = w l * h l /\
    l = levelOf (w l) (h l) (px l) (py l) flat.
Proof.
  unfold decompressLevelFuel.
  destruct (index level 0) as [lw| |]; simpl; try discriminate.
  destruct (index level 1) as [lh| |]; simpl; try discriminate.
  destruct (index level (Z.of_nat (length level) - 2)) as [lpx| |]; simpl;
    try discriminate.
  destruct (index level (Z.of_nat (length level) - 1)) as [lpy| |]; simpl;
    try discriminate.
  destruct (decodeLoop fuel (levelBits level) (lw * lh) 0 []) as [flat| |] eqn:E;
    simpl; try discriminate.
  pose proof (decodeLoop_exit _ _ _ _ _ _ E) as [Hlen _].
  rewrite (toGrid2_Ok flat lw lh Hlen). simpl.
  destruct (screenSpecifics lw lh) as [[f x] y] eqn:Es.
  intros H1. injection H1 as <-. simpl. exists flat.
  unfold levelOf. rewrite Es. auto 10.
Qed.

(** The fuel that [decompressLevel] passes is enough: the result is a level
    or a panic, and any larger amount gives the same. *)
Lemma decompressLevel_fuel (level : list Z) :
  decompressLevel level <> OutOfFuel /\
  forall extra,
    decompressLevelFuel (S (length (levelBits level)) + extra) level
    = decompressLevel level.
Proof.
  unfold decompressLevel, decompressLevelFuel.
  pose proof (fun n => decodeLoop_total (S (length (levelBits level)))
                (levelBits level) n 0 [] ltac:(lia) ltac:(lia)) as Htot.
  split.
  - destruct (index level 0) as [lw| |] eqn:E0; simpl;
      [|discriminate|exfalso; exact (index_not_OutOfFuel _ _ E0)].
    destruct (index level 1) as [lh| |] eqn:E1; simpl;
      [|discriminate|exfalso; exact (index_not_OutOfFuel _ _ E1)].
    destruct (index level (Z.of_nat (length level) - 2)) as [lpx| |] eqn:E2;
      simpl; [|discriminate|exfalso; exact (index_not_OutOfFuel _ _ E2)].
    destruct (index level (Z.of_nat (length level) - 1)) as [lpy| |] eqn:E3;
      simpl; [|discriminate|exfalso; exact (index_not_OutOfFuel _ _ E3)].
    destruct (decodeLoop (S (length (levelBits level))) (levelBits level)
                (lw * lh) 0 []) as [flat| |] eqn:E;
      simpl; [|discriminate|exfalso; exact (Htot _ E)].
    destruct (toGrid2 flat lw lh) as [g| |] eqn:Eg; simpl;
      [|discriminate|exfalso; exact (toGrid2_not_OutOfFuel _ _ _ Eg)].
    destruct (screenSpecifics lw lh) as [[f x] y]. discriminate.
  - intros extra.
    destruct (index level 0) as [lw| |]; simpl; try reflexivity.
    destruct (index level 1) as [lh| |]; simpl; try reflexivity.
    destruct (index level (Z.of_nat (length level) - 2)) as [lpx| |]; simpl;
      try reflexivity.
    destruct (index level (Z.of_nat (length level) - 1)) as [lpy| |]; simpl;
      try reflexivity.
    pose proof (decodeLoop_fuel (S (length (levelBits level))) extra
                  (levelBits level) (lw * lh) 0 [] (Htot _)) as Hf.
    cbn [Nat.add] in Hf. rewrite Hf. reflexivity.
Qed.

Lemma decompressLevel_encodes (level : list Z) (rs : list run) :
  encodes level rs ->
  decompressLevel level
  = Ok (levelOf (nth 0 level 0) (nth 1 level 0)
          (nth (length level - 2) level 0) (nth (length level - 1) level 0)
          (emitAll rs)).
Proof.
  intros (Hlen & Hbytes & [rest Hbits] & Htotal & _ & _).
  unfold decompressLevel, decompressLevelFuel.
  rewrite (index_nth level 0) by lia.
  rewrite (index_nth level 1) by lia.
  rewrite (index_nth level (Z.of_nat (length level) - 2)) by lia.
  rewrite (index_nth level (Z.of_nat (length level) - 1)) by lia.
  simpl.
  replace (Z.to_nat (Z.of_nat (length level) - 2)) with (length level - 2)%nat
    by lia.
  replace (Z.to_nat (Z.of_nat (length level) - 1)) with (length level - 1)%nat
    by lia.
  change (nth (Pos.to_nat 1) level 0) with (nth 1 level 0).
  rewrite Hbits.
  rewrite (decodeLoop_exact rs rest _ _ Htotal).
  - simpl. rewrite toGrid2_Ok by exact Htotal. simpl.
    unfold levelOf. destruct (screenSpecifics _ _) as [[f x] y]. reflexivity.
  - pose proof (runsBits_length rs). rewrite length_app. lia.
Qed.

Lemma levelOf_fields (lw lh lpx lpy : Z) (flat : list Z) :
  let l := levelOf lw lh lpx lpy flat in
  w l = lw /\ h l = lh /\ px l = lpx /\ py l = lpy /\ psprite l = PLAYERUP /\
  grid l = grid2Of flat lw lh.
Proof.
  unfold levelOf. destruct (screenSpecifics lw lh) as [[f x] y]. simpl. auto 10.
Qed.

(** C2. For a well-formed level buffer of length [L], the decoded level has
    its width from byte 0, its height from byte 1, the player position from
    bytes [L-2] and [L-1]; the bitstream is bytes [[2, L-2)], eight bits per
    byte, most significant bit first; and the tile decoded at flat position
    [p] is stored at [grid[p mod w][p div w]]. *)
Theorem decompressLevel_layout (level : list Z) (rs : list run) :
  encodes level rs ->
  exists l,
    decompressLevel level = Ok l /\
    index level 0 = Ok (w l) /\ index level 1 = Ok (h l) /\
    index level (Z.of_nat (length level) - 2) = Ok (px l) /\
    index level (Z.of_nat (length level) - 1) = Ok (py l) /\
    length (levelBits level) = (8 * (length level - 4))%nat /\
    (forall (m j : nat) (b : Z),
        (m < length level - 4)%nat -> (j < 8)%nat ->
        level !! (2 + m)%nat = Some b ->
        levelBits level !! (8 * m + j)%nat
        = Some (Z.testbit b (7 - Z.of_nat j))) /\
    decodeLoop (S (length (levelBits level))) (levelBits level)
      (w l * h l) 0 [] = Ok (emitAll rs) /\
    (forall p, 0 <= p < w l * h l ->
       exists t, index (emitAll rs) p = Ok t /\
                 cell (grid l) (p mod w l) (p / w l) = Ok t).
Proof.
  intros Henc. pose proof (decompressLevel_encodes level rs Henc) as Hd.
  eexists. split; [exact Hd|].
  destruct Henc as (Hlen & Hbytes & [rest Hbits] & Htotal & Hpx & Hpy).
  destruct (levelOf_fields (nth 0 level 0) (nth 1 level 0)
              (nth (length level - 2) level 0) (nth (length level - 1) level 0)
              (emitAll rs)) as (-> & -> & -> & -> & _ & ->).
  assert (Hw : 0 <= nth 0 level 0).
  { rewrite Forall_forall in Hbytes. apply Hbytes. apply list_elem_of_In.
    apply nth_In. lia. }
  split; [apply index_nth; lia|]. split; [apply index_nth; lia|].
  split.
  { rewrite index_nth by lia. repeat f_equal. lia. }
  split.
  { rewrite index_nth by lia. repeat f_equal. lia. }
  split.
  { unfold levelBits. rewrite flat_map_byteBits_length, body_length.
    reflexivity. }
  split.
  { intros m j b Hm Hj Hb. unfold levelBits.
    apply flat_map_byteBits_lookup; [|assumption].
    rewrite body_lookup by lia. assumption. }
  split.
  { rewrite Hbits. apply decodeLoop_exact; [assumption|].
    pose proof (runsBits_length rs). rewrite length_app. lia. }
  intros p Hp.
  assert (Hpos : 0 < nth 0 level 0).
  { assert (nth 0 level 0 <> 0) by (intros E0; rewrite E0 in Hp; lia). lia. }
  assert (Hx : 0 <= p mod nth 0 level 0 < nth 0 level 0)
    by (apply Z.mod_pos_bound; assumption).
  assert (Hy : 0 <= p / nth 0 level 0 < nth 1 level 0).
  { split; [apply Z.div_pos; lia|].
    apply Z.div_lt_upper_bound; [assumption|]. lia. }
  fold (total rs) in Htotal.
  rewrite grid2Of_cell by assumption.
  replace (p / nth 0 level 0 * nth 0 level 0 + p mod nth 0 level 0) with p
    by (rewrite (Z.div_mod p (nth 0 level 0)) at 1; lia).
  exists (nth (Z.to_nat p) (emitAll rs) 0).
  split; apply index_nth; unfold total in Htotal; lia.
Qed.

Lemma level2x2_encodes : encodes level2x2 runs2x2.
Proof.
  split; [simpl; lia|]. split.
  - unfold isByte. repeat constructor; discriminate.
  - split; [exists [false; false; false; false]; reflexivity|].
    split; [reflexivity|]. split; reflexivity.
Qed.

(** ** The runs of a level buffer *)

(** C1. The bitstream of a well-formed level buffer is read as its sequence
    of runs: header [0] for run length 1 or [1 d3 d2 d1] for run length
    [2 + d3*4 + d2*2 + d1] (2..9), then the tile symbol [00] Empty, [01] Wall,
    [10] Box, [110] Goal or [111] PlacedBox; the decode loop returns each
    run's tile repeated run-length times, in order, and these tiles fill the
    grid of the decoded level. *)
Theorem decode_reads_runs (level : list Z) (rs : list run) :
  encodes level rs ->
  let bits := levelBits level in
  let n := nth 0 level 0 * nth 1 level 0 in
  decodeLoop (S (length bits)) bits n 0 []
  = Ok (flat_map (fun r => replicate (runLength (fst r)) (tileByte (snd r))) rs) /\
  (exists l, decompressLevel level = Ok l /\
             grid l = grid2Of (emitAll rs) (w l) (h l)) /\
  Forall (fun r => (1 <= runLength (fst r) <= 9)%nat) rs /\
  (forall d3 d2 d1, (2 <= runLength (Multi d3 d2 d1) <= 9)%nat).
Proof.
  intros Henc bits n. split; [|split; [|split]].
  - destruct Henc as (_ & _ & [rest Hbits] & Htotal & _).
    unfold bits. rewrite Hbits.
    apply (decodeLoop_exact rs rest n); [assumption|].
    pose proof (runsBits_length rs). rewrite length_app. lia.
  - eexists. split; [apply decompressLevel_encodes; exact Henc|].
    destruct (levelOf_fields (nth 0 level 0) (nth 1 level 0)
      (nth (length level - 2) level 0) (nth (length level - 1) level 0)
      (emitAll rs)) as (-> & -> & _ & _ & _ & ->). reflexivity.
  - apply Forall_forall. intros r _. apply runLength_range.
  - apply runLength_Multi_range.
Qed.

Lemma decode_reads_runs_witness :
  decodeLoop 17 (levelBits level2x2) 4 0 [] = Ok [WALL; EMPTY; EMPTY; WALL].
Proof.
  exact (proj1 (decode_reads_runs level2x2 runs2x2 level2x2_encodes)).
Defined.


Lemma decompressLevel_layout_witness :
  exists l,
    decompressLevel level2x2 = Ok l /\
    w l = 2 /\ h l = 2 /\ px l = 1 /\ py l = 1 /\
    cell (grid l) (3 mod w l) (3 / w l) = Ok WALL.
Proof.
  destruct (decompressLevel_layout level2x2 runs2x2 level2x2_encodes)
    as (l & Hd & Hw & Hh & Hpx & Hpy & _ & _ & _ & Hcells).
  exists l. split; [exact Hd|].
  injection Hw as Hw. injection Hh as Hh. injection Hpx as Hpx.
  injection Hpy as Hpy.
  rewrite <- Hw, <- Hh, <- Hpx, <- Hpy.
  split; [reflexivity|]. split; [reflexivity|]. split; [reflexivity|].
  split; [reflexivity|].
  destruct (Hcells 3) as (t & Ht & Hc).
  - rewrite <- Hw, <- Hh. split; [discriminate | reflexivity].
  - rewrite <- Hw in Hc. rewrite Hc, <- Ht. reflexivity.
Defined.

(** ** The runs behind a returned grid *)

Lemma decodeLoop_O (bits : list bool) (n : Z) (i : nat) (flat : list Z) :
  decodeLoop 0 bits n i flat
  = if Z.of_nat (length flat) =? n then Ok flat else OutOfFuel.
Proof. reflexivity. Qed.

Lemma decodeLoop_S (fuel : nat) (bits : list bool) (n : Z) (i : nat)
    (flat : list Z) :
  decodeLoop (S fuel) bits n i flat
  = if Z.of_nat (length flat) =? n then Ok flat
    else '(counter, i1) ← readCounter bits i;
         '(object, i2) ← readObject bits i1;
         decodeLoop fuel bits n i2 (flat ++ replicate counter object).
Proof. reflexivity. Qed.

Lemma at_drop {A : Type} (s : list A) (i : nat) (a : A) :
  at_ s i = Ok a -> drop i s = a :: drop (S i) s.
Proof.
  unfold at_. destruct (s !! i) as [a'|] eqn:E; [|discriminate].
  intros H1. injection H1 as <-. apply drop_S. assumption.
Qed.

Lemma readCounter_inv (bits : list bool) (i c i1 : nat) :
  readCounter bits i = Ok (c, i1) ->
  exists hd, runLength hd = c /\ drop i bits = headerBits hd ++ drop i1 bits.
Proof.
  unfold readCounter.
  destruct (at_ bits i) as [b0| |] eqn:E0; simpl; try discriminate.
  apply at_drop in E0. destruct b0; simpl.
  - destruct (at_ bits (i + 1)) as [d3| |] eqn:E1; simpl; try discriminate.
    destruct (at_ bits (i + 2)) as [d2| |] eqn:E2; simpl; try discriminate.
    destruct (at_ bits (i + 3)) as [d1| |] eqn:E3; simpl; try discriminate.
    apply at_drop in E1, E2, E3.
    intros H1. injection H1 as <- <-. exists (Multi d3 d2 d1). split.
    + destruct d3, d2, d1; reflexivity.
    + simpl. rewrite E0.
      replace (S i) with (i + 1)%nat by lia. rewrite E1.
      replace (S (i + 1)) with (i + 2)%nat by lia. rewrite E2.
      replace (S (i + 2)) with (i + 3)%nat by lia. rewrite E3.
      repeat f_equal. lia.
  - intros H1. injection H1 as <- <-. exists Single. split; [reflexivity|].
    simpl. exact E0.
Qed.

Lemma readObject_inv (bits : list bool) (i i2 : nat) (t : Z) :
  readObject bits i = Ok (t, i2) ->
  exists tl, tileByte tl = t /\ drop i bits = tileBits tl ++ drop i2 bits.
Proof.
  unfold readObject.
  destruct (at_ bits i) as [b0| |] eqn:E0; simpl; try discriminate.
  apply at_drop in E0.
  destruct (at_ bits (i + 1)) as [b1| |] eqn:E1;
    [|destruct b0; simpl; discriminate..].
  apply at_drop in E1.
  assert (E01 : drop i bits = b0 :: b1 :: drop (i + 2) bits).
  { rewrite E0. replace (S i) with (i + 1)%nat by lia. rewrite E1.
    repeat f_equal. lia. }
  clear E0 E1.
  destruct b0, b1; simpl.
  - destruct (at_ bits (i + 2)) as [b2| |] eqn:E2; simpl; try discriminate.
    apply at_drop in E2.
    intros H1. injection H1 as <- <-.
    exists (if b2 then PlacedBox else Goal). split; [destruct b2; reflexivity|].
    rewrite E01, E2. replace (S (i + 2)) with (i + 3)%nat by lia.
    destruct b2; reflexivity.
  - intros H1. injection H1 as <- <-. exists Box. split; [reflexivity|].
    rewrite E01. reflexivity.
  - intros H1. injection H1 as <- <-. exists Wall. split; [reflexivity|].
    rewrite E01. reflexivity.
  - intros H1. injection H1 as <- <-. exists Empty. split; [reflexivity|].
    rewrite E01. reflexivity.
Qed.

(** Every grid the loop returns is the expansion of runs found in the
    stream. *)
Lemma decodeLoop_runs (fuel : nat) :
  forall (bits : list bool) (n : Z) (i : nat) (flat g : list Z),
    decodeLoop fuel bits n i flat = Ok g ->
    exists rs rest,
      drop i bits = runsBits rs ++ rest /\ g = flat ++ emitAll rs.
Proof.
  induction fuel as [|fuel IH]; intros bits n i flat g;
    rewrite ?decodeLoop_O, ?decodeLoop_S;
    destruct (Z.of_nat (length flat) =? n).
  - intros H1. injection H1 as <-. exists [], (drop i bits).
    split; [reflexivity|]. simpl. rewrite app_nil_r. reflexivity.
  - discriminate.
  - intros H1. injection H1 as <-. exists [], (drop i bits).
    split; [reflexivity|]. simpl. rewrite app_nil_r. reflexivity.
  - destruct (readCounter bits i) as [[c i1]| |] eqn:Ec; simpl; try discriminate.
    destruct (readObject bits i1) as [[t i2]| |] eqn:Eo; simpl; try discriminate.
    intros H1. apply IH in H1. destruct H1 as (rs & rest & Hdrop & ->).
    apply readCounter_inv in Ec. destruct Ec as (hd & <- & Hhd).
    apply readObject_inv in Eo. destruct Eo as (tl & <- & Htl).
    exists ((hd, tl) :: rs), rest. split.
    + rewrite Hhd, Htl, Hdrop. unfold runsBits. simpl. unfold runBits. simpl.
      rewrite <- !app_assoc. reflexivity.
    + rewrite <- app_assoc. reflexivity.
Qed.

(** ** Termination of the decode loop *)

(** C8, as the code has it. The count of emitted tiles reaching exactly
    [n = w*h] is the only way out of the decode loop with a grid: the loop
    returns a grid exactly when the bitstream starts with runs that stand for
    exactly [n] tiles, and the grid is then these [n] tiles. The loop always
    ends: with the fuel that [decompressLevel] passes (one iteration per bit,
    plus one) it never runs out, and more fuel gives the same result. So on a
    stream none of whose leading runs make the count equal [n] -- a run steps
    over [n], or the bits end before [n] is reached -- the loop ends in a
    panic on an index past the last bit. *)
Theorem decodeLoop_terminates (bits : list bool) (n : Z) :
  let fuel := S (length bits) in
  decodeLoop fuel bits n 0 [] <> OutOfFuel /\
  (forall extra,
      decodeLoop (fuel + extra) bits n 0 [] = decodeLoop fuel bits n 0 []) /\
  (forall g, decodeLoop fuel bits n 0 [] = Ok g -> Z.of_nat (length g) = n) /\
  (forall rs rest,
      bits = runsBits rs ++ rest -> Z.of_nat (total rs) = n ->
      decodeLoop fuel bits n 0 [] = Ok (emitAll rs) /\
      Z.of_nat (length (emitAll rs)) = n) /\
  (forall rs r rest,
      bits = runsBits (rs ++ [r]) ++ rest ->
      Z.of_nat (total rs) < n < Z.of_nat (total (rs ++ [r])) ->
      decodeLoop fuel bits n 0 [] = Panic) /\
  (forall g,
      decodeLoop fuel bits n 0 [] = Ok g <->
      exists rs rest,
        bits = runsBits rs ++ rest /\ Z.of_nat (total rs) = n /\
        g = emitAll rs) /\
  ((forall rs rest, bits = runsBits rs ++ rest -> Z.of_nat (total rs) <> n) ->
   decodeLoop fuel bits n 0 [] = Panic).
Proof.
  intros fuel.
  assert (Htot : decodeLoop fuel bits n 0 [] <> OutOfFuel).
  { apply decodeLoop_total; unfold fuel; lia. }
  assert (Hexact : forall rs rest,
            bits = runsBits rs ++ rest -> Z.of_nat (total rs) = n ->
            decodeLoop fuel bits n 0 [] = Ok (emitAll rs)).
  { intros rs rest -> Hn. apply decodeLoop_exact; [assumption|].
    pose proof (runsBits_length rs). unfold fuel. rewrite length_app. lia. }
  assert (Hruns : forall g, decodeLoop fuel bits n 0 [] = Ok g ->
            exists rs rest,
              bits = runsBits rs ++ rest /\ Z.of_nat (total rs) = n /\
              g = emitAll rs).
  { intros g Hg. pose proof (decodeLoop_exit _ _ _ _ _ _ Hg) as [Hlen _].
    apply decodeLoop_runs in Hg. destruct Hg as (rs & rest & Hdrop & ->).
    rewrite drop_0 in Hdrop. exists rs, rest. auto. }
  split; [exact Htot|]. split; [|split; [|split; [|split; [|split]]]].
  - intros extra. apply decodeLoop_fuel. exact Htot.
  - intros g Hg. apply decodeLoop_exit in Hg. tauto.
  - intros rs rest Hbits Hn. split; [|exact Hn]. eapply Hexact; eassumption.
  - intros rs r rest -> Hn.
    apply decodeLoop_overshoot_panics; [assumption|]. unfold fuel. lia.
  - intros g. split; [apply Hruns|].
    intros (rs & rest & Hbits & Hn & ->). eapply Hexact; eassumption.
  - intros Hnone.
    destruct (decodeLoop fuel bits n 0 []) as [g| |] eqn:E.
    + exfalso. destruct (Hruns g eq_refl) as (rs & rest & Hbits & Hn & _).
      exact (Hnone rs rest Hbits Hn).
    + reflexivity.
    + exfalso. apply Htot. reflexivity.
Qed.

Lemma decodeLoop_terminates_witness :
  decodeLoop 17 (levelBits level2x2) 4 0 [] = Ok [WALL; EMPTY; EMPTY; WALL] /\
  decodeLoop 9 (levelBits overshootBuffer) 1 0 [] = Panic /\
  decodeLoop 9 (levelBits truncatedBuffer) 4 0 [] = Panic.
Proof.
  split; [|split].
  - apply (proj1 (proj2 (proj2 (proj2
             (decodeLoop_terminates (levelBits level2x2) 4))))
             runs2x2 [false; false; false; false]).
    + reflexivity.
    + reflexivity.
  - apply (proj1 (proj2 (proj2 (proj2 (proj2
             (decodeLoop_terminates (levelBits overshootBuffer) 1)))))
             [] (Multi false false false, Empty) [false; false]).
    + reflexivity.
    + vm_compute. split; reflexivity.
  - apply (proj2 (proj2 (proj2 (proj2 (proj2 (proj2
             (decodeLoop_terminates (levelBits truncatedBuffer) 4))))))).
    intros rs rest Hbits Hn.
    assert (Hlen : (length rs <= 9)%nat).
    { pose proof (runsBits_length rs) as Hr.
      apply (f_equal (@length bool)) in Hbits. rewrite length_app in Hbits.
      change (length (levelBits truncatedBuffer)) with 8%nat in Hbits. lia. }
    pose proof (decodeLoop_exact rs rest 4 9 Hn Hlen) as Hok.
    rewrite <- Hbits in Hok. vm_compute in Hok. discriminate Hok.
Defined.

(** C8 as stated fails where a run overshoots: the first run of
    [overshootBuffer] stands for two tiles while [w*h = 1]; the loop does not
    run for ever but panics when the bit index passes the end, and so does
    [decompressLevel]. *)
Lemma overshoot_panics_not_diverges :
  levelBits overshootBuffer
    = runsBits [(Multi false false false, Empty)] ++ [false; false] /\
  1 < Z.of_nat (total [(Multi false false false, Empty)]) /\
  decodeLoop 3 (levelBits overshootBuffer) 1 0 [] = Panic /\
  ~ diverges (levelBits overshootBuffer) 1 /\
  decompressLevel overshootBuffer = Panic.
Proof.
  split; [reflexivity|]. split; [reflexivity|]. split; [reflexivity|].
  split; [|reflexivity].
  intros Hdiv. specialize (Hdiv 3%nat). discriminate.
Qed.

(** ** nBoxesLeft and the closing block *)

(** A counting loop over the indices of a slice adds up the weights of its
    elements. *)
Lemma foldR_upto_weigh {A : Type} (f : Z -> Z -> result Z) (weight : A -> Z)
    (l : list A) :
  (forall acc a x, l !! a = Some x -> f acc (Z.of_nat a) = Ok (acc + weight x)) ->
  forall (k a : nat) (acc : Z),
    (a + k)%nat = length l ->
    foldR f (map Z.of_nat (seq a k)) acc = Ok (acc + weigh weight (drop a l)).
Proof.
  intros Hf. induction k as [|k IH]; intros a acc Hlen.
  - rewrite drop_ge by lia. simpl. f_equal. lia.
  - destruct (lookup_lt_is_Some_2 l a) as [x Hx]; [lia|].
    cbn [seq map foldR]. rewrite (Hf acc a x Hx). simpl.
    rewrite IH by lia. rewrite (drop_S l x a Hx). simpl. f_equal. lia.
Qed.

Lemma weigh_count (col : list Z) :
  weigh (fun c => if c =? BOX then 1 else 0) col
  = Z.of_nat (count_occ Z.eq_dec col BOX).
Proof.
  induction col as [|c col IH]; [reflexivity|].
  unfold weigh in *. cbn [fold_right count_occ]. rewrite IH.
  destruct (Z.eqb_spec c BOX), (Z.eq_dec c BOX); try contradiction; lia.
Qed.

Lemma weigh_countTile (g : list (list Z)) :
  weigh (fun col => Z.of_nat (count_occ Z.eq_dec col BOX)) g
  = Z.of_nat (countTile BOX g).
Proof.
  unfold countTile. induction g as [|col g IH]; [reflexivity|].
  unfold weigh in *. cbn [fold_right concat]. rewrite IH, count_occ_app. lia.
Qed.

(** [nBoxesLeft] counts the cells equal to Box. *)
Lemma nBoxesLeft_count (l : Level) :
  wellShaped l -> nBoxesLeft l = Ok (Z.of_nat (countTile BOX (grid l))).
Proof.
  intros (Hw & Hh & Hlen & Hcols). unfold nBoxesLeft, upto.
  rewrite (foldR_upto_weigh _
             (fun col => Z.of_nat (count_occ Z.eq_dec col BOX)) (grid l)).
  - rewrite drop_0, weigh_countTile. reflexivity.
  - intros acc a col Hcol.
    assert (Hl : length col = Z.to_nat (h l)).
    { rewrite Forall_forall in Hcols. apply Hcols.
      eapply list_elem_of_lookup_2. eassumption. }
    rewrite (foldR_upto_weigh _ (fun c => if c =? BOX then 1 else 0) col).
    + rewrite drop_0, weigh_count. reflexivity.
    + intros acc' b c Hc. unfold cell.
      assert (E1 : index (grid l) (Z.of_nat a) = Ok col).
      { apply index_Ok. rewrite Nat2Z.id. split; [lia | assumption]. }
      assert (E2 : index col (Z.of_nat b) = Ok c).
      { apply index_Ok. rewrite Nat2Z.id. split; [lia | assumption]. }
      rewrite E1. simpl. rewrite E2. simpl.
      destruct (c =? BOX); f_equal; lia.
    + lia.
  - lia.
Qed.

Lemma commands_arrowKeys (levels : list (list Z)) (r l u d : bool)
    (s : Session) :
  commands levels (arrowKeys r l u d) s
  = (s ← when r moveRight s; s ← when l moveLeft s;
     s ← when u moveUp s; when d moveDown s).
Proof.
  unfold commands, arrowKeys. simpl. rewrite !orb_false_r. reflexivity.
Qed.

(** C6, as the code has it. The win check is the closing block of [Update]:
    it runs once per tick, on the state that all the command blocks of the
    tick have left -- the moves of a tick (up to four, in the order Right,
    Left, Up, Down) run one after the other with no check between them. The
    closing block finds the level solved exactly when no cell equals Box
    (PlacedBox cells do not count); a level that is not solved is left as it
    is; on a win the level index is incremented and clamped at [LEVEL_MAX],
    the level at the new index is decoded afresh and the move history is
    emptied. *)
Theorem win_detection (levels : list (list Z)) (inp : Input) (s : Session) :
  (forall s2, Update levels inp s = Ok s2 ->
     exists s1, commands levels inp s = Ok s1 /\
                advanceIfSolved levels s1 = Ok s2) /\
  (forall r l u d,
     Update levels (arrowKeys r l u d) s
     = (s ← when r moveRight s; s ← when l moveLeft s;
        s ← when u moveUp s; s ← when d moveDown s;
        advanceIfSolved levels s)) /\
  (forall s1, wellShaped (curLev s1) ->
     (nBoxesLeft (curLev s1) = Ok 0 <-> countTile BOX (grid (curLev s1)) = 0%nat) /\
     (countTile BOX (grid (curLev s1)) <> 0%nat ->
        advanceIfSolved levels s1 = Ok s1) /\
     (countTile BOX (grid (curLev s1)) = 0%nat ->
        let k := Z.min (currentLevelNumber s1 + 1) LEVEL_MAX in
        advanceIfSolved levels s1
        = (buf ← index levels k; l ← decompressLevel buf;
           Ok (mkSession [] k l)))) /\
  (forall s1, commands levels inp s = Ok s1 -> wellShaped (curLev s1) ->
     (countTile BOX (grid (curLev s1)) <> 0%nat ->
        Update levels inp s = Ok s1) /\
     (countTile BOX (grid (curLev s1)) = 0%nat ->
        let k := Z.min (currentLevelNumber s1 + 1) LEVEL_MAX in
        Update levels inp s
        = (buf ← index levels k; l ← decompressLevel buf;
           Ok (mkSession [] k l)))).
Proof.
  assert (Hclose : forall s1, wellShaped (curLev s1) ->
     (nBoxesLeft (curLev s1) = Ok 0 <-> countTile BOX (grid (curLev s1)) = 0%nat) /\
     (countTile BOX (grid (curLev s1)) <> 0%nat ->
        advanceIfSolved levels s1 = Ok s1) /\
     (countTile BOX (grid (curLev s1)) = 0%nat ->
        let k := Z.min (currentLevelNumber s1 + 1) LEVEL_MAX in
        advanceIfSolved levels s1
        = (buf ← index levels k; l ← decompressLevel buf;
           Ok (mkSession [] k l)))).
  { intros s1 Hs. pose proof (nBoxesLeft_count (curLev s1) Hs) as Hn.
    split; [|split].
    + rewrite Hn. split.
      * intros H1. injection H1 as H1. lia.
      * intros ->. reflexivity.
    + intros Hne. unfold advanceIfSolved. rewrite Hn. simpl.
      destruct (Z.eqb_spec (Z.of_nat (countTile BOX (grid (curLev s1)))) 0);
        [lia | reflexivity].
    + intros Hz k. unfold advanceIfSolved. rewrite Hn, Hz. simpl.
      unfold loadLevel. fold k.
      replace (if LEVEL_MAX <? currentLevelNumber s1 + 1 then LEVEL_MAX
               else currentLevelNumber s1 + 1) with k; [reflexivity|].
      unfold k. destruct (Z.ltb_spec LEVEL_MAX (currentLevelNumber s1 + 1)); lia. }
  split; [|split; [|split]].
  - intros s2. unfold Update.
    destruct (commands levels inp s) as [s1| |]; simpl; try discriminate.
    eauto.
  - intros r l u d. unfold Update. rewrite commands_arrowKeys.
    destruct (when r moveRight s) as [s1| |]; simpl; [|reflexivity..].
    destruct (when l moveLeft s1) as [s2| |]; simpl; [|reflexivity..].
    destruct (when u moveUp s2) as [s3| |]; simpl; reflexivity.
  - exact Hclose.
  - intros s1 Hc Hs. destruct (Hclose s1 Hs) as (_ & H1 & H2).
    unfold Update. rewrite Hc. simpl. split; assumption.
Qed.

Lemma twoMoveLevel_decoded : decompressLevel twoMoveBuffer = Ok twoMoveLevel.
Proof. reflexivity. Qed.

Lemma twoMoveAfterRight_wellShaped : wellShaped twoMoveAfterRight.
Proof.
  split; [vm_compute; discriminate|]. split; [vm_compute; discriminate|].
  split; [reflexivity|]. repeat constructor.
Qed.

Lemma win_detection_witness :
  Update twoMoveTable (arrowKeys true false false false)
         (mkSession [] 0 twoMoveLevel)
  = Ok (mkSession [] 1 demoLevel) /\
  Update twoMoveTable (arrowKeys true false false false)
         (mkSession [] 1 demoLevel)
  = Ok (mkSession [RIGHT] 1 (setSprite demoPushed PLAYERRI)).
Proof.
  split.
  - apply (proj2 (proj2 (proj2
             (win_detection twoMoveTable (arrowKeys true false false false)
                (mkSession [] 0 twoMoveLevel))))
             (mkSession [RIGHT] 0 twoMoveAfterRight)).
    + reflexivity.
    + exact twoMoveAfterRight_wellShaped.
    + reflexivity.
  - apply (proj2 (proj2 (proj2
             (win_detection twoMoveTable (arrowKeys true false false false)
                (mkSession [] 1 demoLevel))))
             (mkSession [RIGHT] 1 (setSprite demoPushed PLAYERRI))).
    + reflexivity.
    + split; [vm_compute; discriminate|]. split; [vm_compute; discriminate|].
      split; [reflexivity|]. repeat constructor.
    + vm_compute. discriminate.
Defined.

(** C6 as stated fails when two moves share a tick. From the freshly loaded
    [twoMoveLevel], with Right and Up both just pressed: after the move Right
    no cell equals Box, yet nothing is reported -- the move Up of the same
    tick pushes a PlacedBox off its goal, and the tick ends on the same level
    index with both moves in the history. *)
Lemma solved_between_moves_unreported :
  init twoMoveTable = Ok (mkSession [] 0 twoMoveLevel) /\
  moveRight (mkSession [] 0 twoMoveLevel)
  = Ok (mkSession [RIGHT] 0 twoMoveAfterRight) /\
  countTile BOX (grid twoMoveAfterRight) = 0%nat /\
  nBoxesLeft twoMoveAfterRight = Ok 0 /\
  Update twoMoveTable (arrowKeys true false true false)
         (mkSession [] 0 twoMoveLevel)
  = Ok (mkSession [RIGHT; UP] 0 twoMoveAfterUp) /\
  Update twoMoveTable (arrowKeys true false true false)
         (mkSession [] 0 twoMoveLevel)
  <> loadLevel twoMoveTable 1.
Proof.
  split; [reflexivity|]. split; [reflexivity|]. split; [reflexivity|].
  split; [reflexivity|]. split; [reflexivity|].
  vm_compute. discriminate.
Qed.

(** ** The player stays inside the grid *)

Lemma wellShaped_same_shape (l l' : Level) :
  wellShaped l -> w l' = w l -> h l' = h l ->
  map length (grid l') = map length (grid l) ->
  wellShaped l'.
Proof.
  intros (Hw & Hh & Hlen & Hcols) Ew Eh Em. unfold wellShaped.
  rewrite Ew, Eh. split; [assumption|]. split; [assumption|]. split.
  - rewrite <- Hlen, <- (length_map length (grid l')), Em. apply length_map.
  - apply Forall_forall. intros col Hcol. apply list_elem_of_In in Hcol.
    apply (in_map length) in Hcol. rewrite Em in Hcol.
    apply in_map_iff in Hcol. destruct Hcol as (col0 & <- & Hcol0).
    rewrite Forall_forall in Hcols. apply Hcols. apply list_elem_of_In.
    assumption.
Qed.

Lemma handleMove_levelOk (dx dy : Z) (l l' : Level) :
  levelOk l -> handleMove dx dy l = Ok l' -> levelOk l'.
Proof.
  intros [Hs Hp] Hm.
  destruct (handleMove_shape dx dy l l' Hm) as (Hshape & Ew & Eh).
  assert (Hs' : wellShaped l') by (eapply wellShaped_same_shape; eassumption).
  split; [exact Hs'|].
  apply handleMove_inv in Hm. destruct Hm as [Hm (t & Ht & Hcase)].
  assert (Htarget : inGrid l (px l + dx) (py l + dy)).
  { apply cell_inGrid; eauto. }
  unfold inGrid in *. rewrite Ew, Eh.
  destruct Hm; simpl; assumption.
Qed.

Lemma setSprite_levelOk (l : Level) (sprite : Z) :
  levelOk l -> levelOk (setSprite l sprite).
Proof. intros H. exact H. Qed.

Lemma replayMove_inv (l l' : Level) (m : Z) :
  replayMove l m = Ok l' ->
  l' = l \/ exists sprite dx dy, handleMove dx dy (setSprite l sprite) = Ok l'.
Proof.
  unfold replayMove.
  destruct (m =? RIGHT); [eauto 6|].
  destruct (m =? LEFT); [eauto 6|].
  destruct (m =? UP); [eauto 6|].
  destruct (m =? DOWN); [eauto 6|].
  intros H1. injection H1 as <-. left. reflexivity.
Qed.

Lemma replay_levelOk (ms : list Z) :
  forall l l', levelOk l -> foldR replayMove ms l = Ok l' -> levelOk l'.
Proof.
  induction ms as [|m ms IH]; intros l l' Hl; cbn [foldR].
  - intros H1. injection H1 as <-. assumption.
  - destruct (replayMove l m) as [l1| |] eqn:E; simpl; try discriminate.
    apply IH. apply replayMove_inv in E.
    destruct E as [->|(sprite & dx & dy & E)]; [assumption|].
    eapply handleMove_levelOk; [|exact E]. apply setSprite_levelOk. assumption.
Qed.

Lemma decoded_levelOk (level : list Z) :
  wellFormedLevel level ->
  exists l, decompressLevel level = Ok l /\ levelOk l /\
            px l = nth (length level - 2) level 0 /\
            py l = nth (length level - 1) level 0.
Proof.
  intros [rs Henc]. pose proof (decompressLevel_encodes level rs Henc) as Hd.
  eexists. split; [exact Hd|].
  destruct Henc as (Hlen & Hbytes & _ & Htotal & Hpx & Hpy).
  destruct (levelOf_fields (nth 0 level 0) (nth 1 level 0)
              (nth (length level - 2) level 0) (nth (length level - 1) level 0)
              (emitAll rs)) as (Ew & Eh & Epx & Epy & _ & Eg).
  assert (Hb : forall i, (i < length level)%nat -> 0 <= nth i level 0 < 256).
  { intros i Hi. rewrite Forall_forall in Hbytes. apply Hbytes.
    apply list_elem_of_In. apply nth_In. assumption. }
  pose proof (Hb 0%nat ltac:(lia)). pose proof (Hb 1%nat ltac:(lia)).
  pose proof (Hb (length level - 2)%nat ltac:(lia)).
  pose proof (Hb (length level - 1)%nat ltac:(lia)).
  split; [|split; assumption].
  unfold levelOk, wellShaped, inGrid. rewrite Ew, Eh, Epx, Epy, Eg.
  destruct (grid2Of_shape (emitAll rs) (nth 0 level 0) (nth 1 level 0)).
  repeat split; try assumption; lia.
Qed.

Lemma loadLevel_inv (levels : list (list Z)) (n : Z) (s : Session) :
  loadLevel levels n = Ok s ->
  exists buf, buf ∈ levels /\ decompressLevel buf = Ok (curLev s) /\
              moves s = [] /\ currentLevelNumber s = n.
Proof.
  unfold loadLevel.
  destruct (index levels n) as [buf| |] eqn:E; simpl; try discriminate.
  destruct (decompressLevel buf) as [l| |] eqn:Ed; simpl; try discriminate.
  intros H1. injection H1 as <-. simpl. exists buf.
  apply index_Ok in E. destruct E as [_ E].
  split; [eapply list_elem_of_lookup_2; eassumption|]. auto.
Qed.

Lemma loaded_levelOk (levels : list (list Z)) (buf : list Z) (l : Level) :
  Forall wellFormedLevel levels -> buf ∈ levels ->
  decompressLevel buf = Ok l -> levelOk l.
Proof.
  intros Hwf Hin Hd. rewrite Forall_forall in Hwf.
  destruct (decoded_levelOk buf (Hwf buf Hin)) as (l0 & Hd0 & Hok & _).
  congruence.
Qed.

Section Invariant.

Variable levels : list (list Z).
Hypothesis levels_wf : Forall wellFormedLevel levels.

Lemma loadLevel_levelOk (n : Z) (s : Session) :
  loadLevel levels n = Ok s -> levelOk (curLev s).
Proof.
  intros H1. apply loadLevel_inv in H1. destruct H1 as (buf & Hin & Hd & _).
  eapply loaded_levelOk; eassumption.
Qed.

Lemma nextLevel_preserves : preserves (nextLevel levels).
Proof. intros s s' _ H1. eapply loadLevel_levelOk. exact H1. Qed.

Lemma previousLevel_preserves : preserves (previousLevel levels).
Proof. intros s s' _ H1. eapply loadLevel_levelOk. exact H1. Qed.

Lemma undo_inv (s s' : Session) :
  undo levels s = Ok s' ->
  (moves s = [] /\ s' = s) \/
  exists buf l0,
    buf ∈ levels /\ decompressLevel buf = Ok l0 /\
    foldR replayMove (take (length (moves s) - 1) (moves s)) l0
    = Ok (curLev s') /\
    moves s' = take (length (moves s) - 1) (moves s) /\
    currentLevelNumber s' = currentLevelNumber s.
Proof.
  unfold undo. destruct (moves s) as [|m ms] eqn:Em.
  - simpl. intros H1. injection H1 as <-. left. auto.
  - change (0 <? length (m :: ms))%nat with true. cbn iota.
    destruct (index levels (currentLevelNumber s)) as [buf| |] eqn:E; simpl;
      try discriminate.
    destruct (decompressLevel buf) as [l0| |] eqn:Ed; simpl; try discriminate.
    destruct (foldR replayMove _ l0) as [l1| |] eqn:Er; simpl; try discriminate.
    intros H1. injection H1 as <-. right. exists buf, l0. simpl.
    apply index_Ok in E. destruct E as [_ E].
    split; [eapply list_elem_of_lookup_2; eassumption|]. auto.
Qed.

Lemma undo_preserves : preserves (undo levels).
Proof.
  intros s s' Hs H1. apply undo_inv in H1.
  destruct H1 as [[_ ->]|(buf & l0 & Hin & Hd & Hr & _)]; [assumption|].
  eapply replay_levelOk; [|exact Hr]. eapply loaded_levelOk; eassumption.
Qed.

Lemma arrow_preserves (sprite dir dx dy : Z) :
  preserves (arrow sprite dir dx dy).
Proof.
  intros s s' Hs. unfold arrow.
  destruct (handleMove dx dy (setSprite (curLev s) sprite)) as [l| |] eqn:E;
    simpl; try discriminate.
  intros H1. injection H1 as <-. simpl.
  eapply handleMove_levelOk; [|exact E]. apply setSprite_levelOk. assumption.
Qed.

Lemma advanceIfSolved_inv (s s' : Session) :
  advanceIfSolved levels s = Ok s' ->
  s' = s \/
  exists buf, buf ∈ levels /\ decompressLevel buf = Ok (curLev s') /\
              moves s' = [].
Proof.
  unfold advanceIfSolved.
  destruct (nBoxesLeft (curLev s)) as [n| |]; simpl; try discriminate.
  destruct (n =? 0).
  - intros H1. apply loadLevel_inv in H1.
    destruct H1 as (buf & Hin & Hd & Hm & _). right. eauto.
  - intros H1. injection H1 as <-. left. reflexivity.
Qed.

Lemma advanceIfSolved_preserves : preserves (advanceIfSolved levels).
Proof.
  intros s s' Hs H1. apply advanceIfSolved_inv in H1.
  destruct H1 as [->|(buf & Hin & Hd & _)]; [assumption|].
  eapply loaded_levelOk; eassumption.
Qed.

Lemma when_preserves (c : bool) (f : Session -> result Session) :
  preserves f -> preserves (when c f).
Proof.
  intros Hf s s' Hs. unfold when. destruct c.
  - apply Hf. assumption.
  - intros H1. injection H1 as <-. assumption.
Qed.

Lemma seq_preserves (f k : Session -> result Session) :
  preserves f -> preserves k -> preserves (fun s => s1 ← f s; k s1).
Proof.
  intros Hf Hk s s' Hs. simpl.
  destruct (f s) as [s1| |] eqn:E; simpl; try discriminate.
  apply Hk. eapply Hf; eassumption.
Qed.

Lemma commands_preserves (inp : Input) : preserves (commands levels inp).
Proof.
  unfold commands. destruct (cursorPosition inp) as [xm ym].
  destruct (match touchPosition inp with
            | Some (xt, yt) => (true, xt, yt)
            | None => if pressedLeft inp then (true, xm, ym) else (false, 0, 0)
            end) as [[mouseOrTouch eventX] eventY].
  repeat (apply seq_preserves; [apply when_preserves|]).
  - apply nextLevel_preserves.
  - apply previousLevel_preserves.
  - apply undo_preserves.
  - apply arrow_preserves.
  - apply arrow_preserves.
  - apply arrow_preserves.
  - apply when_preserves. apply arrow_preserves.
Qed.

Lemma Update_preserves (inp : Input) : preserves (Update levels inp).
Proof.
  unfold Update. apply seq_preserves.
  - apply commands_preserves.
  - apply advanceIfSolved_preserves.
Qed.

End Invariant.

(** C7. The player position is inside [[0,w) x [0,h)]: it is so in the level
    decoded from a well-formed buffer, where it is the last two bytes; every
    move attempt that returns keeps it so; hence it is so after [init] and
    after every [Update] over a table of well-formed levels. Only
    [handleMove] writes the position of a level: setting the facing leaves it
    alone, and the level-change, win and undo blocks do not touch the
    position of the level they hold but install a freshly decoded level
    (undo then replays moves on it through [handleMove]). *)
Theorem player_inside_grid (levels : list (list Z)) :
  (forall level,
      wellFormedLevel level ->
      exists l, decompressLevel level = Ok l /\ levelOk l /\
                px l = nth (length level - 2) level 0 /\
                py l = nth (length level - 1) level 0) /\
  (forall dx dy l l',
      levelOk l -> handleMove dx dy l = Ok l' -> levelOk l') /\
  (Forall wellFormedLevel levels ->
     (forall s, init levels = Ok s -> levelOk (curLev s)) /\
     (forall inp s s',
         levelOk (curLev s) -> Update levels inp s = Ok s' ->
         levelOk (curLev s'))) /\
  (forall l sprite,
      px (setSprite l sprite) = px l /\ py (setSprite l sprite) = py l) /\
  (forall s s',
      nextLevel levels s = Ok s' \/ previousLevel levels s = Ok s' ->
      exists buf, buf ∈ levels /\ decompressLevel buf = Ok (curLev s')) /\
  (forall s s',
      advanceIfSolved levels s = Ok s' ->
      s' = s \/
      exists buf, buf ∈ levels /\ decompressLevel buf = Ok (curLev s')) /\
  (forall s s',
      undo levels s = Ok s' ->
      s' = s \/
      exists buf l0,
        buf ∈ levels /\ decompressLevel buf = Ok l0 /\
        foldR replayMove (take (length (moves s) - 1) (moves s)) l0
        = Ok (curLev s')) /\
  (forall l m l',
      replayMove l m = Ok l' ->
      l' = l \/
      exists sprite dx dy, handleMove dx dy (setSprite l sprite) = Ok l').
Proof.
  split; [exact decoded_levelOk|].
  split; [exact handleMove_levelOk|].
  split.
  { intros Hwf. split.
    - intros s. apply loadLevel_levelOk. exact Hwf.
    - intros inp s s'. apply Update_preserves. exact Hwf. }
  split; [intros l sprite; split; reflexivity|].
  split.
  { intros s s' [H1|H1]; apply loadLevel_inv in H1;
      destruct H1 as (buf & Hin & Hd & _); eauto. }
  split.
  { intros s s' H1. apply advanceIfSolved_inv in H1.
    destruct H1 as [->|(buf & Hin & Hd & _)]; eauto. }
  split.
  { intros s s' H1. apply undo_inv in H1.
    destruct H1 as [[_ ->]|(buf & l0 & Hin & Hd & Hr & _)]; eauto 6. }
  intros l m l'. apply replayMove_inv.
Qed.

Lemma level2x2_wellFormed : wellFormedLevel level2x2.
Proof. exists runs2x2. exact level2x2_encodes. Qed.

Lemma player_inside_grid_witness :
  (exists l, decompressLevel level2x2 = Ok l /\ levelOk l /\
             px l = 1 /\ py l = 1) /\
  levelOk demoPushed.
Proof.
  split.
  - exact (proj1 (player_inside_grid []) level2x2 level2x2_wellFormed).
  - apply (proj1 (proj2 (player_inside_grid [])) 1 0 demoLevel demoPushed).
    + split; [exact demoLevel_wellShaped|].
      unfold inGrid. vm_compute. repeat split; discriminate.
    + reflexivity.
Defined.

(** ** Undo *)

Lemma demoLevel_decoded : decompressLevel demoBuffer = Ok demoLevel.
Proof. reflexivity. Qed.

Lemma session_eta (s : Session) :
  mkSession (moves s) (currentLevelNumber s) (curLev s) = s.
Proof. destruct s. reflexivity. Qed.

(** An arrow block does to the level what the replay loop does for the
    direction it records. *)
Lemma press_replay (m : Z) (s s' : Session) :
  press s m = Ok s' ->
  replayMove (curLev s) m = Ok (curLev s') /\
  currentLevelNumber s' = currentLevelNumber s /\
  (isDir m -> moves s' = moves s ++ [m]).
Proof.
  unfold press, replayMove, moveRight, moveLeft, moveUp, moveDown, arrow.
  destruct (Z.eqb_spec m RIGHT) as [->|N1].
  { destruct (handleMove 1 0 _) as [l| |]; simpl; try discriminate.
    intros H1. injection H1 as <-. auto. }
  destruct (Z.eqb_spec m LEFT) as [->|N2].
  { destruct (handleMove (-1) 0 _) as [l| |]; simpl; try discriminate.
    intros H1. injection H1 as <-. auto. }
  destruct (Z.eqb_spec m UP) as [->|N3].
  { destruct (handleMove 0 (-1) _) as [l| |]; simpl; try discriminate.
    intros H1. injection H1 as <-. auto. }
  destruct (Z.eqb_spec m DOWN) as [->|N4].
  { destruct (handleMove 0 1 _) as [l| |]; simpl; try discriminate.
    intros H1. injection H1 as <-. auto. }
  intros H1. injection H1 as <-. split; [reflexivity|]. split; [reflexivity|].
  intros [?|[?|[?|?]]]; contradiction.
Qed.

Lemma attempts_replay (hist : list Z) :
  forall s s',
    Forall isDir hist -> attempts hist s = Ok s' ->
    foldR replayMove hist (curLev s) = Ok (curLev s') /\
    currentLevelNumber s' = currentLevelNumber s /\
    moves s' = moves s ++ hist.
Proof.
  unfold attempts.
  induction hist as [|m hist IH]; intros s s' Hdirs; cbn [foldR].
  - intros H1. injection H1 as <-. rewrite app_nil_r. auto.
  - destruct (press s m) as [s1| |] eqn:E; simpl; try discriminate.
    intros H1. apply Forall_cons in Hdirs. destruct Hdirs as [Hm Hdirs].
    apply press_replay in E. destruct E as (Er & Ei & Em).
    destruct (IH s1 s' Hdirs H1) as (Hr & Hi & Hmv).
    rewrite Er. simpl. split; [exact Hr|]. split; [congruence|].
    rewrite Hmv, (Em Hm), <- app_assoc. reflexivity.
Qed.

Lemma take_all_but_last (hist : list Z) (d : Z) :
  take (length (hist ++ [d]) - 1) (hist ++ [d]) = hist.
Proof.
  rewrite length_app. simpl.
  replace (length hist + 1 - 1)%nat with (length hist) by lia.
  apply take_app_length.
Qed.

(** C5. After the level at the current index was loaded and [N >= 1] arrow
    commands were issued (rejected ones included), undo decodes that level
    again, replays the first [N-1] recorded directions in order through
    [handleMove] and drops the last one: the session is exactly the one that
    existed after the first [N-1] commands. Undo with an empty history changes
    nothing. *)
Theorem undo_replays (levels : list (list Z)) (idx : Z) (buf hist : list Z)
    (d : Z) (l0 : Level) (s1 s2 : Session) :
  Forall isDir (hist ++ [d]) ->
  index levels idx = Ok buf -> decompressLevel buf = Ok l0 ->
  attempts hist (mkSession [] idx l0) = Ok s1 ->
  press s1 d = Ok s2 ->
  moves s1 = hist /\ moves s2 = hist ++ [d] /\
  undo levels s2
  = (l ← foldR replayMove hist l0; Ok (mkSession hist idx l)) /\
  undo levels s2 = Ok s1 /\
  commands levels backspaceInput s2 = Ok s1 /\
  (forall s, moves s = [] -> undo levels s = Ok s).
Proof.
  intros Hdirs Hbuf Hd Hplay Hlast.
  apply Forall_app in Hdirs. destruct Hdirs as [Hhist Hdir].
  apply Forall_cons in Hdir. destruct Hdir as [Hdir _].
  apply attempts_replay in Hplay; [|assumption].
  destruct Hplay as (Hr & Hi & Hm). simpl in Hr, Hi, Hm.
  apply press_replay in Hlast. destruct Hlast as (_ & Hi2 & Hm2).
  specialize (Hm2 Hdir). rewrite Hm in Hm2.
  assert (Hundo : undo levels s2
                  = (l ← foldR replayMove hist l0; Ok (mkSession hist idx l))).
  { unfold undo. rewrite Hm2, take_all_but_last.
    replace (0 <? length (hist ++ [d]))%nat with true
      by (symmetry; apply Nat.ltb_lt; rewrite length_app; simpl; lia).
    rewrite Hi2, Hi, Hbuf. simpl. rewrite Hd. reflexivity. }
  assert (Hback : undo levels s2 = Ok s1).
  { rewrite Hundo, Hr. simpl. rewrite <- Hm, <- Hi. f_equal. apply session_eta. }
  split; [exact Hm|]. split; [exact Hm2|]. split; [exact Hundo|].
  split; [exact Hback|]. split.
  - unfold commands, backspaceInput, when. simpl. rewrite Hback. reflexivity.
  - intros s Hs. unfold undo. rewrite Hs. reflexivity.
Qed.

Lemma undo_replays_witness :
  exists s1 s2,
    attempts [UP; DOWN; DOWN; RIGHT] (mkSession [] 0 demoLevel) = Ok s1 /\
    press s1 RIGHT = Ok s2 /\
    moves s2 = [UP; DOWN; DOWN; RIGHT; RIGHT] /\
    undo [demoBuffer] s2 = Ok s1.
Proof.
  destruct (attempts [UP; DOWN; DOWN; RIGHT] (mkSession [] 0 demoLevel))
    as [s1| |] eqn:E1; [|vm_compute in E1; discriminate..].
  destruct (press s1 RIGHT) as [s2| |] eqn:E2;
    [|vm_compute in E1; injection E1 as <-; vm_compute in E2; discriminate..].
  exists s1, s2. split; [reflexivity|]. split; [exact E2|].
  assert (Hdirs : Forall isDir ([UP; DOWN; DOWN; RIGHT] ++ [RIGHT])).
  { repeat (apply List.Forall_cons; [unfold isDir; auto 6|]).
    apply List.Forall_nil. }
  destruct (undo_replays [demoBuffer] 0 demoBuffer [UP; DOWN; DOWN; RIGHT]
              RIGHT demoLevel s1 s2 Hdirs eq_refl demoLevel_decoded E1 E2)
    as (_ & Hm2 & _ & Hu & _).
  split; assumption.
Defined.

(** * Further properties *)

(** ** handleMove: the full case analysis *)

Lemma handleMove_cases (dx dy : Z) (l l' : Level) :
  handleMove dx dy l = Ok l' ->
  exists t,
    cell (grid l) (px l + dx) (py l + dy) = Ok t /\
    ((isFree t /\ l' = setPlayer l (px l + dx) (py l + dy)) \/
     (isBox t /\
      exists b g2,
        cell (grid l) (px l + 2 * dx) (py l + 2 * dy) = Ok b /\ isFree b /\
        l' = setPlayer (setGrid l g2) (px l + dx) (py l + dy) /\
        cell g2 (px l + dx) (py l + dy) = Ok (leftBehind t) /\
        cell g2 (px l + 2 * dx) (py l + 2 * dy) = Ok (arrived b) /\
        (forall x y,
            (x, y) <> (px l + dx, py l + dy) ->
            (x, y) <> (px l + 2 * dx, py l + 2 * dy) ->
            cell g2 x y = cell (grid l) x y) /\
        map length g2 = map length (grid l)) \/
     (isBox t /\
      exists b, cell (grid l) (px l + 2 * dx) (py l + 2 * dy) = Ok b /\
                ~ isFree b /\ l' = l) \/
     (~ isFree t /\ ~ isBox t /\ l' = l)).
Proof.
  intros Hm.
  destruct (cell (grid l) (px l + dx) (py l + dy)) as [t| |] eqn:Et;
    [|unfold handleMove in Hm; rewrite Et in Hm; discriminate..].
  exists t. split; [reflexivity|].
  destruct (Z.eq_dec t EMPTY) as [->|NE].
  { left. unfold handleMove in Hm. rewrite Et in Hm. simpl in Hm.
    injection Hm as <-. split; [left|]; reflexivity. }
  destruct (Z.eq_dec t GOAL) as [->|NG].
  { left. unfold handleMove in Hm. rewrite Et in Hm. simpl in Hm.
    injection Hm as <-. split; [right|]; reflexivity. }
  assert (Hnf : ~ isFree t) by (intros [?|?]; contradiction).
  destruct (Z.eq_dec t BOX) as [EB|NB];
    [|destruct (Z.eq_dec t PLACED_BOX) as [EP|NP]].
  3:{ right. right. right. split; [assumption|].
      split; [intros [?|?]; contradiction|].
      unfold handleMove in Hm. rewrite Et in Hm. simpl in Hm.
      apply Z.eqb_neq in NE, NG, NB, NP. rewrite NE, NG, NB, NP in Hm.
      simpl in Hm. injection Hm as <-. reflexivity. }
  all: assert (Hbox : isBox t) by (unfold isBox; auto).
  all: destruct (cell (grid l) (px l + 2 * dx) (py l + 2 * dy)) as [b| |] eqn:Eb;
    [|rewrite (handleMove_beyond_outside l dx dy t Et Hbox Eb) in Hm;
      discriminate
     |exfalso; exact (cell_not_OutOfFuel _ _ _ Eb)].
  all: destruct (Z.eq_dec b EMPTY) as [EbE|NbE];
    [|destruct (Z.eq_dec b GOAL) as [EbG|NbG]].
  all: try (assert (Hfree : isFree b) by (unfold isFree; auto);
            right; left; split; [assumption|];
            destruct (handleMove_push l dx dy t b Et Hbox Eb Hfree)
              as (g1 & g2 & _ & _ & Hm' & C1 & C2 & F & L);
            rewrite Hm' in Hm; injection Hm as <-;
            exists b, g2; auto 10).
  all: right; right; left; split; [assumption|]; exists b;
    split; [reflexivity|]; split; [intros [?|?]; contradiction|].
  all: unfold handleMove in Hm; rewrite Et in Hm; simpl in Hm;
    destruct (isBox_tests t Hbox) as [T1 T2]; rewrite T1, T2 in Hm;
    rewrite Eb in Hm; simpl in Hm;
    apply Z.eqb_neq in NbE, NbG; rewrite NbE, NbG in Hm;
    injection Hm as <-; reflexivity.
Qed.

Lemma floor_leftBehind (t : Z) : isBox t -> floor (leftBehind t) = floor t.
Proof. intros [->| ->]; reflexivity. Qed.

Lemma floor_arrived (b : Z) : isFree b -> floor (arrived b) = floor b.
Proof. intros [->| ->]; reflexivity. Qed.

Lemma cell_setPlayer (l : Level) (x y : Z) : grid (setPlayer l x y) = grid l.
Proof. reflexivity. Qed.

(** X1. The terrain is static: a move attempt leaves the floor under every
    cell -- wall, goal or plain -- as it was, and no cell appears or
    disappears. In particular walls never move and goals are never lost. *)
Theorem handleMove_terrain (dx dy : Z) (l l' : Level) :
  handleMove dx dy l = Ok l' ->
  forall x y,
    (exists t t', cell (grid l) x y = Ok t /\ cell (grid l') x y = Ok t' /\
                  floor t' = floor t /\ (t' = WALL <-> t = WALL)) \/
    (cell (grid l) x y = Panic /\ cell (grid l') x y = Panic).
Proof.
  intros Hm x y.
  assert (Hsame : forall g, g = grid l ->
    (exists t t', cell (grid l) x y = Ok t /\ cell g x y = Ok t' /\
                  floor t' = floor t /\ (t' = WALL <-> t = WALL)) \/
    (cell (grid l) x y = Panic /\ cell g x y = Panic)).
  { intros g ->. destruct (cell (grid l) x y) as [t| |] eqn:E.
    - left. exists t, t. tauto.
    - right. auto.
    - exfalso. exact (cell_not_OutOfFuel _ _ _ E). }
  destruct (handleMove_cases dx dy l l' Hm) as (t & Ht & Hcase).
  destruct Hcase as [[_ ->]|[(Hbox & b & g2 & Hb & Hfree & -> & C1 & C2 & F & _)
                            |[(_ & b & _ & _ & ->)|(_ & _ & ->)]]];
    try (apply Hsame; reflexivity).
  simpl.
  destruct (decide ((x, y) = (px l + dx, py l + dy))) as [E|N1].
  { injection E as -> ->. left. exists t, (leftBehind t).
    split; [assumption|]. split; [assumption|].
    split; [apply floor_leftBehind; assumption|].
    destruct Hbox as [->| ->]; split; discriminate. }
  destruct (decide ((x, y) = (px l + 2 * dx, py l + 2 * dy))) as [E|N2].
  { injection E as -> ->. left. exists b, (arrived b).
    split; [assumption|]. split; [assumption|].
    split; [apply floor_arrived; assumption|].
    destruct Hfree as [->| ->]; split; discriminate. }
  rewrite (F x y N1 N2). apply Hsame. reflexivity.
Qed.

Lemma handleMove_terrain_witness :
  exists t t', cell (grid demoLevel) 3 2 = Ok t /\
               cell (grid demoPushed) 3 2 = Ok t' /\
               floor t' = floor t /\ (t' = WALL <-> t = WALL).
Proof.
  destruct (handleMove_terrain 1 0 demoLevel demoPushed demo_push 3 2)
    as [H|[H _]]; [exact H | discriminate H].
Defined.

(** X2. Whenever a move attempt changes the player position, the player
    lands on a cell that is Empty or Goal: never on a wall or on a box. *)
Theorem handleMove_lands_free (dx dy : Z) (l l' : Level) :
  handleMove dx dy l = Ok l' ->
  (px l', py l') <> (px l, py l) ->
  exists t, cell (grid l') (px l') (py l') = Ok t /\ isFree t.
Proof.
  intros Hm Hmoved.
  destruct (handleMove_cases dx dy l l' Hm) as (t & Ht & Hcase).
  destruct Hcase as [[Hfree ->]|[(Hbox & b & g2 & Hb & Hfree & -> & C1 & _)
                            |[(_ & b & _ & _ & ->)|(_ & _ & ->)]]];
    try (exfalso; apply Hmoved; reflexivity).
  - exists t. split; assumption.
  - exists (leftBehind t). split; [exact C1|].
    destruct Hbox as [->| ->]; [left | right]; reflexivity.
Qed.

Lemma handleMove_lands_free_witness :
  exists t, cell (grid demoPushed) 3 2 = Ok t /\ isFree t.
Proof.
  apply (handleMove_lands_free 1 0 demoLevel demoPushed demo_push).
  discriminate.
Defined.

(** X3. Walking is reversible: after a plain step onto an Empty or Goal cell
    from a cell that is itself Empty or Goal, the step in the opposite
    direction restores the level exactly; the grid is never touched. *)
Theorem step_and_back (dx dy : Z) (l : Level) (t t0 : Z) :
  cell (grid l) (px l + dx) (py l + dy) = Ok t -> isFree t ->
  cell (grid l) (px l) (py l) = Ok t0 -> isFree t0 ->
  exists l1,
    handleMove dx dy l = Ok l1 /\ grid l1 = grid l /\
    px l1 = px l + dx /\ py l1 = py l + dy /\
    handleMove (- dx) (- dy) l1 = Ok l.
Proof.
  intros Ht Hfree Ht0 Hfree0.
  exists (setPlayer l (px l + dx) (py l + dy)).
  assert (Hstep : forall l0 ex ey v, cell (grid l0) (px l0 + ex) (py l0 + ey) = Ok v ->
            isFree v -> handleMove ex ey l0 = Ok (setPlayer l0 (px l0 + ex) (py l0 + ey))).
  { intros l0 ex ey v Hv Hf. unfold handleMove. rewrite Hv. simpl.
    destruct Hf as [->| ->]; reflexivity. }
  split; [apply (Hstep l dx dy t); assumption|].
  split; [reflexivity|]. split; [reflexivity|]. split; [reflexivity|].
  rewrite (Hstep _ (- dx) (- dy) t0).
  - simpl. destruct l as [lw lh lpx lpy ls lz lsx lsy lg]. unfold setPlayer.
    simpl. repeat f_equal; lia.
  - simpl. replace (px l + dx + - dx) with (px l) by lia.
    replace (py l + dy + - dy) with (py l) by lia. assumption.
  - assumption.
Qed.

Lemma step_and_back_witness :
  exists l1,
    handleMove 0 (-1) demoLevel = Ok l1 /\ grid l1 = grid demoLevel /\
    px l1 = 2 /\ py l1 = 1 /\ handleMove 0 1 l1 = Ok demoLevel.
Proof.
  apply (step_and_back 0 (-1) demoLevel EMPTY EMPTY).
  - reflexivity.
  - left. reflexivity.
  - reflexivity.
  - left. reflexivity.
Defined.

(** ** No panic inside a wall rim *)

Lemma handleMove_free (l : Level) (dx dy t : Z) :
  cell (grid l) (px l + dx) (py l + dy) = Ok t -> isFree t ->
  handleMove dx dy l = Ok (setPlayer l (px l + dx) (py l + dy)).
Proof.
  intros Ht Hfree. unfold handleMove. rewrite Ht. simpl.
  destruct Hfree as [->| ->]; reflexivity.
Qed.

Lemma handleMove_other (l : Level) (dx dy t : Z) :
  cell (grid l) (px l + dx) (py l + dy) = Ok t ->
  ~ isFree t -> ~ isBox t -> handleMove dx dy l = Ok l.
Proof.
  intros Ht Hnf Hnb. unfold handleMove, isFree, isBox in *. rewrite Ht. simpl.
  destruct (Z.eqb_spec t EMPTY); [tauto|]. destruct (Z.eqb_spec t GOAL); [tauto|].
  destruct (Z.eqb_spec t BOX); [tauto|].
  destruct (Z.eqb_spec t PLACED_BOX); [tauto|]. reflexivity.
Qed.

Lemma handleMove_stuck (l : Level) (dx dy t b : Z) :
  cell (grid l) (px l + dx) (py l + dy) = Ok t -> isBox t ->
  cell (grid l) (px l + 2 * dx) (py l + 2 * dy) = Ok b -> ~ isFree b ->
  handleMove dx dy l = Ok l.
Proof.
  intros Ht Hbox Hb Hnf. unfold handleMove, isFree in *. rewrite Ht. simpl.
  destruct (isBox_tests t Hbox) as [T1 T2]. rewrite T1, T2, Hb. simpl.
  destruct (Z.eqb_spec b EMPTY); [tauto|]. destruct (Z.eqb_spec b GOAL); [tauto|].
  reflexivity.
Qed.

Lemma isFree_dec (t : Z) : {isFree t} + {~ isFree t}.
Proof.
  unfold isFree. destruct (Z.eq_dec t EMPTY); [auto|].
  destruct (Z.eq_dec t GOAL); [auto|]. right. tauto.
Qed.

Lemma isBox_dec (t : Z) : {isBox t} + {~ isBox t}.
Proof.
  unfold isBox. destruct (Z.eq_dec t BOX); [auto|].
  destruct (Z.eq_dec t PLACED_BOX); [auto|]. right. tauto.
Qed.

Lemma not_wall_inside (l : Level) (x y t : Z) :
  wellShaped l -> walled l -> cell (grid l) x y = Ok t -> t <> WALL ->
  1 <= x <= w l - 2 /\ 1 <= y <= h l - 2.
Proof.
  intros Hs Hw Ht Hnw.
  assert (Hin : inGrid l x y) by (apply cell_inGrid; eauto).
  destruct (decide (x = 0 \/ x = w l - 1 \/ y = 0 \/ y = h l - 1)) as [Hrim|Hin'].
  - rewrite (Hw x y Hin Hrim) in Ht. congruence.
  - unfold inGrid in Hin. lia.
Qed.

(** Inside a wall rim a move attempt returns, and keeps the rim. *)
Lemma handleMove_in_rim (dx dy : Z) (l : Level) :
  safeLevel l -> unitStep dx dy ->
  exists l', handleMove dx dy l = Ok l' /\ safeLevel l'.
Proof.
  intros (Hs & Hw & t0 & Ht0 & Hnw) Hdir.
  pose proof (not_wall_inside l _ _ t0 Hs Hw Ht0 Hnw) as [Hx Hy].
  assert (Habs : Z.abs dx + Z.abs dy = 1).
  { destruct Hdir as [E|[E|[E|E]]]; injection E as -> ->; reflexivity. }
  assert (Hin : inGrid l (px l + dx) (py l + dy)) by (unfold inGrid; lia).
  apply (cell_inGrid l _ _ Hs) in Hin. destruct Hin as [t Ht].
  destruct (isFree_dec t) as [Hfree|Hnf].
  { exists (setPlayer l (px l + dx) (py l + dy)).
    split; [eapply handleMove_free; eassumption|].
    split; [exact Hs|]. split; [exact Hw|].
    exists t. split; [exact Ht|]. destruct Hfree as [->| ->]; discriminate. }
  destruct (isBox_dec t) as [Hbox|Hnb].
  2:{ exists l. split; [eapply handleMove_other; eassumption|].
      split; [exact Hs|]. split; [exact Hw|]. eauto. }
  assert (Htw : t <> WALL) by (destruct Hbox as [->| ->]; discriminate).
  pose proof (not_wall_inside l _ _ t Hs Hw Ht Htw) as [Hx1 Hy1].
  assert (Hin2 : inGrid l (px l + 2 * dx) (py l + 2 * dy))
    by (unfold inGrid; lia).
  apply (cell_inGrid l _ _ Hs) in Hin2. destruct Hin2 as [b Hb].
  destruct (isFree_dec b) as [Hfree|Hnf2].
  2:{ exists l. split; [eapply handleMove_stuck; eassumption|].
      split; [exact Hs|]. split; [exact Hw|]. eauto. }
  destruct (handleMove_push l dx dy t b Ht Hbox Hb Hfree)
    as (g1 & g2 & _ & _ & Hm & C1 & C2 & F & L).
  eexists. split; [exact Hm|].
  assert (Hs' : wellShaped (setPlayer (setGrid l g2) (px l + dx) (py l + dy))).
  { apply (wellShaped_same_shape l); [assumption|reflexivity..|exact L]. }
  split; [exact Hs'|]. split.
  - intros x y Hxy Hrim. simpl.
    assert (Hwall : cell (grid l) x y = Ok WALL) by (apply Hw; assumption).
    rewrite F; [assumption| |].
    + intros E. injection E as -> ->. congruence.
    + intros E. injection E as -> ->. rewrite Hb in Hwall.
      injection Hwall as ->. destruct Hfree; discriminate.
  - exists (leftBehind t). split; [exact C1|].
    destruct Hbox as [->| ->]; discriminate.
Qed.

(** X4. Inside a wall rim the move logic never leaves the grid: in a level
    with [w] columns of [h] cells whose rim is all Wall and whose player is
    not on a Wall, a move attempt in any of the four directions returns
    (it does not panic), and the level it returns is again such a level. *)
Theorem handleMove_safe (dx dy : Z) (l : Level) :
  safeLevel l -> unitStep dx dy ->
  exists l', handleMove dx dy l = Ok l' /\ safeLevel l'.
Proof. apply handleMove_in_rim. Qed.

Lemma demoLevel_safe : safeLevel demoLevel.
Proof.
  split; [exact demoLevel_wellShaped|]. split.
  - intros x y [Hx Hy] Hrim.
    change (w demoLevel) with 6 in *. change (h demoLevel) with 4 in *.
    assert (Hx' : x = 0 \/ x = 1 \/ x = 2 \/ x = 3 \/ x = 4 \/ x = 5) by lia.
    assert (Hy' : y = 0 \/ y = 1 \/ y = 2 \/ y = 3) by lia.
    destruct Hx' as [->|[->|[->|[->|[->| ->]]]]];
      destruct Hy' as [->|[->|[->| ->]]]; try reflexivity; lia.
  - exists EMPTY. split; [reflexivity | discriminate].
Qed.

Lemma handleMove_safe_witness :
  exists l', handleMove 1 0 demoLevel = Ok l' /\ safeLevel l'.
Proof.
  apply (handleMove_safe 1 0 demoLevel demoLevel_safe). left. reflexivity.
Defined.

Lemma replayMove_safe (l : Level) (m : Z) :
  safeLevel l -> isDir m ->
  exists l', replayMove l m = Ok l' /\ safeLevel l'.
Proof.
  intros Hl Hm. unfold replayMove, unitStep.
  destruct Hm as [->|[->|[->| ->]]]; simpl;
    apply handleMove_in_rim; unfold unitStep; try exact Hl; auto.
Qed.

Lemma replay_safe (ms : list Z) :
  forall l, safeLevel l -> Forall isDir ms ->
            exists l', foldR replayMove ms l = Ok l' /\ safeLevel l'.
Proof.
  induction ms as [|m ms IH]; intros l Hl Hms; cbn [foldR].
  - eauto.
  - apply Forall_cons in Hms. destruct Hms as [Hm Hms].
    destruct (replayMove_safe l m Hl Hm) as (l1 & E & Hl1).
    rewrite E. simpl. apply IH; assumption.
Qed.

Section Safety.

Variable levels : list (list Z).
Hypothesis levels_safe : safeTable levels.

Lemma loadLevel_safe (n : Z) :
  0 <= n <= LEVEL_MAX ->
  exists s, loadLevel levels n = Ok s /\ safeSession s /\
            currentLevelNumber s = n /\ moves s = [].
Proof.
  intros Hn. destruct levels_safe as [Hlen Hall].
  destruct (lookup_lt_is_Some_2 levels (Z.to_nat n)) as [buf Hbuf]; [lia|].
  assert (E : index levels n = Ok buf) by (apply index_Ok; split; [lia|assumption]).
  destruct (Hall buf) as (l & Hd & Hl);
    [eapply list_elem_of_lookup_2; eassumption|].
  unfold loadLevel. rewrite E. simpl. rewrite Hd. simpl.
  eexists. split; [reflexivity|]. unfold safeSession. simpl.
  split; [|split; reflexivity].
  split; [lia|]. split; [exact Hl | constructor].
Qed.

Lemma loadLevel_runs (n : Z) (s : Session) :
  0 <= n <= LEVEL_MAX ->
  exists s', loadLevel levels n = Ok s' /\ safeSession s'.
Proof.
  intros Hn. destruct (loadLevel_safe n Hn) as (s' & E & Hs' & _). eauto.
Qed.

Lemma nextLevel_runs : runsSafely (nextLevel levels).
Proof.
  intros s (Hi & _). unfold nextLevel. apply (loadLevel_runs _ s).
  destruct (Z.ltb_spec LEVEL_MAX (currentLevelNumber s + 1));
    unfold LEVEL_MAX in *; lia.
Qed.

Lemma previousLevel_runs : runsSafely (previousLevel levels).
Proof.
  intros s (Hi & _). unfold previousLevel. apply (loadLevel_runs _ s).
  destruct (Z.ltb_spec (currentLevelNumber s - 1) 0);
    unfold LEVEL_MAX in *; lia.
Qed.

Lemma undo_runs : runsSafely (undo levels).
Proof.
  intros s (Hi & Hl & Hm). unfold undo.
  destruct (0 <? length (moves s))%nat;
    [|exists s; split; [reflexivity|]; split; [|split]; assumption].
  destruct (loadLevel_safe (currentLevelNumber s) Hi) as (s0 & E & (_ & Hl0 & _) & _).
  unfold loadLevel in E.
  destruct (index levels (currentLevelNumber s)) as [buf| |]; simpl in *;
    try discriminate.
  destruct (decompressLevel buf) as [l0| |]; simpl in *; try discriminate.
  injection E as <-. simpl in Hl0.
  assert (Htake : Forall isDir (take (length (moves s) - 1) (moves s)))
    by (apply Forall_take; assumption).
  destruct (replay_safe _ l0 Hl0 Htake) as (l1 & Er & Hl1).
  rewrite Er. simpl. eexists. split; [reflexivity|].
  split; [|split]; assumption.
Qed.

Lemma arrow_runs (sprite dir dx dy : Z) :
  unitStep dx dy -> isDir dir -> runsSafely (arrow sprite dir dx dy).
Proof.
  intros Hstep Hdir s (Hi & Hl & Hm). unfold arrow.
  destruct (handleMove_in_rim dx dy (setSprite (curLev s) sprite) Hl Hstep)
    as (l' & E & Hl').
  rewrite E. simpl. eexists. split; [reflexivity|].
  split; [assumption|]. split; [assumption|]. simpl.
  apply Forall_app. split; [assumption|]. apply Forall_singleton. assumption.
Qed.

Lemma advanceIfSolved_runs : runsSafely (advanceIfSolved levels).
Proof.
  intros s (Hi & Hl & Hm). unfold advanceIfSolved.
  destruct Hl as (Hs & Hrest). rewrite (nBoxesLeft_count _ Hs). simpl.
  destruct (Z.of_nat (countTile BOX (grid (curLev s))) =? 0).
  - apply (loadLevel_runs _ s).
    destruct (Z.ltb_spec LEVEL_MAX (currentLevelNumber s + 1));
      unfold LEVEL_MAX in *; lia.
  - exists s. split; [reflexivity|].
    split; [|split; [split|]]; assumption.
Qed.

Lemma when_runs (c : bool) (f : Session -> result Session) :
  runsSafely f -> runsSafely (when c f).
Proof.
  intros Hf s Hs. unfold when. destruct c; [apply Hf; assumption|eauto].
Qed.

Lemma seq_runs (f k : Session -> result Session) :
  runsSafely f -> runsSafely k -> runsSafely (fun s => s1 ← f s; k s1).
Proof.
  intros Hf Hk s Hs. destruct (Hf s Hs) as (s1 & E & Hs1).
  simpl. rewrite E. simpl. apply Hk. assumption.
Qed.

Lemma commands_runs (inp : Input) : runsSafely (commands levels inp).
Proof.
  unfold commands. destruct (cursorPosition inp) as [xm ym].
  destruct (match touchPosition inp with
            | Some (xt, yt) => (true, xt, yt)
            | None => if pressedLeft inp then (true, xm, ym) else (false, 0, 0)
            end) as [[mouseOrTouch eventX] eventY].
  repeat (apply seq_runs; [apply when_runs|]); [..|apply when_runs].
  - apply nextLevel_runs.
  - apply previousLevel_runs.
  - apply undo_runs.
  - apply arrow_runs; unfold unitStep, isDir; auto.
  - apply arrow_runs; unfold unitStep, isDir; auto.
  - apply arrow_runs; unfold unitStep, isDir; auto 6.
  - apply arrow_runs; unfold unitStep, isDir; auto 6.
Qed.

End Safety.

(** X5. The game never crashes on a table of safe levels: when the table
    holds at least [LEVEL_MAX + 1] buffers that each decode to a level with
    a wall rim and the player off the walls, [init] returns, and from every
    session with such a level, an index in [[0, LEVEL_MAX]] and a history of
    directions, [Update] returns for every input, with such a session again. *)
Theorem Update_never_panics (levels : list (list Z)) :
  safeTable levels ->
  (exists s, init levels = Ok s /\ safeSession s) /\
  (forall inp s, safeSession s ->
     exists s', Update levels inp s = Ok s' /\ safeSession s').
Proof.
  intros Hsafe. split.
  - destruct (loadLevel_safe levels Hsafe 0) as (s & E & Hs & _);
      [unfold LEVEL_MAX; lia|]. eauto.
  - intros inp. unfold Update. apply seq_runs.
    + apply commands_runs. assumption.
    + apply advanceIfSolved_runs. assumption.
Qed.

Lemma demoTable_safe : safeTable demoTable.
Proof.
  split; [reflexivity|]. intros buf Hbuf.
  unfold demoTable in Hbuf. apply elem_of_replicate in Hbuf.
  destruct Hbuf as [-> _].
  exists demoLevel. split; [exact demoLevel_decoded | exact demoLevel_safe].
Qed.

Lemma Update_never_panics_witness :
  (exists s, init demoTable = Ok s /\ safeSession s) /\
  (exists s', Update demoTable
                (mkInput (0, 0) false None false false false true false false false)
                (mkSession [] 0 demoLevel) = Ok s' /\ safeSession s').
Proof.
  destruct (Update_never_panics demoTable demoTable_safe) as [H1 H2].
  split; [exact H1|]. apply H2.
  split; [split; discriminate|]. split; [exact demoLevel_safe | constructor].
Defined.

(** ** The grid holds tiles only *)

Lemma tilesOnly_cells (g : list (list Z)) :
  tilesOnly g <-> forall x y t, cell g x y = Ok t -> isTile t.
Proof.
  unfold tilesOnly. split.
  - intros Hall x y t Hc. apply cell_Ok in Hc.
    destruct Hc as (_ & _ & col & Hcol & Ht).
    rewrite Forall_lookup in Hall. specialize (Hall _ _ Hcol).
    rewrite Forall_lookup in Hall. exact (Hall _ _ Ht).
  - intros Hcells. apply Forall_lookup. intros i col Hcol.
    apply Forall_lookup. intros j t Ht.
    apply (Hcells (Z.of_nat i) (Z.of_nat j)). apply cell_Ok.
    split; [lia|]. split; [lia|]. exists col. rewrite !Nat2Z.id. auto.
Qed.

Lemma readObject_tile_value (bits : list bool) (i i2 : nat) (t : Z) :
  readObject bits i = Ok (t, i2) -> isTile t.
Proof.
  unfold readObject, isTile.
  destruct (at_ bits i) as [b0| |]; simpl; try discriminate.
  destruct (at_ bits (i + 1)) as [b1| |]; destruct b0; simpl; try discriminate.
  - destruct b1; simpl.
    + destruct (at_ bits (i + 2)) as [b2| |]; simpl; try discriminate.
      intros H1. injection H1 as <- _. destruct b2; auto 6.
    + intros H1. injection H1 as <- _. auto.
  - intros H1. injection H1 as <- _. destruct b1; simpl; auto.
Qed.

Lemma decodeLoop_tiles (fuel : nat) :
  forall (bits : list bool) (n : Z) (i : nat) (flat g : list Z),
    Forall isTile flat -> decodeLoop fuel bits n i flat = Ok g ->
    Forall isTile g.
Proof.
  induction fuel as [|fuel IH]; intros bits n i flat g Hflat;
    rewrite ?decodeLoop_O, ?decodeLoop_S;
    destruct (Z.of_nat (length flat) =? n).
  - intros H1. injection H1 as <-. assumption.
  - discriminate.
  - intros H1. injection H1 as <-. assumption.
  - destruct (readCounter bits i) as [[c i1]| |]; simpl; try discriminate.
    destruct (readObject bits i1) as [[t i2]| |] eqn:Eo; simpl; try discriminate.
    apply IH. apply Forall_app. split; [assumption|].
    apply Forall_replicate. eapply readObject_tile_value. eassumption.
Qed.

Lemma grid2Of_tiles (flat : list Z) (lw lh : Z) :
  Z.of_nat (length flat) = lw * lh -> Forall isTile flat ->
  tilesOnly (grid2Of flat lw lh).
Proof.
  intros Hlen Hflat. unfold tilesOnly, grid2Of.
  apply Forall_forall. intros col Hcol. apply list_elem_of_In in Hcol.
  apply in_map_iff in Hcol. destruct Hcol as (x & <- & Hx).
  apply list_elem_of_In, elem_of_upto in Hx.
  apply Forall_forall. intros t Ht. apply list_elem_of_In in Ht.
  apply in_map_iff in Ht. destruct Ht as (y & <- & Hy).
  apply list_elem_of_In, elem_of_upto in Hy.
  rewrite Forall_forall in Hflat. apply Hflat. apply list_elem_of_In.
  apply nth_In. nia.
Qed.

Lemma concat_length_columns (g : list (list Z)) (n : nat) :
  Forall (fun col => length col = n) g ->
  length (concat g) = (length g * n)%nat.
Proof.
  induction 1 as [|col g Hcol _ IH]; [reflexivity|].
  simpl. rewrite length_app, IH, Hcol. reflexivity.
Qed.

(** X6. Whatever the buffer, a level that [decompressLevel] returns is
    sound data: the buffer has at least two bytes, the grid has [w] columns
    of [h] cells, [w*h] cells in all, each one of the five tile values, and
    the player faces up. *)
Theorem decompressLevel_sound (level : list Z) (l : Level) :
  Forall isByte level ->
  decompressLevel level = Ok l ->
  (2 <= length level)%nat /\
  isByte (w l) /\ isByte (h l) /\ isByte (px l) /\ isByte (py l) /\
  wellShaped l /\
  Z.of_nat (length (concat (grid l))) = w l * h l /\
  tilesOnly (grid l) /\
  psprite l = PLAYERUP.
Proof.
  intros Hbytes Hd. unfold decompressLevel in Hd.
  apply decompressLevelFuel_inv in Hd.
  destruct Hd as (flat & Hw & Hh & Hpx & Hpy & Hloop & Hlen & Hl).
  assert (Hbyte : forall i v, index level i = Ok v -> isByte v).
  { intros i v Hi. apply index_Ok in Hi. destruct Hi as [_ Hi].
    rewrite Forall_lookup in Hbytes. eapply Hbytes. eassumption. }
  pose proof (Hbyte _ _ Hw) as Bw. pose proof (Hbyte _ _ Hh) as Bh.
  split.
  { apply index_Ok in Hh. destruct Hh as [_ Hh]. apply lookup_lt_Some in Hh.
    simpl in Hh. lia. }
  split; [assumption|]. split; [assumption|].
  split; [eapply Hbyte; eassumption|]. split; [eapply Hbyte; eassumption|].
  destruct (levelOf_fields (w l) (h l) (px l) (py l) flat)
    as (_ & _ & _ & _ & Hsprite & Hgrid).
  rewrite <- Hl in Hsprite, Hgrid.
  destruct (grid2Of_shape flat (w l) (h l)) as [Hcols Hrows].
  assert (Hs : wellShaped l).
  { unfold wellShaped, isByte in *. rewrite Hgrid. repeat split; try lia; assumption. }
  split; [exact Hs|]. split.
  - rewrite Hgrid, (concat_length_columns _ (Z.to_nat (h l)) Hrows), Hcols.
    unfold isByte in *. lia.
  - split; [|exact Hsprite]. rewrite Hgrid. apply grid2Of_tiles; [assumption|].
    eapply decodeLoop_tiles; [|exact Hloop]. constructor.
Qed.

Lemma demoBuffer_bytes : Forall isByte demoBuffer.
Proof. unfold isByte, demoBuffer. repeat constructor; discriminate. Qed.

Lemma decompressLevel_sound_witness :
  wellShaped demoLevel /\
  Z.of_nat (length (concat (grid demoLevel))) = w demoLevel * h demoLevel /\
  tilesOnly (grid demoLevel).
Proof.
  destruct (decompressLevel_sound demoBuffer demoLevel demoBuffer_bytes
              demoLevel_decoded) as (_ & _ & _ & _ & _ & H1 & H2 & H3 & _).
  auto.
Defined.

(** X7. A move attempt writes tile values only: if every cell of the grid
    holds one of the five tile values before [handleMove], so it does
    after. *)
Theorem handleMove_tilesOnly (dx dy : Z) (l l' : Level) :
  handleMove dx dy l = Ok l' -> tilesOnly (grid l) -> tilesOnly (grid l').
Proof.
  intros Hm Htiles.
  destruct (handleMove_cases dx dy l l' Hm) as (t & Ht & Hcase).
  destruct Hcase as [[_ ->]|[(Hbox & b & g2 & Hb & Hfree & -> & C1 & C2 & F & _)
                            |[(_ & b & _ & _ & ->)|(_ & _ & ->)]]];
    try assumption.
  simpl. apply tilesOnly_cells. intros x y v Hv.
  destruct (decide ((x, y) = (px l + dx, py l + dy))) as [E|N1].
  { injection E as -> ->. rewrite C1 in Hv. injection Hv as <-.
    unfold isTile. destruct Hbox as [->| ->]; vm_compute; auto 6. }
  destruct (decide ((x, y) = (px l + 2 * dx, py l + 2 * dy))) as [E|N2].
  { injection E as -> ->. rewrite C2 in Hv. injection Hv as <-.
    unfold isTile. destruct Hfree as [->| ->]; vm_compute; auto 6. }
  rewrite (F x y N1 N2) in Hv.
  apply (proj1 (tilesOnly_cells (grid l)) Htiles x y v Hv).
Qed.

Lemma handleMove_tilesOnly_witness : tilesOnly (grid demoPushed).
Proof.
  apply (handleMove_tilesOnly 1 0 demoLevel demoPushed demo_push).
  change (grid demoLevel) with demoGrid. unfold tilesOnly, demoGrid.
  repeat first [ apply List.Forall_nil
               | apply List.Forall_cons
               | (unfold isTile; vm_compute; auto 6; fail) ].
Defined.

(** ** Exactly which buffers decode *)

Lemma decompressLevel_runs (level : list Z) (l : Level) :
  decompressLevel level = Ok l ->
  (2 <= length level)%nat /\
  exists rs rest,
    levelBits level = runsBits rs ++ rest /\
    Z.of_nat (total rs) = nth 0 level 0 * nth 1 level 0 /\
    l = levelOf (nth 0 level 0) (nth 1 level 0)
          (nth (length level - 2) level 0)
          (nth (length level - 1) level 0) (emitAll rs).
Proof.
  intros Hd. unfold decompressLevel in Hd.
  apply decompressLevelFuel_inv in Hd.
  destruct Hd as (flat & Hw & Hh & Hpx & Hpy & Hloop & Hlen & Hl).
  assert (Hlen2 : (2 <= length level)%nat).
  { apply index_Ok in Hh. destruct Hh as [_ Hh].
    apply lookup_lt_Some in Hh. simpl in Hh. lia. }
  rewrite index_nth in Hw, Hh, Hpx, Hpy by lia.
  injection Hw as Hw. injection Hh as Hh. injection Hpx as Hpx.
  injection Hpy as Hpy.
  replace (Z.to_nat (Z.of_nat (length level) - 2)) with (length level - 2)%nat
    in Hpx by lia.
  replace (Z.to_nat (Z.of_nat (length level) - 1)) with (length level - 1)%nat
    in Hpy by lia.
  change (Z.to_nat 0) with 0%nat in Hw. change (Z.to_nat 1) with 1%nat in Hh.
  split; [assumption|].
  apply decodeLoop_runs in Hloop. destruct Hloop as (rs & rest & Hdrop & ->).
  rewrite drop_0 in Hdrop. simpl in Hl, Hlen.
  exists rs, rest. split; [assumption|].
  rewrite Hw, Hh, Hpx, Hpy. split; [exact Hlen | exact Hl].
Qed.

Lemma decompressLevel_of_runs (level : list Z) (rs : list run) (rest : list bool) :
  (2 <= length level)%nat ->
  levelBits level = runsBits rs ++ rest ->
  Z.of_nat (total rs) = nth 0 level 0 * nth 1 level 0 ->
  decompressLevel level
  = Ok (levelOf (nth 0 level 0) (nth 1 level 0)
          (nth (length level - 2) level 0)
          (nth (length level - 1) level 0) (emitAll rs)).
Proof.
  intros Hlen Hbits Htotal.
  unfold decompressLevel, decompressLevelFuel.
  rewrite (index_nth level 0) by lia.
  rewrite (index_nth level 1) by lia.
  rewrite (index_nth level (Z.of_nat (length level) - 2)) by lia.
  rewrite (index_nth level (Z.of_nat (length level) - 1)) by lia.
  simpl.
  replace (Z.to_nat (Z.of_nat (length level) - 2)) with (length level - 2)%nat
    by lia.
  replace (Z.to_nat (Z.of_nat (length level) - 1)) with (length level - 1)%nat
    by lia.
  change (nth (Pos.to_nat 1) level 0) with (nth 1 level 0).
  rewrite Hbits. rewrite (decodeLoop_exact rs rest _ _ Htotal).
  - simpl. rewrite toGrid2_Ok by exact Htotal. simpl.
    unfold levelOf. destruct (screenSpecifics _ _) as [[f x] y]. reflexivity.
  - pose proof (runsBits_length rs). rewrite length_app. lia.
Qed.

Lemma decompressLevel_Ok_or_Panic (level : list Z) :
  (forall l, decompressLevel level <> Ok l) -> decompressLevel level = Panic.
Proof.
  intros Hno. destruct (decompressLevel level) as [l| |] eqn:E.
  - exfalso. exact (Hno l eq_refl).
  - reflexivity.
  - exfalso. exact (proj1 (decompressLevel_fuel level) E).
Qed.

(** X8. [decompressLevel] returns a level exactly for the buffers of at
    least two bytes whose bitstream starts with runs that stand for exactly
    [w*h] tiles, and the level is then made of these tiles; on every other
    buffer it panics. *)
Theorem decompressLevel_succeeds_iff (level : list Z) :
  (forall l,
      decompressLevel level = Ok l <->
      (2 <= length level)%nat /\
      exists rs rest,
        levelBits level = runsBits rs ++ rest /\
        Z.of_nat (total rs) = nth 0 level 0 * nth 1 level 0 /\
        l = levelOf (nth 0 level 0) (nth 1 level 0)
              (nth (length level - 2) level 0)
              (nth (length level - 1) level 0) (emitAll rs)) /\
  ((forall l, decompressLevel level <> Ok l) -> decompressLevel level = Panic).
Proof.
  split; [|apply decompressLevel_Ok_or_Panic].
  intros l. split; [apply decompressLevel_runs|].
  intros (Hlen & rs & rest & Hbits & Htotal & ->).
  apply (decompressLevel_of_runs level rs rest); assumption.
Qed.

Lemma decompressLevel_succeeds_iff_witness :
  decompressLevel level2x2 = Ok (levelOf 2 2 1 1 [WALL; EMPTY; EMPTY; WALL]).
Proof.
  apply (proj1 (decompressLevel_succeeds_iff level2x2)).
  split; [simpl; lia|].
  exists runs2x2, [false; false; false; false].
  split; [reflexivity|]. split; reflexivity.
Defined.

Lemma total_le (rs : list run) : (total rs <= 9 * length rs)%nat.
Proof.
  induction rs as [|r rs IH]; [reflexivity|].
  rewrite total_cons. pose proof (runLength_range (fst r)). simpl. lia.
Qed.

Lemma runsBits_length3 (rs : list run) :
  (3 * length rs <= length (runsBits rs))%nat.
Proof.
  induction rs as [|[hd t] rs IH]; [reflexivity|].
  unfold runsBits in *. simpl. rewrite !length_app.
  destruct hd, t; simpl; lia.
Qed.

(** X9. A level of [w*h] tiles needs bits: every run takes at least three
    bits and stands for at most nine tiles, so a buffer of [L] bytes decodes
    only if [w*h <= 24 * (L - 4)]; a buffer that is too short for its
    dimensions panics. *)
Theorem decompressLevel_needs_bits (level : list Z) :
  (forall l, decompressLevel level = Ok l ->
             w l * h l <= 24 * Z.of_nat (length level - 4)) /\
  (24 * Z.of_nat (length level - 4) < nth 0 level 0 * nth 1 level 0 ->
   decompressLevel level = Panic).
Proof.
  assert (Hbound : forall l, decompressLevel level = Ok l ->
            w l = nth 0 level 0 /\ h l = nth 1 level 0 /\
            w l * h l <= 24 * Z.of_nat (length level - 4)).
  { intros l Hd. apply decompressLevel_runs in Hd.
    destruct Hd as (_ & rs & rest & Hbits & Htotal & ->).
    destruct (levelOf_fields (nth 0 level 0) (nth 1 level 0)
                (nth (length level - 2) level 0)
                (nth (length level - 1) level 0) (emitAll rs))
      as (-> & -> & _).
    split; [reflexivity|]. split; [reflexivity|].
    rewrite <- Htotal.
    pose proof (total_le rs). pose proof (runsBits_length3 rs).
    assert (Hlen : length (levelBits level) = (8 * (length level - 4))%nat).
    { unfold levelBits. rewrite flat_map_byteBits_length, body_length.
      reflexivity. }
    rewrite Hbits, length_app in Hlen. lia. }
  split.
  - intros l Hd. apply Hbound. assumption.
  - intros Hshort. apply decompressLevel_Ok_or_Panic. intros l Hd.
    destruct (Hbound l Hd) as (Hw & Hh & Hle). rewrite Hw, Hh in Hle. lia.
Qed.

Lemma decompressLevel_needs_bits_witness :
  decompressLevel [10; 10; 85; 85; 85; 1; 1] = Panic.
Proof.
  apply (proj2 (decompressLevel_needs_bits [10; 10; 85; 85; 85; 1; 1])).
  reflexivity.
Defined.

(** X10. A level of zero width or zero height decodes whatever its
    bitstream holds: no bit is read, the grid has no cell, and [nBoxesLeft]
    is 0, so the closing block of [Update] takes it for solved at once. *)
Theorem decompressLevel_no_cells (level : list Z) :
  (2 <= length level)%nat -> Forall isByte level ->
  nth 0 level 0 * nth 1 level 0 = 0 ->
  exists l, decompressLevel level = Ok l /\
            concat (grid l) = [] /\ nBoxesLeft l = Ok 0.
Proof.
  intros Hlen Hbytes Hzero.
  pose proof (decompressLevel_of_runs level [] (levelBits level) Hlen eq_refl)
    as Hd.
  rewrite Hzero in Hd. specialize (Hd eq_refl).
  eexists. split; [exact Hd|].
  destruct (levelOf_fields (nth 0 level 0) (nth 1 level 0)
              (nth (length level - 2) level 0)
              (nth (length level - 1) level 0) (emitAll []))
    as (Ew & Eh & _ & _ & _ & Eg).
  assert (Hb : forall i, (i < length level)%nat -> 0 <= nth i level 0 < 256).
  { intros i Hi. rewrite Forall_forall in Hbytes. apply Hbytes.
    apply list_elem_of_In. apply nth_In. assumption. }
  pose proof (Hb 0%nat ltac:(lia)). pose proof (Hb 1%nat ltac:(lia)).
  destruct (grid2Of_shape (emitAll []) (nth 0 level 0) (nth 1 level 0))
    as [Hcols Hrows].
  set (l := levelOf _ _ _ _ _) in *.
  assert (Hs : wellShaped l).
  { unfold wellShaped. rewrite Ew, Eh, Eg. repeat split; try lia; assumption. }
  assert (Hnil : concat (grid l) = []).
  { apply length_zero_iff_nil.
    rewrite Eg, (concat_length_columns _ _ Hrows), Hcols. nia. }
  split; [exact Hnil|].
  rewrite (nBoxesLeft_count l Hs). unfold countTile. rewrite Hnil. reflexivity.
Qed.

Lemma decompressLevel_no_cells_witness :
  exists l, decompressLevel [0; 7; 255; 255; 3; 9] = Ok l /\
            concat (grid l) = [] /\ nBoxesLeft l = Ok 0.
Proof.
  apply (decompressLevel_no_cells [0; 7; 255; 255; 3; 9]).
  - simpl. lia.
  - unfold isByte. repeat constructor; discriminate.
  - reflexivity.
Defined.

(** ** Round trip through an encoder *)

Lemma byteBits_bitsByte (bs : list bool) :
  length bs = 8%nat -> byteBits (bitsByte bs) = bs.
Proof.
  intros Hlen.
  do 8 (destruct bs as [|? bs]; [discriminate|]).
  destruct bs; [|discriminate].
  repeat match goal with b : bool |- _ => destruct b end; reflexivity.
Qed.

Lemma packBits_bits (fuel : nat) :
  forall bits, (length bits <= fuel)%nat ->
    exists pad, flat_map byteBits (packBits fuel bits) = bits ++ pad.
Proof.
  induction fuel as [|fuel IH]; intros bits Hfuel.
  - destruct bits; [|simpl in Hfuel; lia]. exists []. reflexivity.
  - destruct bits as [|b bits]; [exists []; reflexivity|].
    cbn [packBits flat_map].
    rewrite byteBits_bitsByte
      by (apply length_take_le; rewrite length_app, length_replicate;
          simpl; lia).
    destruct (IH (drop 8 (b :: bits))) as [pad Hpad];
      [rewrite length_drop; simpl in *; lia|].
    rewrite Hpad.
    destruct (Nat.le_gt_cases 8 (length (b :: bits))) as [Hge|Hlt].
    + exists pad. rewrite take_app_le by lia. rewrite app_assoc.
      rewrite take_drop. reflexivity.
    + rewrite (drop_ge (b :: bits)) by lia.
      rewrite take_app_ge by lia. eexists.
      rewrite <- app_assoc. reflexivity.
Qed.

Lemma body_compressed (lw lh lpx lpy : Z) (packed : list Z) :
  body ([lw; lh] ++ packed ++ [lpx; lpy]) = packed.
Proof.
  unfold body. cbn [app drop]. apply take_app_length'.
  cbn [length]. rewrite length_app. simpl. lia.
Qed.

Lemma compressRuns_decodes (lw lh lpx lpy : Z) (rs : list run) :
  Z.of_nat (total rs) = lw * lh ->
  decompressLevel (compressRuns lw lh lpx lpy rs)
  = Ok (levelOf lw lh lpx lpy (emitAll rs)).
Proof.
  intros Htotal.
  destruct (packBits_bits (length (runsBits rs)) (runsBits rs) (le_n _))
    as [pad Hpad].
  set (packed := packBits (length (runsBits rs)) (runsBits rs)) in *.
  assert (Hlen : length (compressRuns lw lh lpx lpy rs)
                 = (length packed + 4)%nat).
  { unfold compressRuns. fold packed. simpl. rewrite length_app. simpl. lia. }
  rewrite (decompressLevel_of_runs _ rs pad).
  - rewrite Hlen. unfold compressRuns. fold packed.
    replace (length packed + 4 - 2)%nat with (S (S (length packed))) by lia.
    replace (length packed + 4 - 1)%nat with (S (S (S (length packed)))) by lia.
    cbn [app nth].
    rewrite !app_nth2 by lia.
    replace (length packed - length packed)%nat with 0%nat by lia.
    replace (S (length packed) - length packed)%nat with 1%nat by lia.
    reflexivity.
  - lia.
  - unfold levelBits, compressRuns. fold packed.
    rewrite body_compressed. exact Hpad.
  - exact Htotal.
Qed.

(** X11. Round trip: the buffer made of a width, a height, the packed codes
    of a list of runs that stand for [w*h] tiles, and a player position
    decodes to the level with these dimensions, these tiles and this
    player position. *)
Theorem decompress_compressRuns (lw lh lpx lpy : Z) (rs : list run) :
  Z.of_nat (total rs) = lw * lh ->
  decompressLevel (compressRuns lw lh lpx lpy rs)
  = Ok (levelOf lw lh lpx lpy (emitAll rs)).
Proof. apply compressRuns_decodes. Qed.

Lemma decompress_compressRuns_witness :
  decompressLevel (compressRuns 2 2 1 1 runs2x2)
  = Ok (levelOf 2 2 1 1 [WALL; EMPTY; EMPTY; WALL]).
Proof. exact (decompress_compressRuns 2 2 1 1 runs2x2 eq_refl). Defined.

(** ** Screen zones *)

Lemma inScreenZone_spec (z : screenZone) (x y : Z) :
  inScreenZone z x y = true <->
  let sw := Z.quot screenWidth (nHorizontalSectors z) in
  let sh := Z.quot screenHeight (nVerticalSectors z) in
  sw * (hSector z - 1) < x < sw * hSector z /\
  sh * (vSector z - 1) < y < sh * vSector z.
Proof.
  unfold inScreenZone, screenZoneCoords. cbn zeta.
  rewrite !andb_true_iff, !Z.ltb_lt. tauto.
Qed.



Lemma game_zone_box (z : screenZone) (x y : Z) :
  nHorizontalSectors z = 20 -> nVerticalSectors z = 10 ->
  inScreenZone z x y = true ->
  95 * (hSector z - 1) < x < 95 * hSector z /\
  100 * (vSector z - 1) < y < 100 * vSector z.
Proof.
  intros Hh Hv H1. apply inScreenZone_spec in H1. rewrite Hh, Hv in H1.
  exact H1.
Qed.

Lemma bind_Ok_r {A : Type} (c : result A) : (a ← c; Ok a) = c.
Proof. destruct c; reflexivity. Qed.

(** The blocks of [Update] run on a pointer event at [(x, y)], no key
    being pressed. *)
Lemma zone_chain (levels : list (list Z)) (x y : Z) (s : Session) :
  (s ← when (false || true && inScreenZone nextScreenZone x y) (nextLevel levels) s;
   s ← when (false || true && inScreenZone previousScreenZone x y) (previousLevel levels) s;
   s ← when (false || true && inScreenZone undoScreenZone x y) (undo levels) s;
   s ← when (false || true && inScreenZone rightScreenZone x y) moveRight s;
   s ← when (false || true && inScreenZone leftScreenZone x y) moveLeft s;
   s ← when (false || true && inScreenZone upScreenZone x y) moveUp s;
   when (false || true && inScreenZone downScreenZone x y) moveDown s)
  = zoneCommand levels x y s.
Proof.
  unfold zoneCommand.
  destruct (inScreenZone nextScreenZone x y) eqn:E1;
  destruct (inScreenZone previousScreenZone x y) eqn:E2;
  destruct (inScreenZone undoScreenZone x y) eqn:E3;
  destruct (inScreenZone rightScreenZone x y) eqn:E4;
  destruct (inScreenZone leftScreenZone x y) eqn:E5;
  destruct (inScreenZone upScreenZone x y) eqn:E6;
  destruct (inScreenZone downScreenZone x y) eqn:E7;
  repeat match goal with
         | H : inScreenZone ?z x y = true |- _ =>
             apply (game_zone_box z x y eq_refl eq_refl) in H; simpl in H
         end;
  try lia;
  unfold when; cbn [orb andb mbind result_bind];
  try reflexivity;
  repeat match goal with
         | |- context [mbind _ ?c] => destruct c; cbn [mbind result_bind]
         end;
  reflexivity.
Qed.

(** X13. With no key pressed, the commands of a tick are decided by one
    point -- the touch if there is one, else the cursor if the left button
    was just pressed -- and run at most one block: that of the zone holding
    the point, or nothing when the point is in no zone or there is no
    point. *)
Theorem pointer_runs_one_command (levels : list (list Z)) (inp : Input)
    (s : Session) :
  noKeys inp ->
  commands levels inp s
  = match eventPoint inp with
    | Some (x, y) => zoneCommand levels x y s
    | None => Ok s
    end.
Proof.
  intros (K1 & K2 & K3 & K4 & K5 & K6 & K7).
  unfold commands, eventPoint. rewrite K1, K2, K3, K4, K5, K6, K7.
  destruct (cursorPosition inp) as [xm ym].
  destruct (touchPosition inp) as [[xt yt]|]; [apply zone_chain|].
  destruct (pressedLeft inp); [apply zone_chain|]. reflexivity.
Qed.

Lemma pointer_runs_one_command_witness :
  commands demoTable
    (mkInput (1850, 850) true None false false false false false false false)
    (mkSession [] 0 demoLevel)
  = moveRight (mkSession [] 0 demoLevel).
Proof.
  apply (pointer_runs_one_command demoTable
           (mkInput (1850, 850) true None false false false false false false false)
           (mkSession [] 0 demoLevel)).
  repeat split.
Defined.

(** ** Sessions reached by play *)

Lemma foldR_app {A B : Type} (f : B -> A -> result B) (l1 l2 : list A) (b : B) :
  foldR f (l1 ++ l2) b = (b' ← foldR f l1 b; foldR f l2 b').
Proof.
  revert b. induction l1 as [|a l1 IH]; intros b; [reflexivity|].
  cbn [app foldR]. destruct (f b a) as [b1| |]; simpl; [apply IH|reflexivity..].
Qed.

Lemma foldR_prefix {A B : Type} (f : B -> A -> result B) (l : list A) (n : nat)
    (b b2 : B) :
  foldR f l b = Ok b2 -> exists b1, foldR f (take n l) b = Ok b1.
Proof.
  rewrite <- (take_drop n l) at 1. rewrite foldR_app.
  destruct (foldR f (take n l) b) as [b1| |]; simpl; try discriminate. eauto.
Qed.

Section Consistency.

Variable levels : list (list Z).

Lemma loadLevel_consistent (n : Z) (s : Session) :
  0 <= n <= LEVEL_MAX -> loadLevel levels n = Ok s -> consistent levels s.
Proof.
  intros Hn. unfold loadLevel.
  destruct (index levels n) as [buf| |] eqn:E; simpl; try discriminate.
  destruct (decompressLevel buf) as [l| |] eqn:Ed; simpl; try discriminate.
  intros H1. injection H1 as <-. unfold consistent. simpl.
  split; [assumption|]. split; [constructor|]. exists buf, l. auto.
Qed.

Lemma nextLevel_consistent : keepsConsistent levels (nextLevel levels).
Proof.
  intros s s' (Hi & _) H1. unfold nextLevel in H1.
  eapply loadLevel_consistent; [|exact H1].
  destruct (Z.ltb_spec LEVEL_MAX (currentLevelNumber s + 1));
    unfold LEVEL_MAX in *; lia.
Qed.

Lemma previousLevel_consistent : keepsConsistent levels (previousLevel levels).
Proof.
  intros s s' (Hi & _) H1. unfold previousLevel in H1.
  eapply loadLevel_consistent; [|exact H1].
  destruct (Z.ltb_spec (currentLevelNumber s - 1) 0);
    unfold LEVEL_MAX in *; lia.
Qed.

Lemma undo_inv_index (s s' : Session) :
  undo levels s = Ok s' ->
  (moves s = [] /\ s' = s) \/
  exists buf l0 l1,
    index levels (currentLevelNumber s) = Ok buf /\
    decompressLevel buf = Ok l0 /\
    foldR replayMove (take (length (moves s) - 1) (moves s)) l0 = Ok l1 /\
    s' = mkSession (take (length (moves s) - 1) (moves s))
                   (currentLevelNumber s) l1.
Proof.
  unfold undo. destruct (moves s) as [|m ms] eqn:Em.
  - simpl. intros H1. injection H1 as <-. left. auto.
  - change (0 <? length (m :: ms))%nat with true. cbn iota.
    destruct (index levels (currentLevelNumber s)) as [buf| |] eqn:E; simpl;
      try discriminate.
    destruct (decompressLevel buf) as [l0| |] eqn:Ed; simpl; try discriminate.
    destruct (foldR replayMove _ l0) as [l1| |] eqn:Er; simpl; try discriminate.
    intros H1. injection H1 as <-. right. exists buf, l0, l1. auto.
Qed.

Lemma undo_consistent : keepsConsistent levels (undo levels).
Proof.
  intros s s' Hs H1. apply undo_inv_index in H1.
  destruct H1 as [[_ ->]|(buf & l0 & l1 & Hb & Hd & Hr & ->)]; [assumption|].
  destruct Hs as (Hi & Hm & _). unfold consistent. simpl.
  split; [assumption|]. split; [apply Forall_take; assumption|].
  exists buf, l0. auto.
Qed.

Lemma press_consistent (d : Z) :
  isDir d -> keepsConsistent levels (fun s => press s d).
Proof.
  intros Hd s s' (Hi & Hm & buf & l0 & Hb & Hdec & Hr) H1.
  apply press_replay in H1. destruct H1 as (Hrep & Hidx & Hmv).
  specialize (Hmv Hd). unfold consistent. rewrite Hidx, Hmv.
  split; [assumption|]. split.
  - apply Forall_app. split; [assumption|]. apply Forall_singleton. assumption.
  - exists buf, l0. split; [assumption|]. split; [assumption|].
    rewrite foldR_app, Hr. simpl. rewrite Hrep. reflexivity.
Qed.

Lemma advanceIfSolved_consistent : keepsConsistent levels (advanceIfSolved levels).
Proof.
  intros s s' Hs H1. pose proof Hs as (Hi & _). unfold advanceIfSolved in H1.
  destruct (nBoxesLeft (curLev s)) as [n| |]; simpl in H1; try discriminate.
  destruct (n =? 0).
  - eapply loadLevel_consistent; [|exact H1].
    destruct (Z.ltb_spec LEVEL_MAX (currentLevelNumber s + 1));
      unfold LEVEL_MAX in *; lia.
  - injection H1 as <-. assumption.
Qed.

Lemma when_consistent (c : bool) (f : Session -> result Session) :
  keepsConsistent levels f -> keepsConsistent levels (when c f).
Proof.
  intros Hf s s' Hs. unfold when. destruct c.
  - apply Hf. assumption.
  - intros H1. injection H1 as <-. assumption.
Qed.

Lemma seq_consistent (f k : Session -> result Session) :
  keepsConsistent levels f -> keepsConsistent levels k ->
  keepsConsistent levels (fun s => s1 ← f s; k s1).
Proof.
  intros Hf Hk s s' Hs. simpl.
  destruct (f s) as [s1| |] eqn:E; simpl; try discriminate.
  apply Hk. eapply Hf; eassumption.
Qed.

Lemma commands_consistent (inp : Input) :
  keepsConsistent levels (commands levels inp).
Proof.
  unfold commands. destruct (cursorPosition inp) as [xm ym].
  destruct (match touchPosition inp with
            | Some (xt, yt) => (true, xt, yt)
            | None => if pressedLeft inp then (true, xm, ym) else (false, 0, 0)
            end) as [[mouseOrTouch eventX] eventY].
  repeat (apply seq_consistent; [apply when_consistent|]);
    [..|apply when_consistent].
  - apply nextLevel_consistent.
  - apply previousLevel_consistent.
  - apply undo_consistent.
  - apply (press_consistent RIGHT). unfold isDir. auto.
  - apply (press_consistent LEFT). unfold isDir. auto 6.
  - apply (press_consistent UP). unfold isDir. auto.
  - apply (press_consistent DOWN). unfold isDir. auto.
Qed.

End Consistency.

(** X14. Every session of a game is what play from its level makes it: after
    [init] and after every [Update] that returns, the level index is in
    [[0, LEVEL_MAX]], the history holds only the four direction codes, and
    the current level -- grid, player and facing -- is the level decoded
    from the buffer of that index with the whole history replayed on it. *)
Theorem sessions_consistent (levels : list (list Z)) :
  (forall s, init levels = Ok s -> consistent levels s) /\
  (forall inp s s',
      consistent levels s -> Update levels inp s = Ok s' ->
      consistent levels s').
Proof.
  split.
  - intros s. apply loadLevel_consistent. unfold LEVEL_MAX. lia.
  - intros inp. unfold Update. apply seq_consistent.
    + apply commands_consistent.
    + apply advanceIfSolved_consistent.
Qed.

Lemma demoTable_init : init demoTable = Ok (mkSession [] 0 demoLevel).
Proof. reflexivity. Qed.

Lemma sessions_consistent_witness :
  consistent demoTable (mkSession [] 0 demoLevel).
Proof.
  apply (proj1 (sessions_consistent demoTable)). exact demoTable_init.
Defined.

Lemma demoSession_consistent : consistent demoTable (mkSession [] 0 demoLevel).
Proof.
  split; [split; discriminate|]. split; [constructor|].
  exists demoBuffer, demoLevel. split; [reflexivity|].
  split; [exact demoLevel_decoded | reflexivity].
Qed.

Lemma undo_after_press (levels : list (list Z)) (s s1 : Session) (d : Z) :
  consistent levels s -> isDir d ->
  press s d = Ok s1 ->
  undo levels s1 = Ok s.
Proof.
  intros (Hi & Hm & buf & l0 & Hb & Hdec & Hr) Hd H1.
  apply press_replay in H1. destruct H1 as (_ & Hidx & Hmv).
  specialize (Hmv Hd). unfold undo. rewrite Hmv, take_all_but_last.
  replace (0 <? length (moves s ++ [d]))%nat with true
    by (symmetry; apply Nat.ltb_lt; rewrite length_app; simpl; lia).
  rewrite Hidx, Hb. simpl. rewrite Hdec. simpl. rewrite Hr. simpl.
  f_equal. apply session_eta.
Qed.

Lemma commands_arrowKey (levels : list (list Z)) (d : Z) (s : Session) :
  isDir d -> commands levels (arrowKey d) s = press s d.
Proof.
  intros Hd. unfold arrowKey. rewrite commands_arrowKeys. unfold press, when.
  destruct Hd as [->|[->|[->| ->]]]; simpl; rewrite ?bind_Ok_r; reflexivity.
Qed.

Lemma commands_backspace (levels : list (list Z)) (s : Session) :
  commands levels backspaceInput s = undo levels s.
Proof.
  unfold commands, backspaceInput, when. simpl. apply bind_Ok_r.
Qed.

Lemma advanceIfSolved_unsolved (levels : list (list Z)) (s : Session) (n : Z) :
  nBoxesLeft (curLev s) = Ok n -> n <> 0 -> advanceIfSolved levels s = Ok s.
Proof.
  intros Hn Hne. unfold advanceIfSolved. rewrite Hn. simpl.
  destruct (Z.eqb_spec n 0); [contradiction | reflexivity].
Qed.

(** X15. Undo takes back the last move, tick by tick: from a session
    reached by play that is not solved, a tick in which one arrow key was
    pressed and that did not win the level (it left a history), followed by a
    tick in which Backspace was pressed, gives the session back exactly --
    grid, player, facing, history and index. *)
Theorem undo_takes_back (levels : list (list Z)) (s s1 : Session) (d n : Z) :
  consistent levels s -> isDir d ->
  nBoxesLeft (curLev s) = Ok n -> n <> 0 ->
  Update levels (arrowKey d) s = Ok s1 -> moves s1 <> [] ->
  Update levels backspaceInput s1 = Ok s.
Proof.
  intros Hs Hd Hn Hne Htick Hhist.
  unfold Update in Htick. rewrite (commands_arrowKey levels d s Hd) in Htick.
  destruct (press s d) as [s'| |] eqn:Ep; simpl in Htick; try discriminate.
  apply advanceIfSolved_inv in Htick.
  destruct Htick as [->|(_ & _ & _ & Hnil)]; [|contradiction].
  unfold Update. rewrite commands_backspace.
  rewrite (undo_after_press levels s s' d Hs Hd Ep). simpl.
  eapply advanceIfSolved_unsolved; eassumption.
Qed.

Lemma undo_takes_back_witness :
  Update demoTable backspaceInput
         (mkSession [RIGHT] 0 (setSprite demoPushed PLAYERRI))
  = Ok (mkSession [] 0 demoLevel).
Proof.
  apply (undo_takes_back demoTable (mkSession [] 0 demoLevel)
           (mkSession [RIGHT] 0 (setSprite demoPushed PLAYERRI)) RIGHT 1
           demoSession_consistent).
  - unfold isDir. auto.
  - reflexivity.
  - discriminate.
  - reflexivity.
  - discriminate.
Defined.

Lemma undo_exact (levels : list (list Z)) (s : Session) (buf : list Z)
    (l0 : Level) :
  consistent levels s -> moves s <> [] ->
  index levels (currentLevelNumber s) = Ok buf -> decompressLevel buf = Ok l0 ->
  exists l1,
    foldR replayMove (take (length (moves s) - 1) (moves s)) l0 = Ok l1 /\
    undo levels s
    = Ok (mkSession (take (length (moves s) - 1) (moves s))
                    (currentLevelNumber s) l1) /\
    consistent levels (mkSession (take (length (moves s) - 1) (moves s))
                                 (currentLevelNumber s) l1).
Proof.
  intros Hs Hne Hb Hdec. pose proof Hs as (Hi & Hm & buf' & l0' & Hb' & Hd' & Hr).
  rewrite Hb in Hb'. injection Hb' as <-. rewrite Hdec in Hd'.
  injection Hd' as <-.
  destruct (foldR_prefix replayMove (moves s) (length (moves s) - 1) l0 _ Hr)
    as [l1 Hl1].
  exists l1. split; [exact Hl1|].
  assert (E : undo levels s
              = Ok (mkSession (take (length (moves s) - 1) (moves s))
                              (currentLevelNumber s) l1)).
  { unfold undo.
    replace (0 <? length (moves s))%nat with true
      by (symmetry; apply Nat.ltb_lt; destruct (moves s);
          [congruence | simpl; lia]).
    rewrite Hb. simpl. rewrite Hdec. simpl. rewrite Hl1. reflexivity. }
  split; [exact E|]. eapply undo_consistent; eassumption.
Qed.

(** X16. Undoing every move restarts the level, tick by tick: in a session
    reached by play whose history has [N] moves, if none of the positions
    the history went through -- the loaded level with the first [k < N]
    moves replayed -- is solved, then [N] ticks in each of which Backspace
    was pressed give the freshly loaded level of the current index, with an
    empty history. *)
Theorem undo_all_restarts (levels : list (list Z)) (s : Session)
    (buf : list Z) (l0 : Level) :
  consistent levels s ->
  index levels (currentLevelNumber s) = Ok buf -> decompressLevel buf = Ok l0 ->
  (forall k, (k < length (moves s))%nat ->
     exists l m, foldR replayMove (take k (moves s)) l0 = Ok l /\
                 nBoxesLeft l = Ok m /\ m <> 0) ->
  undoTicks levels (length (moves s)) s
  = loadLevel levels (currentLevelNumber s).
Proof.
  remember (length (moves s)) as n eqn:Hn. revert s Hn.
  induction n as [|n IH]; intros s Hn Hs Hb Hdec Hunsolved.
  - destruct Hs as (Hi & Hm & buf' & l0' & Hb' & Hd' & Hr).
    symmetry in Hn. apply length_zero_iff_nil in Hn. rewrite Hn in Hr.
    simpl in Hr. injection Hr as Hr.
    unfold loadLevel. rewrite Hb'. simpl. rewrite Hd'. simpl.
    rewrite Hr, <- Hn. f_equal. symmetry. apply session_eta.
  - assert (Hne : moves s <> []).
    { intros Hnil. rewrite Hnil in Hn. discriminate. }
    destruct (undo_exact levels s buf l0 Hs Hne Hb Hdec) as (l1 & Hl1 & E & Hs').
    rewrite <- Hn in Hl1, E, Hs'.
    replace (S n - 1)%nat with n in Hl1, E, Hs' by lia.
    destruct (Hunsolved n ltac:(lia)) as (l & m & Hl & Hm & Hmne).
    rewrite Hl1 in Hl. injection Hl as <-.
    cbn [undoTicks]. unfold Update at 1. rewrite commands_backspace, E. simpl.
    rewrite (advanceIfSolved_unsolved levels
               (mkSession (take n (moves s)) (currentLevelNumber s) l1) m Hm Hmne).
    simpl.
    apply (IH (mkSession (take n (moves s)) (currentLevelNumber s) l1)).
    + simpl. rewrite length_take. lia.
    + exact Hs'.
    + exact Hb.
    + exact Hdec.
    + simpl. intros k Hk.
      rewrite take_take. replace (k `min` n)%nat with k by lia.
      apply Hunsolved. lia.
Qed.

Lemma undo_all_restarts_witness :
  undoTicks demoTable 1 (mkSession [RIGHT] 0 (setSprite demoPushed PLAYERRI))
  = loadLevel demoTable 0.
Proof.
  apply (undo_all_restarts demoTable
           (mkSession [RIGHT] 0 (setSprite demoPushed PLAYERRI))
           demoBuffer demoLevel).
  - split; [split; discriminate|]. split.
    + apply Forall_singleton. unfold isDir. auto.
    + exists demoBuffer, demoLevel. split; [reflexivity|].
      split; [exact demoLevel_decoded | reflexivity].
  - reflexivity.
  - exact demoLevel_decoded.
  - intros k Hk. simpl in Hk. assert (k = 0%nat) as -> by lia.
    exists demoLevel, 1. split; [reflexivity|].
    split; [reflexivity | discriminate].
Defined.

(** X17. A tick never ends on a solved level with moves in its history: when
    [Update] returns a session whose history is not empty, that session
    still has at least one Box that is not on a goal. *)
Theorem tick_ends_unsolved (levels : list (list Z)) (inp : Input)
    (s s' : Session) :
  Update levels inp s = Ok s' -> moves s' <> [] ->
  exists n, nBoxesLeft (curLev s') = Ok n /\ n <> 0.
Proof.
  unfold Update.
  destruct (commands levels inp s) as [s1| |]; simpl; try discriminate.
  unfold advanceIfSolved.
  destruct (nBoxesLeft (curLev s1)) as [n| |] eqn:En; simpl; try discriminate.
  destruct (Z.eqb_spec n 0) as [->|Hn].
  - intros H1 Hne. apply loadLevel_inv in H1.
    destruct H1 as (_ & _ & _ & Hm & _). contradiction.
  - intros H1 _. injection H1 as <-. eauto.
Qed.

Lemma tick_ends_unsolved_witness :
  exists n, nBoxesLeft (setSprite demoPushed PLAYERRI) = Ok n /\ n <> 0.
Proof.
  apply (tick_ends_unsolved demoTable
           (mkInput (0, 0) false None false false false true false false false)
           (mkSession [] 0 demoLevel) (mkSession [RIGHT] 0 (setSprite demoPushed PLAYERRI))).
  - reflexivity.
  - discriminate.
Defined.

(** X18. Level navigation clamps and composes: from an index below
    [LEVEL_MAX], next-level followed by previous-level loads the level of
    the index one started from; from an index above 0, previous followed by
    next does; at [LEVEL_MAX] next-level reloads the last level and at 0
    previous-level reloads the first, each with an empty history. *)
Theorem navigation_round_trip (levels : list (list Z)) (s s1 : Session) :
  (0 <= currentLevelNumber s < LEVEL_MAX ->
   nextLevel levels s = Ok s1 ->
   previousLevel levels s1 = loadLevel levels (currentLevelNumber s)) /\
  (0 < currentLevelNumber s <= LEVEL_MAX ->
   previousLevel levels s = Ok s1 ->
   nextLevel levels s1 = loadLevel levels (currentLevelNumber s)) /\
  (currentLevelNumber s = LEVEL_MAX ->
   nextLevel levels s = loadLevel levels LEVEL_MAX) /\
  (currentLevelNumber s = 0 ->
   previousLevel levels s = loadLevel levels 0).
Proof.
  unfold nextLevel, previousLevel, LEVEL_MAX. repeat split.
  - intros Hi H1. apply loadLevel_inv in H1.
    destruct H1 as (_ & _ & _ & _ & Hidx). rewrite Hidx.
    destruct (Z.ltb_spec 62 (currentLevelNumber s + 1)); [lia|].
    destruct (Z.ltb_spec (currentLevelNumber s + 1 - 1) 0); [lia|].
    f_equal. lia.
  - intros Hi H1. apply loadLevel_inv in H1.
    destruct H1 as (_ & _ & _ & _ & Hidx). rewrite Hidx.
    destruct (Z.ltb_spec (currentLevelNumber s - 1) 0); [lia|].
    destruct (Z.ltb_spec 62 (currentLevelNumber s - 1 + 1)); [lia|].
    f_equal. lia.
  - intros ->. reflexivity.
  - intros ->. reflexivity.
Qed.

Lemma navigation_round_trip_witness :
  previousLevel demoTable (mkSession [] 1 demoLevel) = loadLevel demoTable 0.
Proof.
  apply (proj1 (navigation_round_trip demoTable (mkSession [UP] 0 demoLevel)
                  (mkSession [] 1 demoLevel))).
  - split; [discriminate | reflexivity].
  - reflexivity.
Defined.

(** ** Counting through a push *)

Lemma push_counts (l : Level) (dx dy t b : Z) (g1 g2 : list (list Z)) (tile : Z) :
  cell (grid l) (px l + dx) (py l + dy) = Ok t -> isBox t ->
  cell (grid l) (px l + 2 * dx) (py l + 2 * dy) = Ok b -> isFree b ->
  setCell (grid l) (px l + dx) (py l + dy) (leftBehind t) = Ok g1 ->
  setCell g1 (px l + 2 * dx) (py l + 2 * dy) (arrived b) = Ok g2 ->
  (countTile tile g2 + oneIf tile t + oneIf tile b
   = countTile tile (grid l) + oneIf tile (leftBehind t)
     + oneIf tile (arrived b))%nat.
Proof.
  intros Ht Hbox Hb Hfree E1 E2.
  assert (Hb1 : cell g1 (px l + 2 * dx) (py l + 2 * dy) = Ok b).
  { destruct (setCell_spec _ _ _ t (leftBehind t) Ht) as (g & E & _ & F & _).
    rewrite E1 in E. injection E as <-. rewrite F; [assumption|].
    intros Heq. injection Heq as Q1 Q2. rewrite Q1, Q2 in Hb.
    rewrite Ht in Hb. injection Hb as <-.
    exact (isBox_not_isFree t Hbox Hfree). }
  pose proof (countTile_setCell tile _ _ _ _ _ _ Ht E1).
  pose proof (countTile_setCell tile _ _ _ _ _ _ Hb1 E2).
  lia.
Qed.

(** X19. A move attempt changes the number of Box cells (boxes not on a
    goal) by at most one, and lowers it only by pushing a Box onto a Goal:
    so a level is won only by such a push, made when exactly one Box was
    left. *)
Theorem winning_move (dx dy : Z) (l l' : Level) :
  handleMove dx dy l = Ok l' ->
  (countTile BOX (grid l') <= countTile BOX (grid l) + 1)%nat /\
  (countTile BOX (grid l) <= countTile BOX (grid l') + 1)%nat /\
  ((countTile BOX (grid l') < countTile BOX (grid l))%nat ->
   cell (grid l) (px l + dx) (py l + dy) = Ok BOX /\
   cell (grid l) (px l + 2 * dx) (py l + 2 * dy) = Ok GOAL /\
   cell (grid l') (px l + 2 * dx) (py l + 2 * dy) = Ok PLACED_BOX /\
   (px l', py l') = (px l + dx, py l + dy)).
Proof.
  intros Hm. pose proof Hm as Hm'. apply handleMove_inv in Hm'.
  destruct Hm' as [Hmoved _].
  destruct Hmoved as [| |t b g1 g2 Ht Hbox Hb Hfree E1 E2]; simpl;
    [repeat split; lia..|].
  pose proof (push_counts l dx dy t b g1 g2 BOX Ht Hbox Hb Hfree E1 E2) as Hc.
  destruct (handleMove_push l dx dy t b Ht Hbox Hb Hfree)
    as (g1' & g2' & E1' & E2' & _ & _ & C2 & _).
  rewrite E1 in E1'. injection E1' as <-.
  rewrite E2 in E2'. injection E2' as <-.
  destruct Hbox as [->| ->], Hfree as [->| ->]; vm_compute oneIf in Hc;
    repeat split; try lia; try assumption.
Qed.

Lemma winning_move_witness :
  (countTile BOX (grid demoPushed) <= countTile BOX (grid demoLevel) + 1)%nat.
Proof.
  exact (proj1 (winning_move 1 0 demoLevel demoPushed demo_push)).
Defined.

Lemma handleMove_psprite (dx dy : Z) (l l' : Level) :
  handleMove dx dy l = Ok l' -> psprite l' = psprite l.
Proof.
  intros Hm. apply handleMove_inv in Hm. destruct Hm as [Hm _].
  destruct Hm; reflexivity.
Qed.

(** X20. Every arrow command that returns is recorded, whether or not the
    player moved: the history grows by exactly the direction of the arrow,
    the facing becomes that of the arrow, the level index is unchanged, and
    the level is what [handleMove] makes of it. *)
Theorem arrow_records (sprite dir dx dy : Z) (s s' : Session) :
  arrow sprite dir dx dy s = Ok s' ->
  moves s' = moves s ++ [dir] /\
  psprite (curLev s') = sprite /\
  currentLevelNumber s' = currentLevelNumber s /\
  handleMove dx dy (setSprite (curLev s) sprite) = Ok (curLev s').
Proof.
  unfold arrow.
  destruct (handleMove dx dy (setSprite (curLev s) sprite)) as [l| |] eqn:E;
    simpl; try discriminate.
  intros H1. injection H1 as <-. simpl.
  split; [reflexivity|]. split; [|split; reflexivity].
  apply handleMove_psprite in E. exact E.
Qed.

Lemma arrow_records_witness :
  moves (mkSession [RIGHT] 0 (setSprite demoPushed PLAYERRI)) = [] ++ [RIGHT] /\
  psprite (setSprite demoPushed PLAYERRI) = PLAYERRI.
Proof.
  destruct (arrow_records PLAYERRI RIGHT 1 0 (mkSession [] 0 demoLevel)
              (mkSession [RIGHT] 0 (setSprite demoPushed PLAYERRI)) eq_refl)
    as (H1 & H2 & _).
  split; [exact H1 | exact H2].
Defined.

(** ** Drawing *)

Lemma drawAll_flat_map {A : Type} (f : A -> result (list screenCall))
    (g : A -> list screenCall) (l : list A) :
  (forall a, a ∈ l -> f a = Ok (g a)) -> drawAll f l = Ok (flat_map g l).
Proof.
  induction l as [|a l IH]; intros Hf; [reflexivity|].
  cbn [drawAll flat_map]. rewrite (Hf a) by left. simpl.
  rewrite IH; [reflexivity|]. intros a' Ha'. apply Hf. right. assumption.
Qed.

(** X21. On a level whose grid has [w] columns of [h] cells, [Draw] reads no
    cell outside the grid: it returns, having painted for every cell, column
    by column, the plain floor and then the tile of the cell, after them the
    player, then the level number and the seven icons -- [2*w*h + 9] calls
    in all. *)
Theorem Draw_paints (s : Session) :
  wellShaped (curLev s) ->
  let l := curLev s in
  Draw s
  = Ok (paintedCells l
        ++ [drawSprite (px l) (py l) (psprite l) (sx l) (sy l) (zfactor l) 64 64;
            DebugPrint (currentLevelNumber s)]
        ++ drawIcons) /\
  Z.of_nat (length (paintedCells l)) = 2 * (w l * h l).
Proof.
  intros Hs l. split.
  - unfold Draw. fold l.
    rewrite (drawAll_flat_map _
      (fun i => flat_map (fun j =>
         [drawSprite i j EMPTY (sx l) (sy l) (zfactor l) 64 64;
          drawSprite i j (nth (Z.to_nat j) (nth (Z.to_nat i) (grid l) []) 0)
                     (sx l) (sy l) (zfactor l) 64 64]) (upto (h l)))).
    { reflexivity. }
    intros i Hi. apply elem_of_upto in Hi.
    apply drawAll_flat_map. intros j Hj. apply elem_of_upto in Hj.
    unfold drawCell.
    destruct (proj1 (cell_inGrid l i j Hs) (conj Hi Hj)) as [c Hc].
    rewrite Hc. simpl. apply cell_Ok in Hc.
    destruct Hc as (_ & _ & col & Hcol & Hv).
    rewrite (nth_lookup_Some _ _ [] col Hcol).
    rewrite (nth_lookup_Some _ _ 0 c Hv). reflexivity.
  - unfold paintedCells. assert (Hs' : wellShaped l) by exact Hs.
    destruct Hs' as (Hw & Hh & _).
    assert (Hinner : forall i, length (flat_map (fun j =>
         [drawSprite i j EMPTY (sx l) (sy l) (zfactor l) 64 64;
          drawSprite i j (nth (Z.to_nat j) (nth (Z.to_nat i) (grid l) []) 0)
                     (sx l) (sy l) (zfactor l) 64 64]) (upto (h l)))
         = (2 * Z.to_nat (h l))%nat).
    { intros i. rewrite <- (upto_length (h l)).
      induction (upto (h l)) as [|j js IH]; [reflexivity|].
      cbn [flat_map]. rewrite length_app, IH. simpl. lia. }
    assert (Houter : forall xs : list Z, length (flat_map (fun i => flat_map (fun j =>
         [drawSprite i j EMPTY (sx l) (sy l) (zfactor l) 64 64;
          drawSprite i j (nth (Z.to_nat j) (nth (Z.to_nat i) (grid l) []) 0)
                     (sx l) (sy l) (zfactor l) 64 64]) (upto (h l))) xs)
         = (length xs * (2 * Z.to_nat (h l)))%nat).
    { induction xs as [|i xs IH]; [reflexivity|].
      cbn [flat_map length]. rewrite length_app, IH, Hinner. nia. }
    fold l. rewrite Houter, upto_length.
    rewrite !Nat2Z.inj_mul, !Z2Nat.id by lia.
    change (Z.of_nat 2) with 2. ring.
Qed.

Lemma Draw_paints_witness :
  Z.of_nat (length (paintedCells demoLevel)) = 48.
Proof.
  exact (proj2 (Draw_paints (mkSession [] 0 demoLevel) demoLevel_wellShaped)).
Defined.

(** X22. Different sprite numbers show different pictures: for sprites of
    positive size, the rectangles that [drawSprite] cuts from the tile sheet
    for two different non-negative sprite numbers do not overlap, and each
    lies within the 13 columns of the sheet. *)
Theorem sprite_rects_disjoint (n1 n2 spriteW spriteH : Z) :
  0 <= n1 -> 0 <= n2 -> n1 <> n2 -> 0 < spriteW -> 0 < spriteH ->
  rectsDisjoint (spriteRect n1 spriteW spriteH) (spriteRect n2 spriteW spriteH) /\
  (let '(x0, _, x1, _) := spriteRect n1 spriteW spriteH in
   0 <= x0 /\ x1 <= 13 * spriteW).
Proof.
  intros H1 H2 Hne Hw Hh. unfold spriteRect, rectsDisjoint. cbn zeta.
  rewrite !Z.rem_mod_nonneg, !Z.quot_div_nonneg by lia.
  pose proof (Z.mod_pos_bound n1 13 ltac:(lia)).
  pose proof (Z.mod_pos_bound n2 13 ltac:(lia)).
  pose proof (Z.div_mod n1 13 ltac:(lia)).
  pose proof (Z.div_mod n2 13 ltac:(lia)).
  set (i1 := n1 mod 13) in *. set (j1 := n1 / 13) in *.
  set (i2 := n2 mod 13) in *. set (j2 := n2 / 13) in *.
  split; [|nia].
  destruct (Z.lt_trichotomy i1 i2) as [Hi|[Hi|Hi]].
  - left. nia.
  - destruct (Z.lt_trichotomy j1 j2) as [Hj|[Hj|Hj]].
    + right. right. left. nia.
    + exfalso. apply Hne. lia.
    + right. right. right. nia.
  - right. left. nia.
Qed.

Lemma sprite_rects_disjoint_witness :
  rectsDisjoint (spriteRect BOX 64 64) (spriteRect PLACED_BOX 64 64).
Proof.
  apply (sprite_rects_disjoint BOX PLACED_BOX 64 64); discriminate || reflexivity.
Defined.

(** ** Every sound level has a buffer *)

Lemma map_nth_upto {A : Type} (l : list A) (d : A) (n : Z) :
  n = Z.of_nat (length l) ->
  map (fun i => nth (Z.to_nat i) l d) (upto n) = l.
Proof.
  intros ->. unfold upto. rewrite Nat2Z.id, map_map.
  apply nth_ext with (d := d) (d' := d).
  - rewrite length_map, length_seq. reflexivity.
  - intros k Hk. rewrite length_map, length_seq in Hk.
    rewrite (nth_indep _ d (nth (Z.to_nat (Z.of_nat 0)) l d))
      by (rewrite length_map, length_seq; assumption).
    rewrite (map_nth (fun x => nth (Z.to_nat (Z.of_nat x)) l d)).
    rewrite seq_nth by assumption. rewrite Nat2Z.id. reflexivity.
Qed.

Lemma tileByte_tileOf (t : Z) : isTile t -> tileByte (tileOf t) = t.
Proof. intros [->|[->|[->|[->| ->]]]]; reflexivity. Qed.

Lemma emitAll_singles (flat : list Z) :
  Forall isTile flat ->
  emitAll (map (fun t => (Single, tileOf t)) flat) = flat.
Proof.
  induction 1 as [|t flat Ht _ IH]; [reflexivity|].
  unfold emitAll in *. cbn [map flat_map]. rewrite IH. unfold emit. simpl.
  rewrite tileByte_tileOf by assumption. reflexivity.
Qed.

Lemma flatOf_length (l : Level) :
  wellShaped l -> Z.of_nat (length (flatOf l)) = w l * h l.
Proof.
  intros (Hw & Hh & _). unfold flatOf. rewrite length_map, upto_length. nia.
Qed.

Lemma flatOf_tiles (l : Level) :
  wellShaped l -> tilesOnly (grid l) -> Forall isTile (flatOf l).
Proof.
  intros Hs Htiles. unfold flatOf. apply Forall_forall. intros t Ht.
  apply list_elem_of_In in Ht. apply in_map_iff in Ht.
  destruct Ht as (p & <- & Hp). apply list_elem_of_In, elem_of_upto in Hp.
  pose proof Hs as (Hw & Hh & _).
  assert (Hpos : 0 < w l).
  { assert (w l <> 0) by (intros E0; rewrite E0 in Hp; lia). lia. }
  assert (Hin : inGrid l (p mod w l) (p / w l)).
  { split; [apply Z.mod_pos_bound; assumption|].
    split; [apply Z.div_pos; lia|]. apply Z.div_lt_upper_bound; lia. }
  apply (cell_inGrid l _ _ Hs) in Hin. destruct Hin as [c Hc].
  pose proof (proj1 (tilesOnly_cells (grid l)) Htiles _ _ _ Hc) as Hc'.
  apply cell_Ok in Hc. destruct Hc as (_ & _ & col & Hcol & Hv).
  rewrite (nth_lookup_Some _ _ [] col Hcol).
  rewrite (nth_lookup_Some _ _ 0 c Hv). exact Hc'.
Qed.

Lemma grid2Of_flatOf (l : Level) :
  wellShaped l -> grid2Of (flatOf l) (w l) (h l) = grid l.
Proof.
  intros Hs. pose proof Hs as (Hw & Hh & Hlen & Hcols).
  unfold grid2Of.
  etransitivity; [|apply (map_nth_upto (grid l) [] (w l)); lia].
  apply map_ext_in. intros x Hx.
  apply list_elem_of_In, elem_of_upto in Hx.
  assert (Hcol : length (nth (Z.to_nat x) (grid l) []) = Z.to_nat (h l)).
  { rewrite Forall_forall in Hcols. apply Hcols. apply list_elem_of_In.
    apply nth_In. lia. }
  etransitivity;
    [|apply (map_nth_upto (nth (Z.to_nat x) (grid l) []) 0 (h l)); lia].
  apply map_ext_in. intros y Hy.
  apply list_elem_of_In, elem_of_upto in Hy.
  unfold flatOf.
  assert (Hp : 0 <= y * w l + x < w l * h l) by nia.
  rewrite (nth_indep _ 0
             ((fun p => nth (Z.to_nat (p / w l))
                            (nth (Z.to_nat (p mod w l)) (grid l) []) 0) 0))
    by (rewrite length_map, upto_length; nia).
  rewrite (map_nth (fun p => nth (Z.to_nat (p / w l))
                            (nth (Z.to_nat (p mod w l)) (grid l) []) 0)).
  rewrite (nth_indep (upto (w l * h l)) 0 (y * w l + x))
    by (rewrite upto_length; nia).
  assert (Hnth : nth (Z.to_nat (y * w l + x)) (upto (w l * h l)) (y * w l + x)
                 = y * w l + x).
  { pose proof (upto_lookup (w l * h l) (y * w l + x) Hp) as Hl.
    apply (nth_lookup_Some _ _ (y * w l + x)) in Hl. exact Hl. }
  rewrite Hnth.
  replace ((y * w l + x) / w l) with y
    by (apply Z.div_unique with (r := x); lia).
  replace ((y * w l + x) mod w l) with x
    by (apply Z.mod_unique with (q := y); lia).
  reflexivity.
Qed.

(** X23. Every sound level is the decoding of a buffer: for a level with
    [w] columns of [h] cells, all of them tile values, facing up and with the
    display transform of its dimensions, the buffer that lists its tiles in
    stream order (position [p] holding [grid[p mod w][p div w]]) decodes to
    exactly that level. *)
Theorem decompress_compressLevel (l : Level) :
  wellShaped l -> tilesOnly (grid l) -> psprite l = PLAYERUP ->
  (zfactor l, sx l, sy l) = screenSpecifics (w l) (h l) ->
  decompressLevel (compressLevel l) = Ok l.
Proof.
  intros Hs Htiles Hsprite Hscreen. unfold compressLevel.
  pose proof (flatOf_tiles l Hs Htiles) as Hflat.
  rewrite compressRuns_decodes.
  - rewrite (emitAll_singles _ Hflat). unfold levelOf.
    rewrite <- Hscreen, (grid2Of_flatOf l Hs), <- Hsprite.
    destruct l; reflexivity.
  - unfold total. rewrite (emitAll_singles _ Hflat). apply flatOf_length.
    assumption.
Qed.

Lemma decompress_compressLevel_witness :
  decompressLevel (compressLevel demoLevel) = Ok demoLevel.
Proof.
  apply (decompress_compressLevel demoLevel demoLevel_wellShaped).
  - change (grid demoLevel) with demoGrid. unfold tilesOnly, demoGrid.
    repeat first [ apply List.Forall_nil
                 | apply List.Forall_cons
                 | (unfold isTile; vm_compute; auto 6; fail) ].
  - reflexivity.
  - reflexivity.
Defined.

(** ** The bits of the body lose nothing *)

Lemma bitsByte_byteBits (b : Z) : isByte b -> bitsByte (byteBits b) = b.
Proof.
  intros Hb.
  assert (Hall : forallb (fun b => bitsByte (byteBits b) =? b) (upto 256) = true)
    by (vm_compute; reflexivity).
  rewrite forallb_forall in Hall. apply Z.eqb_eq. apply Hall.
  unfold upto. apply in_map_iff. exists (Z.to_nat b). unfold isByte in Hb.
  split; [lia|]. apply in_seq. lia.
Qed.

Lemma packBits_cons (fuel : nat) (bits : list bool) :
  bits <> [] ->
  packBits (S fuel) bits
  = bitsByte (take 8 (bits ++ replicate 7 false)) :: packBits fuel (drop 8 bits).
Proof. destruct bits; [congruence | reflexivity]. Qed.

Lemma packBits_flat_map (bs : list Z) :
  Forall isByte bs ->
  forall fuel, (length bs <= fuel)%nat ->
               packBits fuel (flat_map byteBits bs) = bs.
Proof.
  induction 1 as [|b bs Hb _ IH]; intros fuel Hfuel.
  - destruct fuel; reflexivity.
  - destruct fuel as [|fuel]; [simpl in Hfuel; lia|].
    cbn [flat_map]. rewrite packBits_cons.
    + rewrite <- app_assoc.
      rewrite (take_app_length' (byteBits b)) by reflexivity.
      rewrite (drop_app_length' (byteBits b)) by reflexivity.
      rewrite bitsByte_byteBits by assumption.
      rewrite IH by (simpl in Hfuel; lia). reflexivity.
    + intros E. apply (f_equal length) in E. rewrite length_app in E.
      rewrite byteBits_length in E. simpl in E. lia.
Qed.

(** X24. The bitstream keeps the whole body: packing the bits that
    [decompressLevel] extracts from a buffer of bytes, eight to a byte and
    most significant bit first, gives back the bytes [[2, L-2)] of the
    buffer. *)
Theorem levelBits_lossless (level : list Z) :
  Forall isByte level ->
  packBits (length (levelBits level)) (levelBits level)
  = take (length level - 4) (drop 2 level).
Proof.
  intros Hbytes. unfold levelBits.
  rewrite packBits_flat_map.
  - unfold body. f_equal. lia.
  - unfold body. apply Forall_take, Forall_drop. assumption.
  - rewrite flat_map_byteBits_length. lia.
Qed.

Lemma levelBits_lossless_witness :
  packBits (length (levelBits demoBuffer)) (levelBits demoBuffer)
  = [214; 6; 16; 192; 134; 160].
Proof. exact (levelBits_lossless demoBuffer demoBuffer_bytes). Defined.
